(** * Game backend: player accounts and the virtual economy

    A shallow embedding of [server.js]: the SQLite tables the routes of the
    player-account and economy core read and write, the route handlers as
    state-passing functions over those tables, and the properties of the
    specification stated over them.

    Modelling conventions.
    - A table is the list of its rows in insertion (rowid) order; the SQL
      statements of the source are the combinators of [Sql].
    - [credits], [price] and [quantity] are INTEGER columns holding
      integers, taken as [Z].  JavaScript holds a number as a double and
      better-sqlite3 binds every JavaScript number as a REAL: [dbl] is the
      double nearest to an integer, and stands where a route compares or
      computes with a number it has read from a column or received as a
      JSON number, where SQLite computes [column + ?] or [column - ?] with
      a bound number, and where the result is read back.  A route that only
      reports a stored number answers it as stored, which is what
      JavaScript reads whenever the stored integer is a double (every
      integer up to 2^53 is).
    - The amount of [/credits/spend], [/credits/add], [/owner/credits/give]
      and [/owner/bulk/credits] and the quantity of [/inventory/remove]
      pass through JavaScript tests before they are bound: they are any
      JSON value ([js_value]), and what ToNumber and SQLite make of a string
      belongs to the [env].  The other numeric fields are JSON integers or
      absent ([option Z]).
    - Outside the model: fractions; NULL or TEXT in a numeric column (a
      [null] quantity sent to [/inventory/remove] would store NULL, so the
      request type has none); magnitudes from 2^63 on, where SQLite leaves
      64-bit INTEGER storage and, far beyond, a double is Infinity.
    - A string field of a request that the handler first tests with [!x]
      is a [string]: a missing field and the empty string take the same
      branch.
    - [uuidv4()] is random; the values a handler draws come with the call
      ([call_uuid1], [call_uuid2]), in the order the handler draws them.
    - [bcrypt] and the owner password are the [env] the server runs in.
    - [handle] covers the routes that read or write the five tables of
      [db].  The key/value tables [player_data] and [game_config] and the
      read-only routes [/leaderboard/credits], [/owner/stats] and
      [/cosmetics/owned] are modelled beside it, each as a function of its
      own; none of them writes a table of [db].  [broadcast_messages],
      [player_notes], the save-data leaderboard and the owner's listing and
      search routes are left out. *)

From Stdlib Require Import ZArith List String Bool Lia.
From Stdlib Require Import Sorted Permutation DecimalString.
Import ListNotations.

Open Scope string_scope.
Open Scope list_scope.
Open Scope Z_scope.

(** ** SQL statements over a table *)

Module Sql.
Section Table.
Context {row : Type}.

(** [SELECT ... WHERE w] with [.get()]: the first matching row, if any. *)
Definition get (w : row -> bool) (t : list row) : option row := find w t.

(** [SELECT ... WHERE w] with [.all()]. *)
Definition all (w : row -> bool) (t : list row) : list row := filter w t.

(** [UPDATE ... SET s WHERE w]. *)
Definition update (w : row -> bool) (s : row -> row) (t : list row) : list row :=
  map (fun r => if w r then s r else r) t.

(** [result.changes] of an UPDATE. *)
Definition changes (w : row -> bool) (t : list row) : nat :=
  List.length (filter w t).

(** [DELETE FROM ... WHERE w]. *)
Definition delete (w : row -> bool) (t : list row) : list row :=
  filter (fun r => negb (w r)) t.

(** [INSERT]: [None] when a PRIMARY KEY or UNIQUE constraint is violated
    (the statement throws). *)
Definition insert (conflict : row -> row -> bool) (r : row) (t : list row)
  : option (list row) :=
  if existsb (conflict r) t then None else Some (t ++ [r]).

(** [INSERT OR IGNORE]. *)
Definition insert_or_ignore (conflict : row -> row -> bool) (r : row)
           (t : list row) : list row :=
  if existsb (conflict r) t then t else t ++ [r].

(** [INSERT ... ON CONFLICT(...) DO UPDATE SET ...]; [s excluded old]. *)
Definition insert_on_conflict_update (conflict : row -> row -> bool)
           (s : row -> row -> row) (r : row) (t : list row) : list row :=
  if existsb (conflict r) t then update (conflict r) (s r) t else t ++ [r].
End Table.
End Sql.

(** ** The tables *)

Module Player.
Record row := mk {
  id : string;
  game_id : string;
  username : string;
  password_hash : string;
  token : option string;
  credits : Z;
  banned : bool
}.
Definition with_token (t : option string) (p : row) : row :=
  mk (id p) (game_id p) (username p) (password_hash p) t (credits p) (banned p).
Definition with_credits (c : Z) (p : row) : row :=
  mk (id p) (game_id p) (username p) (password_hash p) (token p) c (banned p).
Definition with_banned (b : bool) (p : row) : row :=
  mk (id p) (game_id p) (username p) (password_hash p) (token p) (credits p) b.
Definition with_password (h : string) (t : option string) (p : row) : row :=
  mk (id p) (game_id p) (username p) h t (credits p) (banned p).
(** [id TEXT PRIMARY KEY], [UNIQUE(game_id, username)]. *)
Definition conflict (a b : row) : bool :=
  (id a =? id b)%string
  || ((game_id a =? game_id b)%string && (username a =? username b)%string).
End Player.

Module Cosmetic.
Record row := mk {
  id : string;
  game_id : string;
  name : string;
  type : string;
  description : option string;
  price : Z;
  rarity : string
}.
Definition conflict (a b : row) : bool := (id a =? id b)%string.
End Cosmetic.

Module Owned.
Record row := mk {
  player_id : string;
  cosmetic_id : string;
  equipped : bool
}.
Definition with_equipped (e : bool) (r : row) : row :=
  mk (player_id r) (cosmetic_id r) e.
(** [PRIMARY KEY (player_id, cosmetic_id)]. *)
Definition conflict (a b : row) : bool :=
  (player_id a =? player_id b)%string && (cosmetic_id a =? cosmetic_id b)%string.
End Owned.

Module Item.
Record row := mk {
  player_id : string;
  item_name : string;
  quantity : Z;
  metadata : option string
}.
Definition with_quantity (q : Z) (r : row) : row :=
  mk (player_id r) (item_name r) q (metadata r).
(** [PRIMARY KEY (player_id, item_name)]. *)
Definition conflict (a b : row) : bool :=
  (player_id a =? player_id b)%string && (item_name a =? item_name b)%string.
End Item.

Module Friend.
Inductive status_t := pending | accepted.
Definition status_eqb (a b : status_t) : bool :=
  match a, b with
  | pending, pending | accepted, accepted => true
  | _, _ => false
  end.
Record row := mk {
  player_id : string;
  friend_id : string;
  status : status_t
}.
Definition with_status (s : status_t) (r : row) : row :=
  mk (player_id r) (friend_id r) s.
(** [PRIMARY KEY (player_id, friend_id)]. *)
Definition conflict (a b : row) : bool :=
  (player_id a =? player_id b)%string && (friend_id a =? friend_id b)%string.
End Friend.

Record db := mkdb {
  players : list Player.row;
  cosmetics_catalog : list Cosmetic.row;
  player_cosmetics : list Owned.row;
  inventory : list Item.row;
  friend_relationships : list Friend.row
}.

Definition set_players (t : list Player.row) (st : db) : db :=
  mkdb t (cosmetics_catalog st) (player_cosmetics st) (inventory st)
       (friend_relationships st).
Definition set_cosmetics_catalog (t : list Cosmetic.row) (st : db) : db :=
  mkdb (players st) t (player_cosmetics st) (inventory st)
       (friend_relationships st).
Definition set_player_cosmetics (t : list Owned.row) (st : db) : db :=
  mkdb (players st) (cosmetics_catalog st) t (inventory st)
       (friend_relationships st).
Definition set_inventory (t : list Item.row) (st : db) : db :=
  mkdb (players st) (cosmetics_catalog st) (player_cosmetics st) t
       (friend_relationships st).
Definition set_friend_relationships (t : list Friend.row) (st : db) : db :=
  mkdb (players st) (cosmetics_catalog st) (player_cosmetics st)
       (inventory st) t.

(** ** Numbers

    [rne e a] rounds [a] to the nearest multiple of [2 ^ e], ties to the
    even multiple.  A double has 53 significant bits: an integer up to
    2^53 in magnitude is a double, a larger one is rounded at the bit that
    leaves 53 of them. *)

Definition rne (e a : Z) : Z :=
  let q := a / 2 ^ e in
  let r := a mod 2 ^ e in
  let h := 2 ^ (e - 1) in
  if (r <? h) || ((r =? h) && Z.even q) then q * 2 ^ e else (q + 1) * 2 ^ e.

Definition round_pos (a : Z) : Z := rne (Z.log2 a - 52) a.

(** The double nearest to the integer [z]. *)
Definition dbl (z : Z) : Z :=
  if Z.abs z <=? 2 ^ 53 then z else Z.sgn z * round_pos (Z.abs z).

(** At most 2^53 in magnitude: up to there every integer is a double. *)
Definition safe (z : Z) : Prop := Z.abs z <= 2 ^ 53.

(** A JSON value of a request body, where the route works on it before it
    is bound to a statement. *)
Inductive js_value :=
| js_number (z : Z)                 (* the JSON integer [z], held as [dbl z] *)
| js_string (s : string)
| js_bool (b : bool)
| js_object (to_string : string).   (* an array or an object, and [String(v)] *)

(** ToNumber of a string. *)
Inductive js_num :=
| NaN
| finite (z : Z).

(** The operand of [+] or [-] in SQLite: an INTEGER, or a REAL given by the
    integer it equals. *)
Inductive sql_num :=
| sql_integer (z : Z)
| sql_real (z : Z).

(** ** The environment, requests and responses *)

(** [ToNumber] is JavaScript's conversion of a string in a comparison with
    a number; [sqlite_numeric] is what SQLite takes a TEXT operand of [+] or
    [-] for (the number its longest numeric prefix denotes). *)
Record env := mkenv {
  OWNER_PASSWORD : string;
  hashSync : string -> string;
  compareSync : string -> string -> bool;
  ToNumber : string -> js_num;
  sqlite_numeric : string -> sql_num
}.

Inductive request :=
| Register (game_id username password : string)
| Login (game_id username password : string)
| Me (tok : string)
| CreditsGet (tok : string)
| CreditsSpend (tok : string) (amount : option js_value)
| CreditsAdd (tok : string) (amount : option js_value)
| InventoryGet (tok : string)
| InventoryAdd (tok item_name : string) (quantity : option Z)
               (metadata : option string)
| InventoryRemove (tok item_name : string) (quantity : option js_value)
| CosmeticsBuy (tok cosmetic_id : string)
| CosmeticsEquip (tok cosmetic_id : string) (equipped : bool)
| OwnerCreditsGive (key player_id : string) (amount : option js_value)
| OwnerCreditsSet (key player_id : string) (amount : option Z)
| OwnerBan (key player_id : string) (banned : option bool)
| OwnerPlayerDelete (key id : string)
| OwnerCosmeticsCreate (key game_id name type : string)
                       (description : option string) (price : option Z)
                       (rarity : option string)
| OwnerCosmeticsDelete (key id : string)
| OwnerCosmeticsGrant (key player_id cosmetic_id : string)
| OwnerInventoryGive (key player_id item_name : string) (quantity : option Z)
| OwnerBulkBan (key : string) (player_ids : list string) (banned : option bool)
| OwnerBulkCredits (key : string) (player_ids : list string)
                   (amount : option js_value)
| OwnerBulkDelete (key : string) (player_ids : list string)
| OwnerResetPassword (key player_id new_password : string)
| FriendsRequest (tok friend_username : string)
| FriendsAccept (tok friend_id : string)
| FriendsGet (tok : string).

(** A request together with the values [uuidv4()] returns while it is
    handled. *)
Record call := mkcall {
  call_request : request;
  call_uuid1 : string;
  call_uuid2 : string
}.

Inductive body :=
| success
| success_register (player_id token username : string) (credits : Z)
| success_login (player_id token username : string) (credits : Z)
| success_me (player_id game_id username : string) (credits : Z)
| success_credits (credits : Z)
| success_new_credits (new_credits : Z)
| success_inventory (inventory : list (string * Z * option string))
| success_banned (banned : bool)
| success_cosmetic_id (cosmetic_id : string)
| success_updated (updated : nat)
| success_deleted (deleted : nat)
| success_friends (friends : list (string * string * Z)).

Inductive response :=
| json (b : body)                              (* res.json(...) *)
| status_json (code : nat) (error : string)    (* res.status(code).json({error}) *)
| uncaught.                                    (* an exception leaves the handler *)

(** ** Helpers *)

(** [!s] for a string field. *)
Definition falsy (s : string) : bool := (s =? "")%string.

(** [!v]. *)
Definition js_not (v : js_value) : bool :=
  match v with
  | js_number z => dbl z =? 0
  | js_string s => (s =? "")%string
  | js_bool b => negb b
  | js_object _ => false
  end.

(** ToNumber(v): what [v] is compared as, against a number. *)
Definition to_number (E : env) (v : js_value) : js_num :=
  match v with
  | js_number z => finite (dbl z)
  | js_string s => ToNumber E s
  | js_bool b => finite (if b then 1 else 0)
  | js_object s => ToNumber E s
  end.

(** [a <= b] and [a < b] on numbers: false when an operand is NaN. *)
Definition js_le (a b : js_num) : bool :=
  match a, b with
  | finite x, finite y => x <=? y
  | _, _ => false
  end.

Definition js_lt (a b : js_num) : bool :=
  match a, b with
  | finite x, finite y => x <? y
  | _, _ => false
  end.

(** The operand SQLite works on for a bound value: a number is bound as a
    REAL, a string as a TEXT; better-sqlite3 refuses a boolean, an array or
    an object with a TypeError ([None]) before the statement runs. *)
Definition bind (E : env) (v : js_value) : option sql_num :=
  match v with
  | js_number z => Some (sql_real (dbl z))
  | js_string s => Some (sqlite_numeric E s)
  | js_bool _ | js_object _ => None
  end.

(** [column + ?] and [column - ?] on an INTEGER column holding [c]: integer
    arithmetic with an INTEGER operand, double arithmetic with a REAL. *)
Definition sql_add (c : Z) (a : sql_num) : Z :=
  match a with
  | sql_integer z => c + z
  | sql_real z => dbl (dbl c + z)
  end.

Definition sql_sub (c : Z) (a : sql_num) : Z :=
  match a with
  | sql_integer z => c - z
  | sql_real z => dbl (dbl c - z)
  end.

Definition by_id (i : string) (p : Player.row) : bool :=
  (Player.id p =? i)%string.

Definition by_token (tok : string) (p : Player.row) : bool :=
  match Player.token p with
  | Some t => (t =? tok)%string
  | None => false
  end.

Definition by_name (g u : string) (p : Player.row) : bool :=
  (Player.game_id p =? g)%string && (Player.username p =? u)%string.

Definition getPlayer (st : db) (tok : string) : option Player.row :=
  Sql.get (by_token tok) (players st).

Definition requireAuth (st : db) (tok : string) : response + Player.row :=
  if falsy tok then inl (status_json 401 "Missing token") else
  match getPlayer st tok with
  | None => inl (status_json 401 "Invalid token")
  | Some player =>
      if Player.banned player then inl (status_json 403 "Account banned")
      else inr player
  end.

Definition requireOwner (E : env) (key : string) : bool :=
  (key =? OWNER_PASSWORD E)%string.

Definition not_authorized : response := status_json 403 "Not authorized".

(** ** Auth routes *)

Definition post_register (E : env) (st : db) (uuid1 uuid2 : string)
           (game_id username password : string) : db * response :=
  if falsy game_id || falsy username || falsy password then
    (st, status_json 400 "game_id, username, and password required")
  else
    let hash := hashSync E password in
    let id := uuid1 in
    let token := uuid2 in
    match Sql.insert Player.conflict
            (Player.mk id game_id username hash (Some token) 0 false)
            (players st) with
    | Some t => (set_players t st, json (success_register id token username 0))
    | None => (st, status_json 409 "Username already taken in this game")
    end.

Definition post_login (E : env) (st : db) (uuid1 : string)
           (game_id username password : string) : db * response :=
  if falsy game_id || falsy username || falsy password then
    (st, status_json 400 "game_id, username, and password required")
  else
    match Sql.get (by_name game_id username) (players st) with
    | None => (st, status_json 401 "Invalid credentials")
    | Some player =>
        if negb (compareSync E password (Player.password_hash player)) then
          (st, status_json 401 "Invalid credentials")
        else if Player.banned player then
          (st, status_json 403 "Account banned")
        else
          let token := uuid1 in
          (set_players
             (Sql.update (by_id (Player.id player))
                         (Player.with_token (Some token)) (players st)) st,
           json (success_login (Player.id player) token
                               (Player.username player) (Player.credits player)))
    end.

Definition get_me (st : db) (tok : string) : db * response :=
  match requireAuth st tok with
  | inl r => (st, r)
  | inr player =>
      (st, json (success_me (Player.id player) (Player.game_id player)
                            (Player.username player) (Player.credits player)))
  end.

(** ** Credits routes *)

Definition get_credits (st : db) (tok : string) : db * response :=
  match requireAuth st tok with
  | inl r => (st, r)
  | inr player => (st, json (success_credits (Player.credits player)))
  end.

(** The read-back [SELECT credits FROM players WHERE id = ?] after a write,
    answered as JavaScript reads the column; [updated.credits] throws when
    no row is found. *)
Definition read_back (st : db) (i : string) (k : Z -> body) : db * response :=
  match Sql.get (by_id i) (players st) with
  | Some updated => (st, json (k (dbl (Player.credits updated))))
  | None => (st, uncaught)
  end.

(** [amount] is [None] when the body has none or has [null]: [!amount]
    holds of both. *)
Definition post_credits_spend (E : env) (st : db) (tok : string)
           (amount : option js_value) : db * response :=
  match requireAuth st tok with
  | inl r => (st, r)
  | inr player =>
      match amount with
      | None => (st, status_json 400 "Invalid amount")
      | Some amount =>
          if js_not amount || js_le (to_number E amount) (finite 0) then
            (st, status_json 400 "Invalid amount")
          else if js_lt (finite (dbl (Player.credits player)))
                        (to_number E amount) then
            (st, status_json 400 "Not enough credits")
          else
            match bind E amount with
            | None => (st, uncaught)
            | Some a =>
                read_back
                  (set_players
                     (Sql.update (by_id (Player.id player))
                        (fun p => Player.with_credits
                                    (sql_sub (Player.credits p) a) p)
                        (players st)) st)
                  (Player.id player) success_credits
            end
      end
  end.

Definition post_credits_add (E : env) (st : db) (tok : string)
           (amount : option js_value) : db * response :=
  match requireAuth st tok with
  | inl r => (st, r)
  | inr player =>
      match amount with
      | None => (st, status_json 400 "Invalid amount")
      | Some amount =>
          if js_not amount || js_le (to_number E amount) (finite 0) then
            (st, status_json 400 "Invalid amount")
          else
            match bind E amount with
            | None => (st, uncaught)
            | Some a =>
                read_back
                  (set_players
                     (Sql.update (by_id (Player.id player))
                        (fun p => Player.with_credits
                                    (sql_add (Player.credits p) a) p)
                        (players st)) st)
                  (Player.id player) success_credits
            end
      end
  end.

(** ** Inventory routes *)

Definition item_key (pid item_name : string) (r : Item.row) : bool :=
  (Item.player_id r =? pid)%string && (Item.item_name r =? item_name)%string.

Definition get_inventory (st : db) (tok : string) : db * response :=
  match requireAuth st tok with
  | inl r => (st, r)
  | inr player =>
      (st, json (success_inventory
                   (map (fun r => (Item.item_name r, Item.quantity r,
                                   Item.metadata r))
                        (Sql.all (fun r => (Item.player_id r =? Player.id player)%string)
                                 (inventory st)))))
  end.

(** [ON CONFLICT(player_id, item_name) DO UPDATE SET quantity = quantity +
    excluded.quantity]. *)
Definition add_quantity (excluded old : Item.row) : Item.row :=
  Item.with_quantity (Item.quantity old + Item.quantity excluded) old.

(** [metadata] is the value of [metadata ? JSON.stringify(metadata) : null]. *)
Definition post_inventory_add (st : db) (tok item_name : string)
           (quantity : option Z) (metadata : option string) : db * response :=
  match requireAuth st tok with
  | inl r => (st, r)
  | inr player =>
      let quantity := match quantity with Some q => q | None => 1 end in
      if falsy item_name then (st, status_json 400 "item_name required")
      else
        (set_inventory
           (Sql.insert_on_conflict_update Item.conflict add_quantity
              (Item.mk (Player.id player) item_name quantity metadata)
              (inventory st)) st,
         json success)
  end.

(** [quantity] is [None] when the body has none: [quantity = 1].  The
    DELETE binds the player id and the item name only; the UPDATE binds the
    quantity as well. *)
Definition post_inventory_remove (E : env) (st : db) (tok item_name : string)
           (quantity : option js_value) : db * response :=
  match requireAuth st tok with
  | inl r => (st, r)
  | inr player =>
      let quantity := match quantity with Some q => q | None => js_number 1 end in
      if falsy item_name then (st, status_json 400 "item_name required")
      else
        match Sql.get (item_key (Player.id player) item_name) (inventory st) with
        | None => (st, status_json 404 "Item not found")
        | Some item =>
            if js_le (finite (dbl (Item.quantity item)))
                     (to_number E quantity) then
              (set_inventory
                 (Sql.delete (item_key (Player.id player) item_name)
                             (inventory st)) st,
               json success)
            else
              match bind E quantity with
              | None => (st, uncaught)
              | Some q =>
                  (set_inventory
                     (Sql.update (item_key (Player.id player) item_name)
                        (fun r => Item.with_quantity
                                    (sql_sub (Item.quantity r) q) r)
                        (inventory st)) st,
                   json success)
              end
        end
  end.

(** ** Cosmetics routes *)

Definition owned_key (pid cid : string) (r : Owned.row) : bool :=
  (Owned.player_id r =? pid)%string && (Owned.cosmetic_id r =? cid)%string.

Definition post_cosmetics_buy (st : db) (tok cosmetic_id : string)
  : db * response :=
  match requireAuth st tok with
  | inl r => (st, r)
  | inr player =>
      if falsy cosmetic_id then (st, status_json 400 "cosmetic_id required")
      else
        match Sql.get (fun c => (Cosmetic.id c =? cosmetic_id)%string)
                      (cosmetics_catalog st) with
        | None => (st, status_json 404 "Cosmetic not found")
        | Some cosmetic =>
            match Sql.get (owned_key (Player.id player) cosmetic_id)
                          (player_cosmetics st) with
            | Some _ => (st, status_json 409 "Already owned")
            | None =>
                if dbl (Player.credits player) <? dbl (Cosmetic.price cosmetic)
                then (st, status_json 400 "Not enough credits")
                else
                  let st1 :=
                    set_players
                      (Sql.update (by_id (Player.id player))
                         (fun p => Player.with_credits
                                     (sql_sub (Player.credits p)
                                        (sql_real (dbl (Cosmetic.price cosmetic))))
                                     p)
                         (players st)) st in
                  match Sql.insert Owned.conflict
                          (Owned.mk (Player.id player) cosmetic_id false)
                          (player_cosmetics st1) with
                  | None => (st1, uncaught)
                  | Some t =>
                      read_back (set_player_cosmetics t st1) (Player.id player)
                                success_credits
                  end
            end
        end
  end.

Definition post_cosmetics_equip (st : db) (tok cosmetic_id : string)
           (equipped : bool) : db * response :=
  match requireAuth st tok with
  | inl r => (st, r)
  | inr player =>
      if falsy cosmetic_id then (st, status_json 400 "cosmetic_id required")
      else
        match Sql.get (owned_key (Player.id player) cosmetic_id)
                      (player_cosmetics st) with
        | None => (st, status_json 403 "Cosmetic not owned")
        | Some _ =>
            (set_player_cosmetics
               (Sql.update (owned_key (Player.id player) cosmetic_id)
                           (Owned.with_equipped equipped)
                           (player_cosmetics st)) st,
             json success)
        end
  end.

(** ** Owner routes *)

Definition post_owner_credits_give (E : env) (st : db) (key player_id : string)
           (amount : option js_value) : db * response :=
  if negb (requireOwner E key) then (st, not_authorized) else
  match amount with
  | None => (st, status_json 400 "player_id and amount required")
  | Some amount =>
      if falsy player_id || js_not amount then
        (st, status_json 400 "player_id and amount required")
      else
        match bind E amount with
        | None => (st, uncaught)
        | Some a =>
            let changes := Sql.changes (by_id player_id) (players st) in
            let st1 :=
              set_players
                (Sql.update (by_id player_id)
                   (fun p => Player.with_credits (sql_add (Player.credits p) a) p)
                   (players st)) st in
            if (changes =? 0)%nat then (st1, status_json 404 "Player not found")
            else read_back st1 player_id success_new_credits
        end
  end.

Definition post_owner_credits_set (E : env) (st : db) (key player_id : string)
           (amount : option Z) : db * response :=
  if negb (requireOwner E key) then (st, not_authorized) else
  match amount with
  | None => (st, status_json 400 "player_id and amount required")
  | Some a =>
      if falsy player_id then
        (st, status_json 400 "player_id and amount required")
      else
        let changes := Sql.changes (by_id player_id) (players st) in
        let st1 :=
          set_players
            (Sql.update (by_id player_id) (Player.with_credits a) (players st))
            st in
        if (changes =? 0)%nat then (st1, status_json 404 "Player not found")
        else (st1, json (success_credits a))
  end.

(** [banned = 1] by default; the column receives [banned ? 1 : 0]. *)
Definition truthy_default (b : option bool) : bool :=
  match b with
  | Some v => v
  | None => true
  end.

Definition post_owner_ban (E : env) (st : db) (key player_id : string)
           (banned : option bool) : db * response :=
  if negb (requireOwner E key) then (st, not_authorized) else
  if falsy player_id then (st, status_json 400 "player_id required")
  else
    (set_players
       (Sql.update (by_id player_id)
                   (Player.with_banned (truthy_default banned)) (players st)) st,
     json (success_banned (truthy_default banned))).

(** The four DELETE statements of [/owner/player/:id] and of the loop body
    of [/owner/bulk/delete] ([player_data] is not modelled). *)
Definition delete_player (st : db) (id : string) : db :=
  let st1 :=
    set_player_cosmetics
      (Sql.delete (fun r => (Owned.player_id r =? id)%string)
                  (player_cosmetics st)) st in
  let st2 :=
    set_inventory
      (Sql.delete (fun r => (Item.player_id r =? id)%string) (inventory st1))
      st1 in
  set_players (Sql.delete (by_id id) (players st2)) st2.

Definition delete_owner_player (E : env) (st : db) (key id : string)
  : db * response :=
  if negb (requireOwner E key) then (st, not_authorized) else
  (delete_player st id, json success).

Definition post_owner_cosmetics_create (E : env) (st : db) (uuid1 : string)
           (key game_id name type : string) (description : option string)
           (price : option Z) (rarity : option string) : db * response :=
  if negb (requireOwner E key) then (st, not_authorized) else
  let price := match price with Some p => p | None => 0 end in
  let rarity := match rarity with Some r => r | None => "common" end in
  if falsy game_id || falsy name || falsy type then
    (st, status_json 400 "game_id, name, and type required")
  else
    let id := uuid1 in
    match Sql.insert Cosmetic.conflict
            (Cosmetic.mk id game_id name type description price rarity)
            (cosmetics_catalog st) with
    | None => (st, uncaught)
    | Some t => (set_cosmetics_catalog t st, json (success_cosmetic_id id))
    end.

Definition delete_owner_cosmetics (E : env) (st : db) (key id : string)
  : db * response :=
  if negb (requireOwner E key) then (st, not_authorized) else
  let st1 :=
    set_player_cosmetics
      (Sql.delete (fun r => (Owned.cosmetic_id r =? id)%string)
                  (player_cosmetics st)) st in
  (set_cosmetics_catalog
     (Sql.delete (fun c => (Cosmetic.id c =? id)%string) (cosmetics_catalog st1))
     st1,
   json success).

Definition post_owner_cosmetics_grant (E : env) (st : db)
           (key player_id cosmetic_id : string) : db * response :=
  if negb (requireOwner E key) then (st, not_authorized) else
  if falsy player_id || falsy cosmetic_id then
    (st, status_json 400 "player_id and cosmetic_id required")
  else
    (set_player_cosmetics
       (Sql.insert_or_ignore Owned.conflict
          (Owned.mk player_id cosmetic_id false) (player_cosmetics st)) st,
     json success).

Definition post_owner_inventory_give (E : env) (st : db)
           (key player_id item_name : string) (quantity : option Z)
  : db * response :=
  if negb (requireOwner E key) then (st, not_authorized) else
  let quantity := match quantity with Some q => q | None => 1 end in
  if falsy player_id || falsy item_name then
    (st, status_json 400 "player_id and item_name required")
  else
    (set_inventory
       (Sql.insert_on_conflict_update Item.conflict add_quantity
          (Item.mk player_id item_name quantity None) (inventory st)) st,
     json success).

(** ** Bulk owner operations: one transaction running the statement for
    every id of the batch, in order.  An amount that cannot be bound throws
    at the first id, before anything is written. *)

Definition post_owner_bulk_ban (E : env) (st : db) (key : string)
           (player_ids : list string) (banned : option bool) : db * response :=
  if negb (requireOwner E key) then (st, not_authorized) else
  match player_ids with
  | [] => (st, status_json 400 "player_ids array required")
  | _ =>
      (set_players
         (fold_left
            (fun t id => Sql.update (by_id id)
                           (Player.with_banned (truthy_default banned)) t)
            player_ids (players st)) st,
       json (success_updated (List.length player_ids)))
  end.

Definition post_owner_bulk_credits (E : env) (st : db) (key : string)
           (player_ids : list string) (amount : option js_value)
  : db * response :=
  if negb (requireOwner E key) then (st, not_authorized) else
  match player_ids, amount with
  | [], _ | _, None =>
      (st, status_json 400 "player_ids array and amount required")
  | _, Some amount =>
      if js_not amount then
        (st, status_json 400 "player_ids array and amount required")
      else
        match bind E amount with
        | None => (st, uncaught)
        | Some a =>
            (set_players
               (fold_left
                  (fun t id => Sql.update (by_id id)
                                 (fun p => Player.with_credits
                                             (sql_add (Player.credits p) a) p)
                                 t)
                  player_ids (players st)) st,
             json (success_updated (List.length player_ids)))
        end
  end.

Definition post_owner_bulk_delete (E : env) (st : db) (key : string)
           (player_ids : list string) : db * response :=
  if negb (requireOwner E key) then (st, not_authorized) else
  match player_ids with
  | [] => (st, status_json 400 "player_ids array required")
  | _ =>
      (fold_left delete_player player_ids st,
       json (success_deleted (List.length player_ids)))
  end.

Definition post_owner_reset_password (E : env) (st : db) (uuid1 : string)
           (key player_id new_password : string) : db * response :=
  if negb (requireOwner E key) then (st, not_authorized) else
  if falsy player_id || falsy new_password then
    (st, status_json 400 "player_id and new_password required")
  else
    match Sql.get (by_id player_id) (players st) with
    | None => (st, status_json 404 "Player not found")
    | Some player =>
        let hash := hashSync E new_password in
        let token := uuid1 in
        (set_players
           (Sql.update (by_id player_id)
                       (Player.with_password hash (Some token)) (players st)) st,
         json success)
    end.

(** ** Friends *)

Definition edge (a b : string) (r : Friend.row) : bool :=
  (Friend.player_id r =? a)%string && (Friend.friend_id r =? b)%string.

Definition post_friends_request (st : db) (tok friend_username : string)
  : db * response :=
  match requireAuth st tok with
  | inl r => (st, r)
  | inr player =>
      if falsy friend_username then
        (st, status_json 400 "friend_username required")
      else
        match Sql.get (by_name (Player.game_id player) friend_username)
                      (players st) with
        | None => (st, status_json 404 "Player not found in this game")
        | Some friend =>
            if (Player.id friend =? Player.id player)%string then
              (st, status_json 400 "Cannot add yourself")
            else
              (set_friend_relationships
                 (Sql.insert_or_ignore Friend.conflict
                    (Friend.mk (Player.id player) (Player.id friend)
                               Friend.pending)
                    (friend_relationships st)) st,
               json success)
        end
  end.

Definition post_friends_accept (st : db) (tok friend_id : string)
  : db * response :=
  match requireAuth st tok with
  | inl r => (st, r)
  | inr player =>
      if falsy friend_id then (st, status_json 400 "friend_id required")
      else
        let t1 :=
          Sql.update (edge friend_id (Player.id player))
                     (Friend.with_status Friend.accepted)
                     (friend_relationships st) in
        (set_friend_relationships
           (Sql.insert_or_ignore Friend.conflict
              (Friend.mk (Player.id player) friend_id Friend.accepted) t1) st,
         json success)
  end.

(** [SELECT p.id, p.username, p.credits FROM friend_relationships fr
     JOIN players p ON p.id = fr.friend_id
     WHERE fr.player_id = ? AND fr.status = 'accepted']. *)
Definition friends_of (st : db) (pid : string) : list (string * string * Z) :=
  flat_map
    (fun fr =>
       map (fun p => (Player.id p, Player.username p, Player.credits p))
           (Sql.all (by_id (Friend.friend_id fr)) (players st)))
    (Sql.all
       (fun fr => (Friend.player_id fr =? pid)%string
                  && Friend.status_eqb (Friend.status fr) Friend.accepted)
       (friend_relationships st)).

Definition get_friends (st : db) (tok : string) : db * response :=
  match requireAuth st tok with
  | inl r => (st, r)
  | inr player => (st, json (success_friends (friends_of st (Player.id player))))
  end.

(** ** The server *)

Definition handle (E : env) (st : db) (c : call) : db * response :=
  let u1 := call_uuid1 c in
  let u2 := call_uuid2 c in
  match call_request c with
  | Register g u pw => post_register E st u1 u2 g u pw
  | Login g u pw => post_login E st u1 g u pw
  | Me tok => get_me st tok
  | CreditsGet tok => get_credits st tok
  | CreditsSpend tok a => post_credits_spend E st tok a
  | CreditsAdd tok a => post_credits_add E st tok a
  | InventoryGet tok => get_inventory st tok
  | InventoryAdd tok n q m => post_inventory_add st tok n q m
  | InventoryRemove tok n q => post_inventory_remove E st tok n q
  | CosmeticsBuy tok c => post_cosmetics_buy st tok c
  | CosmeticsEquip tok c e => post_cosmetics_equip st tok c e
  | OwnerCreditsGive k p a => post_owner_credits_give E st k p a
  | OwnerCreditsSet k p a => post_owner_credits_set E st k p a
  | OwnerBan k p b => post_owner_ban E st k p b
  | OwnerPlayerDelete k i => delete_owner_player E st k i
  | OwnerCosmeticsCreate k g n t d p r =>
      post_owner_cosmetics_create E st u1 k g n t d p r
  | OwnerCosmeticsDelete k i => delete_owner_cosmetics E st k i
  | OwnerCosmeticsGrant k p c => post_owner_cosmetics_grant E st k p c
  | OwnerInventoryGive k p n q => post_owner_inventory_give E st k p n q
  | OwnerBulkBan k ids b => post_owner_bulk_ban E st k ids b
  | OwnerBulkCredits k ids a => post_owner_bulk_credits E st k ids a
  | OwnerBulkDelete k ids => post_owner_bulk_delete E st k ids
  | OwnerResetPassword k p pw => post_owner_reset_password E st u1 k p pw
  | FriendsRequest tok u => post_friends_request st tok u
  | FriendsAccept tok f => post_friends_accept st tok f
  | FriendsGet tok => get_friends st tok
  end.

(** The state after a sequence of calls, handled one after the other (the
    handlers are synchronous: one runs to completion before the next). *)
Definition run (E : env) (st : db) (cs : list call) : db :=
  fold_left (fun s c => fst (handle E s c)) cs st.

(** ** State predicates *)

(** The PRIMARY KEY of [players]. *)
Definition unique_player_ids (st : db) : Prop :=
  NoDup (map Player.id (players st)).

Definition nonneg (p : Player.row) : Prop := 0 <= Player.credits p.

Definition balances_nonneg (st : db) : Prop := Forall nonneg (players st).

(** The stored balance of the player with a given id. *)
Definition balance (st : db) (pid : string) : option Z :=
  option_map Player.credits (Sql.get (by_id pid) (players st)).

(** The calls of the economy ledger a player can issue. *)
Definition ledger_call (c : call) : Prop :=
  match call_request c with
  | CreditsSpend _ _ | CreditsAdd _ _ | CosmeticsBuy _ _ => True
  | _ => False
  end.

(** The JSON value is not a string. *)
Definition not_text (v : option js_value) : Prop :=
  match v with
  | Some (js_string _) => False
  | _ => True
  end.

(** The amount of the call, if it has one, is not a string.  Of a string
    the JavaScript guards see ToNumber and SQLite the number of its numeric
    prefix, which need not agree. *)
Definition amount_not_text (c : call) : Prop :=
  match call_request c with
  | CreditsSpend _ a | CreditsAdd _ a
  | OwnerCreditsGive _ _ a | OwnerBulkCredits _ _ a => not_text a
  | _ => True
  end.

(** The owner routes write the amount they are given; this singles out the
    calls whose amount, if a number, is not negative. *)
Definition owner_amount_nonneg (c : call) : Prop :=
  match call_request c with
  | OwnerCreditsGive _ _ (Some (js_number a))
  | OwnerBulkCredits _ _ (Some (js_number a)) => 0 <= a
  | OwnerCreditsSet _ _ (Some a) => 0 <= a
  | _ => True
  end.

(** The catalog knows the cosmetic id. *)
Definition in_catalog (st : db) (cid : string) : Prop :=
  exists c, In c (cosmetics_catalog st) /\ Cosmetic.id c = cid.

(** The price the catalog row found for the id carries. *)
Definition catalog_price (st : db) (cid : string) : option Z :=
  option_map Cosmetic.price
    (Sql.get (fun c => (Cosmetic.id c =? cid)%string) (cosmetics_catalog st)).

(** The player has an ownership row for the cosmetic. *)
Definition owns (st : db) (pid cid : string) : Prop :=
  exists r, In r (player_cosmetics st)
            /\ Owned.player_id r = pid /\ Owned.cosmetic_id r = cid.

(** The PRIMARY KEY of [inventory]. *)
Definition item_pk (r : Item.row) : string * string :=
  (Item.player_id r, Item.item_name r).

Definition unique_item_keys (st : db) : Prop :=
  NoDup (map item_pk (inventory st)).

Definition positive (r : Item.row) : Prop := 0 < Item.quantity r.



(** The inventory row of a player for an item, as the routes look it up. *)
Definition stack (st : db) (pid item_name : string) : option Item.row :=
  Sql.get (item_key pid item_name) (inventory st).

(** A directed edge [a -> b] of the friend relation, of any status and in
    the accepted status. *)
Definition any_edge (st : db) (a b : string) : Prop :=
  exists r, In r (friend_relationships st)
            /\ Friend.player_id r = a /\ Friend.friend_id r = b.

Definition accepted_edge (st : db) (a b : string) : Prop :=
  exists r, In r (friend_relationships st)
            /\ Friend.player_id r = a /\ Friend.friend_id r = b
            /\ Friend.status r = Friend.accepted.

Definition is_player (st : db) (i : string) : Prop :=
  exists p, In p (players st) /\ Player.id p = i.

(** The player with id [f] is among the rows [GET /friends] returns for the
    player with id [pid]. *)
Definition listed_friend (st : db) (pid f : string) : Prop :=
  In f (map (fun x => fst (fst x)) (friends_of st pid)).

(** Nobody holds the session token [t]. *)
Definition no_holder (t : string) (st : db) : Prop :=
  Forall (fun q => Player.token q <> Some t) (players st).

(** [uuidv4()] does not return [t] during the call. *)
Definition never_draws (t : string) (c : call) : Prop :=
  call_uuid1 c <> t /\ call_uuid2 c <> t.

(** A token is held by rows of one player id only. *)
Definition distinct_tokens (t : list Player.row) : Prop :=
  forall q1 q2 k, In q1 t -> In q2 t ->
                  Player.token q1 = Some k -> Player.token q2 = Some k ->
                  Player.id q1 = Player.id q2.

Definition tokens_distinct (st : db) : Prop := distinct_tokens (players st).

(** The values [uuidv4()] returns during the call are tokens nobody holds. *)
Definition draws_unused (st : db) (c : call) : Prop :=
  no_holder (call_uuid1 c) st /\ no_holder (call_uuid2 c) st.

(** Every call of the sequence draws unused values, in the state it runs in. *)
Fixpoint draws_unused_along (E : env) (st : db) (cs : list call) : Prop :=
  match cs with
  | [] => True
  | c :: cs' =>
      draws_unused st c /\ draws_unused_along E (fst (handle E st c)) cs'
  end.

(** The database before any request. *)
Definition empty_db : db := mkdb [] [] [] [] [].

(** ** The gate in front of each route *)

(** The token of a request of [handle] whose route is registered with
    [requireAuth].  These are twelve of the sixteen such routes; [/save],
    [/load], [DELETE /save/:key] and [/cosmetics/owned] take their token as
    an argument of [post_save], [get_load], [delete_save] and
    [get_cosmetics_owned]. *)
Definition player_token (r : request) : option string :=
  match r with
  | Me tok | CreditsGet tok | CreditsSpend tok _ | CreditsAdd tok _
  | InventoryGet tok | InventoryAdd tok _ _ _ | InventoryRemove tok _ _
  | CosmeticsBuy tok _ | CosmeticsEquip tok _ _
  | FriendsRequest tok _ | FriendsAccept tok _ | FriendsGet tok => Some tok
  | _ => None
  end.

(** The key of a request of [handle] whose route is registered with
    [requireOwner].  These are twelve of the twenty-seven such routes;
    [/owner/save/:player_id], [/owner/stats], [/owner/config/set] and
    [DELETE /owner/config/:game_id/:key] take their key as an argument of
    [get_owner_save], [get_owner_stats], [post_owner_config_set] and
    [delete_owner_config]; the other eleven are not modelled. *)
Definition owner_key (r : request) : option string :=
  match r with
  | OwnerCreditsGive k _ _ | OwnerCreditsSet k _ _ | OwnerBan k _ _
  | OwnerPlayerDelete k _ | OwnerCosmeticsCreate k _ _ _ _ _ _
  | OwnerCosmeticsDelete k _ | OwnerCosmeticsGrant k _ _
  | OwnerInventoryGive k _ _ _ | OwnerBulkBan k _ _ | OwnerBulkCredits k _ _
  | OwnerBulkDelete k _ | OwnerResetPassword k _ _ => Some k
  | _ => None
  end.

(** ** The keys of the schema *)

(** [UNIQUE(game_id, username)] of [players]. *)
Definition name_key (p : Player.row) : string * string :=
  (Player.game_id p, Player.username p).

(** PRIMARY KEY of [player_cosmetics] and of [friend_relationships]. *)
Definition owned_pk (r : Owned.row) : string * string :=
  (Owned.player_id r, Owned.cosmetic_id r).

Definition friend_pk (r : Friend.row) : string * string :=
  (Friend.player_id r, Friend.friend_id r).

(** Every PRIMARY KEY and UNIQUE constraint of the five tables holds. *)
Definition primary_keys (st : db) : Prop :=
  NoDup (map Player.id (players st))
  /\ NoDup (map name_key (players st))
  /\ NoDup (map Cosmetic.id (cosmetics_catalog st))
  /\ NoDup (map owned_pk (player_cosmetics st))
  /\ NoDup (map item_pk (inventory st))
  /\ NoDup (map friend_pk (friend_relationships st)).

(** ** The credits leaderboard *)

(** [WHERE game_id = ? AND banned = 0]. *)
Definition on_board (game_id : string) (p : Player.row) : bool :=
  (Player.game_id p =? game_id)%string && negb (Player.banned p).

(** [ORDER BY credits DESC], as an insertion sort that keeps rows of equal
    credits in table order.  SQLite leaves the order among equal keys
    unspecified; nothing below depends on it. *)
Fixpoint insert_desc (p : Player.row) (l : list Player.row) : list Player.row :=
  match l with
  | [] => [p]
  | q :: l' =>
      if Player.credits q <=? Player.credits p then p :: q :: l'
      else q :: insert_desc p l'
  end.

Definition order_by_credits_desc (t : list Player.row) : list Player.row :=
  fold_right insert_desc [] t.

(** The order of the board: no fewer credits than the row after. *)
Definition richer_first (a b : Player.row) : Prop :=
  Player.credits b <= Player.credits a.

(** [LIMIT n]: a negative [n] means no limit. *)
Definition sql_limit {A} (n : Z) (l : list A) : list A :=
  if n <? 0 then l else firstn (Z.to_nat n) l.

(** The rows the SELECT of [/leaderboard/credits] returns; [limit] is the
    value of [parseInt(limit)], 10 when the query has no [limit]. *)
Definition leaderboard_rows (st : db) (game_id : string) (limit : option Z)
  : list Player.row :=
  sql_limit (match limit with Some n => n | None => 10 end)
            (order_by_credits_desc (Sql.all (on_board game_id) (players st))).

(** [rows.map((r, i) => ({ rank: i + 1, ...r }))]: rank, player id,
    username, credits. *)
Definition ranked (rows : list Player.row) : list (nat * string * string * Z) :=
  map (fun ir => (S (fst ir), Player.id (snd ir), Player.username (snd ir),
                  Player.credits (snd ir)))
      (combine (seq 0 (List.length rows)) rows).

Definition get_leaderboard_credits (st : db) (game_id : string)
           (limit : option Z) : response + list (nat * string * string * Z) :=
  if falsy game_id then inl (status_json 400 "game_id required")
  else inr (ranked (leaderboard_rows st game_id limit)).

(** ** Save data and game configuration

    Two key/value tables beside the five of [db].  Their values are JSON
    texts; [JSON.stringify], [JSON.parse] and [typeof v === 'string'] are
    the [JSON] the server runs with. *)

Record JSON (J : Type) := mkJSON {
  stringify : J -> string;
  parse : string -> option J;          (* [None]: [JSON.parse] throws *)
  as_string : J -> option string       (* [Some s]: the value is the string [s] *)
}.
Arguments stringify {J}.
Arguments parse {J}.
Arguments as_string {J}.

(** What [try { JSON.parse(v) } catch { v }] yields. *)
Inductive loaded (J : Type) :=
| parsed (j : J)
| raw (s : string).
Arguments parsed {J}.
Arguments raw {J}.

Definition decode {J} (C : JSON J) (v : string) : loaded J :=
  match parse C v with
  | Some j => parsed j
  | None => raw v
  end.

(** [INSERT OR REPLACE]: rows in conflict are deleted, the new row is
    inserted. *)
Definition insert_or_replace {row} (conflict : row -> row -> bool) (r : row)
           (t : list row) : list row :=
  Sql.delete (conflict r) t ++ [r].

Module Data.
Record row := mk {
  player_id : string;
  key : string;
  value : string
}.
(** [PRIMARY KEY (player_id, key)]. *)
Definition conflict (a b : row) : bool :=
  (player_id a =? player_id b)%string && (key a =? key b)%string.
End Data.

Definition data_key (pid k : string) (r : Data.row) : bool :=
  (Data.player_id r =? pid)%string && (Data.key r =? k)%string.

Definition data_pk (r : Data.row) : string * string :=
  (Data.player_id r, Data.key r).

(** The stored text under a player's key. *)
Definition saved (pd : list Data.row) (pid k : string) : option string :=
  option_map Data.value (Sql.get (data_key pid k) pd).

(** [POST /save]; [data] is [Object.entries(data)], [None] when the body
    has no [data] or [data] is not an object. *)
Definition post_save {J} (C : JSON J) (st : db) (pd : list Data.row)
           (tok : string) (data : option (list (string * J)))
  : list Data.row * response :=
  match requireAuth st tok with
  | inl r => (pd, r)
  | inr player =>
      match data with
      | None => (pd, status_json 400 "data must be a JSON object")
      | Some entries =>
          (fold_left
             (fun t kv =>
                insert_or_replace Data.conflict
                  (Data.mk (Player.id player) (fst kv) (stringify C (snd kv))) t)
             entries pd,
           json success)
      end
  end.


(** The rows of one player as the object [GET /load] and
    [GET /owner/save/:player_id] build from them. *)
Definition data_of {J} (C : JSON J) (pd : list Data.row) (pid : string)
  : list (string * loaded J) :=
  map (fun r => (Data.key r, decode C (Data.value r)))
      (Sql.all (fun r => (Data.player_id r =? pid)%string) pd).

Definition get_load {J} (C : JSON J) (st : db) (pd : list Data.row)
           (tok : string) : response + list (string * loaded J) :=
  match requireAuth st tok with
  | inl r => inl r
  | inr player => inr (data_of C pd (Player.id player))
  end.

(** [DELETE /save/:key]. *)
Definition delete_save (st : db) (pd : list Data.row) (tok key : string)
  : list Data.row * response :=
  match requireAuth st tok with
  | inl r => (pd, r)
  | inr player =>
      (Sql.delete (data_key (Player.id player) key) pd, json success)
  end.

Definition get_owner_save {J} (C : JSON J) (E : env) (pd : list Data.row)
           (key player_id : string) : response + list (string * loaded J) :=
  if negb (requireOwner E key) then inl not_authorized
  else inr (data_of C pd player_id).

Module Config.
Record row := mk {
  game_id : string;
  key : string;
  value : string
}.
Definition with_value (v : string) (r : row) : row := mk (game_id r) (key r) v.
(** [PRIMARY KEY (game_id, key)]. *)
Definition conflict (a b : row) : bool :=
  (game_id a =? game_id b)%string && (key a =? key b)%string.
End Config.

Definition config_key (g k : string) (r : Config.row) : bool :=
  (Config.game_id r =? g)%string && (Config.key r =? k)%string.

Definition config_pk (r : Config.row) : string * string :=
  (Config.game_id r, Config.key r).

(** [typeof value === 'string' ? value : JSON.stringify(value)]. *)
Definition serialized {J} (C : JSON J) (v : J) : string :=
  match as_string C v with
  | Some s => s
  | None => stringify C v
  end.

(** [POST /owner/config/set]; [value] is [None] when the body has none.
    The [updated_at] column is not modelled. *)
Definition post_owner_config_set {J} (C : JSON J) (E : env)
           (cfg : list Config.row) (owner game_id key : string)
           (value : option J) : list Config.row * response :=
  if negb (requireOwner E owner) then (cfg, not_authorized) else
  match value with
  | None => (cfg, status_json 400 "game_id, key, and value required")
  | Some v =>
      if falsy game_id || falsy key then
        (cfg, status_json 400 "game_id, key, and value required")
      else
        (Sql.insert_on_conflict_update Config.conflict
           (fun excluded old => Config.with_value (Config.value excluded) old)
           (Config.mk game_id key (serialized C v)) cfg,
         json success)
  end.

(** [GET /config/:key?game_id=]. *)
Definition get_config_key {J} (C : JSON J) (cfg : list Config.row)
           (game_id key : string) : response + loaded J :=
  if falsy game_id then inl (status_json 400 "game_id required") else
  match Sql.get (config_key game_id key) cfg with
  | None => inl (status_json 404 "Key not found")
  | Some row => inr (decode C (Config.value row))
  end.

(** [GET /config?game_id=]. *)
Definition get_config {J} (C : JSON J) (cfg : list Config.row)
           (game_id : string) : response + list (string * loaded J) :=
  if falsy game_id then inl (status_json 400 "game_id required") else
  inr (map (fun r => (Config.key r, decode C (Config.value r)))
           (Sql.all (fun r => (Config.game_id r =? game_id)%string) cfg)).

(** [DELETE /owner/config/:game_id/:key]. *)
Definition delete_owner_config (E : env) (cfg : list Config.row)
           (owner game_id key : string) : list Config.row * response :=
  if negb (requireOwner E owner) then (cfg, not_authorized) else
  (Sql.delete (config_key game_id key) cfg, json success).

(** ** Owner statistics and the owned-cosmetics listing *)

(** [SELECT SUM(credits) FROM players], with [|| 0] for the empty table. *)
Definition sum_credits (t : list Player.row) : Z :=
  fold_right (fun p acc => Player.credits p + acc) 0 t.

Definition total_credits (st : db) : Z := sum_credits (players st).

(** [GET /owner/stats]: total_players, total_games, total_credits (the
    sum as JavaScript reads it), banned_players, total_cosmetics. *)
Definition get_owner_stats (E : env) (st : db) (key : string)
  : response + (nat * nat * Z * nat * nat) :=
  if negb (requireOwner E key) then inl not_authorized
  else inr (List.length (players st),
            List.length (nodup string_dec (map Player.game_id (players st))),
            dbl (total_credits st),
            List.length (Sql.all Player.banned (players st)),
            List.length (cosmetics_catalog st)).

(** [SELECT c.*, pc.equipped FROM player_cosmetics pc
     JOIN cosmetics_catalog c ON c.id = pc.cosmetic_id
     WHERE pc.player_id = ?] ([obtained_at] is not modelled). *)
Definition cosmetics_owned (st : db) (pid : string)
  : list (Cosmetic.row * bool) :=
  flat_map
    (fun pc =>
       map (fun c => (c, Owned.equipped pc))
           (Sql.all (fun c => (Cosmetic.id c =? Owned.cosmetic_id pc)%string)
                    (cosmetics_catalog st)))
    (Sql.all (fun pc => (Owned.player_id pc =? pid)%string)
             (player_cosmetics st)).

Definition get_cosmetics_owned (st : db) (tok : string)
  : response + list (Cosmetic.row * bool) :=
  match requireAuth st tok with
  | inl r => inl r
  | inr player => inr (cosmetics_owned st (Player.id player))
  end.

(** ** Example data *)

(** The decimal digits a string starts with, and the number a string of
    decimal digits denotes. *)
Definition is_digit (c : Ascii.ascii) : bool :=
  let n := Ascii.nat_of_ascii c in (48 <=? n)%nat && (n <=? 57)%nat.

Fixpoint digit_prefix (s : string) : string :=
  match s with
  | EmptyString => EmptyString
  | String c s' => if is_digit c then String c (digit_prefix s') else EmptyString
  end.

Definition digits_value (s : string) : option Z :=
  option_map Z.of_uint (NilEmpty.uint_of_string s).

(** An environment to run examples in.  The conversions know decimal
    digits only: a string of digits is the number it denotes, any other
    string is NaN for JavaScript and the number of its leading digits for
    SQLite. *)
Definition example_env : env :=
  mkenv "admin1234" (fun pw => "$2a$10$" ++ pw)%string
        (fun pw h => (h =? "$2a$10$" ++ pw)%string)
        (fun s => match digits_value s with
                  | Some z => finite (dbl z)
                  | None => NaN
                  end)
        (fun s => match digits_value (digit_prefix s) with
                  | Some z => sql_integer z
                  | None => sql_integer 0
                  end).

Definition alice : Player.row :=
  Player.mk "p-alice" "g1" "alice" "$2a$10$pw" (Some "t-alice") 10 false.
Definition bob : Player.row :=
  Player.mk "p-bob" "g1" "bob" "$2a$10$pw" (Some "t-bob") 0 false.

Definition hat : Cosmetic.row :=
  Cosmetic.mk "c-hat" "g1" "Hat" "head" None 4 "common".

Definition example_db : db := mkdb [alice; bob] [hat] [] [] [].

Definition carol : Player.row :=
  Player.mk "p-carol" "g1" "carol" "$2a$10$pw" (Some "t-carol") 30 false.
Definition dave : Player.row :=
  Player.mk "p-dave" "g1" "dave" "$2a$10$pw" (Some "t-dave") 20 false.
Definition erin : Player.row :=
  Player.mk "p-erin" "g1" "erin" "$2a$10$pw" (Some "t-erin") 99 true.

(** A balance beyond 2^53, and a cosmetic priced 1. *)
Definition whale : Player.row :=
  Player.mk "p-whale" "g1" "whale" "$2a$10$pw" (Some "t-whale")
            9007199254740994 false.

Definition pin : Cosmetic.row :=
  Cosmetic.mk "c-pin" "g1" "Pin" "badge" None 1 "common".

Definition whale_db : db := mkdb [whale] [pin] [] [] [].

(** Balances 10, 30 and 20 in game g1, and a banned player with 99. *)
Definition board_db : db := mkdb [alice; carol; dave; erin] [] [] [] [].

(** A small [JSON]: numbers and strings; only decimal integers parse. *)
Inductive jvalue :=
| jnum (z : Z)
| jstr (s : string).

Definition example_json : JSON jvalue :=
  mkJSON jvalue
    (fun v => match v with
              | jnum z => NilEmpty.string_of_int (Z.to_int z)
              | jstr s => String (Ascii.ascii_of_nat 34)
                                 (s ++ String (Ascii.ascii_of_nat 34) "")%string
              end)
    (fun s => match NilEmpty.int_of_string s with
              | Some i => Some (jnum (Z.of_int i))
              | None => None
              end)
    (fun v => match v with
              | jnum _ => None
              | jstr s => Some s
              end).

(** ** Proof automation *)

(** Case analysis on the scrutinee of the first [match] or [if] of the goal. *)
Ltac break_match :=
  match goal with
  | |- context [match ?x with _ => _ end] => destruct x eqn:?
  end.

(** Unfolds the route handlers, not the SQL statements they issue. *)
Ltac unfold_handlers :=
  unfold handle, post_register, post_login, get_me, get_credits,
    post_credits_spend, post_credits_add, get_inventory, post_inventory_add,
    post_inventory_remove, post_cosmetics_buy, post_cosmetics_equip,
    post_owner_credits_give, post_owner_credits_set, post_owner_ban,
    delete_owner_player, post_owner_cosmetics_create, delete_owner_cosmetics,
    post_owner_cosmetics_grant, post_owner_inventory_give, post_owner_bulk_ban,
    post_owner_bulk_credits, post_owner_bulk_delete, post_owner_reset_password,
    post_friends_request, post_friends_accept, get_friends.

(** Reduces projections of a state built by the setters. *)
Ltac db_simpl :=
  cbn [fst snd players cosmetics_catalog player_cosmetics inventory
       friend_relationships set_players set_cosmetics_catalog
       set_player_cosmetics set_inventory set_friend_relationships] in *.

(** Closes [NoDup] over a list of string literals, and [Forall] over a
    list of literal rows. *)
Ltac distinct_strings :=
  repeat constructor; simpl; intuition discriminate.

Ltac all_rows :=
  repeat constructor; unfold nonneg, positive; simpl; try lia.

(** ** Facts about doubles *)

Lemma dbl_small z : safe z -> dbl z = z.
Proof.
  unfold safe. intros H. unfold dbl. apply Z.leb_le in H. rewrite H.
  reflexivity.
Qed.

Lemma rne_between e a :
  0 <= e -> 0 <= a ->
  a / 2 ^ e * 2 ^ e <= rne e a <= (a / 2 ^ e + 1) * 2 ^ e.
Proof.
  intros He Ha. unfold rne.
  assert (Hm : 0 < 2 ^ e) by (apply Z.pow_pos_nonneg; lia).
  match goal with |- context [if ?c then _ else _] => destruct c end; nia.
Qed.

Lemma rne_mono e a b : 1 <= e -> 0 <= a <= b -> rne e a <= rne e b.
Proof.
  intros He [Ha Hab].
  assert (Hm : 0 < 2 ^ e) by (apply Z.pow_pos_nonneg; lia).
  assert (Hq : a / 2 ^ e <= b / 2 ^ e) by (apply Z.div_le_mono; lia).
  destruct (Z.eq_dec (a / 2 ^ e) (b / 2 ^ e)) as [Heq | Hne].
  - assert (Hr : a mod 2 ^ e <= b mod 2 ^ e).
    { rewrite !Z.mod_eq by lia. rewrite Heq. lia. }
    unfold rne. rewrite Heq.
    set (q := b / 2 ^ e) in *. set (h := 2 ^ (e - 1)).
    destruct ((a mod 2 ^ e <? h) || ((a mod 2 ^ e =? h) && Z.even q)) eqn:Ca.
    + match goal with |- context [if ?c then _ else _] => destruct c end; nia.
    + apply orb_false_iff in Ca. destruct Ca as [C1 C2].
      apply Z.ltb_ge in C1.
      replace ((b mod 2 ^ e <? h) || ((b mod 2 ^ e =? h) && Z.even q))
        with false; [lia |].
      symmetry. apply orb_false_iff. split.
      * apply Z.ltb_ge. lia.
      * destruct (b mod 2 ^ e =? h) eqn:Cb; [| reflexivity].
        apply Z.eqb_eq in Cb.
        assert (Hah : a mod 2 ^ e = h) by lia.
        rewrite Hah, Z.eqb_refl in C2. exact C2.
  - pose proof (rne_between e a ltac:(lia) Ha) as Ba.
    pose proof (rne_between e b ltac:(lia) ltac:(lia)) as Bb.
    nia.
Qed.

Lemma round_pos_bounds a :
  2 ^ 52 <= a ->
  2 ^ Z.log2 a <= round_pos a <= 2 ^ (Z.log2 a + 1).
Proof.
  intros Ha.
  assert (Hpos : 0 < a) by lia.
  pose proof (Z.log2_spec a Hpos) as [Hlo Hhi].
  assert (HL : 52 <= Z.log2 a).
  { change 52 with (Z.log2 (2 ^ 52)). apply Z.log2_le_mono. exact Ha. }
  unfold round_pos. set (e := Z.log2 a - 52).
  assert (He : 0 <= e) by lia.
  assert (Hm : 0 < 2 ^ e) by (apply Z.pow_pos_nonneg; lia).
  assert (H1 : 2 ^ Z.log2 a = 2 ^ 52 * 2 ^ e).
  { rewrite <- Z.pow_add_r by lia. f_equal. lia. }
  assert (H2 : 2 ^ (Z.log2 a + 1) = 2 ^ 53 * 2 ^ e).
  { rewrite <- Z.pow_add_r by lia. f_equal. lia. }
  replace (Z.succ (Z.log2 a)) with (Z.log2 a + 1) in Hhi by lia.
  assert (Hq1 : 2 ^ 52 <= a / 2 ^ e).
  { apply Z.div_le_lower_bound; lia. }
  assert (Hq2 : a / 2 ^ e < 2 ^ 53).
  { apply Z.div_lt_upper_bound; lia. }
  pose proof (rne_between e a He ltac:(lia)) as B.
  rewrite H1, H2. nia.
Qed.

Lemma round_pos_mono a b :
  2 ^ 53 < a -> a <= b -> round_pos a <= round_pos b.
Proof.
  intros Ha Hab.
  assert (HLa : 53 <= Z.log2 a).
  { change 53 with (Z.log2 (2 ^ 53)). apply Z.log2_le_mono. lia. }
  assert (HL : Z.log2 a <= Z.log2 b) by (apply Z.log2_le_mono; exact Hab).
  destruct (Z.eq_dec (Z.log2 a) (Z.log2 b)) as [Heq | Hne].
  - unfold round_pos. rewrite Heq. apply rne_mono; lia.
  - pose proof (round_pos_bounds a ltac:(lia)) as [_ Ba].
    pose proof (round_pos_bounds b ltac:(lia)) as [Bb _].
    assert (2 ^ (Z.log2 a + 1) <= 2 ^ Z.log2 b)
      by (apply Z.pow_le_mono_r; lia).
    lia.
Qed.

Lemma round_pos_large a : 2 ^ 53 < a -> 2 ^ 53 <= round_pos a.
Proof.
  intros Ha.
  assert (HLa : 53 <= Z.log2 a).
  { change 53 with (Z.log2 (2 ^ 53)). apply Z.log2_le_mono. lia. }
  pose proof (round_pos_bounds a ltac:(lia)) as [Ba _].
  assert (2 ^ 53 <= 2 ^ Z.log2 a) by (apply Z.pow_le_mono_r; lia).
  lia.
Qed.

Lemma dbl_mono a b : a <= b -> dbl a <= dbl b.
Proof.
  intros Hab. unfold dbl.
  destruct (Z.abs a <=? 2 ^ 53) eqn:Ca, (Z.abs b <=? 2 ^ 53) eqn:Cb;
    try apply Z.leb_le in Ca; try apply Z.leb_le in Cb;
    try apply Z.leb_gt in Ca; try apply Z.leb_gt in Cb.
  - exact Hab.
  - destruct (Z.abs_spec b) as [[Hb Eb] | [Hb Eb]]; rewrite Eb in *; [| lia].
    rewrite Z.sgn_pos by lia.
    pose proof (round_pos_large b Cb). lia.
  - destruct (Z.abs_spec a) as [[Ha Ea] | [Ha Ea]]; rewrite Ea in *; [lia |].
    rewrite Z.sgn_neg by lia.
    pose proof (round_pos_large (- a) Ca). lia.
  - destruct (Z.abs_spec a) as [[Ha Ea] | [Ha Ea]],
             (Z.abs_spec b) as [[Hb Eb] | [Hb Eb]]; rewrite Ea, Eb in *.
    + rewrite !Z.sgn_pos by lia.
      pose proof (round_pos_mono a b Ca Hab). lia.
    + lia.
    + rewrite Z.sgn_neg, Z.sgn_pos by lia.
      pose proof (round_pos_large (- a) Ca).
      pose proof (round_pos_large b Cb). lia.
    + rewrite !Z.sgn_neg by lia.
      pose proof (round_pos_mono (- b) (- a) Cb ltac:(lia)). lia.
Qed.

Lemma dbl_0 : dbl 0 = 0.
Proof. reflexivity. Qed.

Lemma dbl_nonneg z : 0 <= z -> 0 <= dbl z.
Proof. intros H. rewrite <- dbl_0. apply dbl_mono. exact H. Qed.

Lemma dbl_pos z : 0 < z -> 0 < dbl z.
Proof.
  intros H. assert (dbl 1 <= dbl z) by (apply dbl_mono; lia).
  change (dbl 1) with 1 in *. lia.
Qed.

Lemma dbl_neg z : z < 0 -> dbl z < 0.
Proof.
  intros H. assert (dbl z <= dbl (-1)) by (apply dbl_mono; lia).
  change (dbl (-1)) with (-1) in *. lia.
Qed.

Lemma dbl_eqb_0 z : z <> 0 -> (dbl z =? 0) = false.
Proof.
  intros H. apply Z.eqb_neq.
  destruct (Z.lt_total z 0) as [Hz | [Hz | Hz]];
    [pose proof (dbl_neg z Hz) | contradiction | pose proof (dbl_pos z Hz)];
    lia.
Qed.

(** ** Facts about the SQL statements *)

Section SqlFacts.
Context {row : Type}.
Implicit Types (t : list row) (w : row -> bool) (s : row -> row).

Lemma get_some w t r : Sql.get w t = Some r -> In r t /\ w r = true.
Proof. unfold Sql.get. apply find_some. Qed.

Lemma get_none w t r : Sql.get w t = None -> In r t -> w r = false.
Proof. unfold Sql.get. intros H. apply (find_none _ _ H). Qed.

Lemma get_is_some w t r : In r t -> w r = true -> Sql.get w t <> None.
Proof.
  intros Hin Hw Hn. rewrite (get_none _ _ _ Hn Hin) in Hw. discriminate.
Qed.

Lemma update_key {K} (k : row -> K) w s t :
  (forall r, k (s r) = k r) -> map k (Sql.update w s t) = map k t.
Proof.
  intros Hk. unfold Sql.update. rewrite map_map. apply map_ext.
  intros r. destruct (w r); auto.
Qed.

Lemma update_Forall (P : row -> Prop) w s t :
  Forall P t -> (forall r, In r t -> w r = true -> P (s r)) ->
  Forall P (Sql.update w s t).
Proof.
  intros HP Hs. unfold Sql.update. apply Forall_forall. intros x Hx.
  apply in_map_iff in Hx. destruct Hx as [r [<- Hr]].
  destruct (w r) eqn:Hw; [now apply Hs|].
  rewrite Forall_forall in HP. now apply HP.
Qed.

Lemma update_none w s t :
  (forall r, In r t -> w r = false) -> Sql.update w s t = t.
Proof.
  intros Hw. unfold Sql.update. rewrite <- (map_id t) at 2.
  apply map_ext_in. intros r Hr. now rewrite Hw.
Qed.

Lemma in_update w s t x :
  In x (Sql.update w s t) ->
  exists r, In r t /\ x = (if w r then s r else r).
Proof.
  unfold Sql.update. intros Hx. apply in_map_iff in Hx.
  destruct Hx as [r [<- Hr]]. now exists r.
Qed.

Lemma update_in w s t r :
  In r t -> In (if w r then s r else r) (Sql.update w s t).
Proof.
  intros Hr. unfold Sql.update. apply in_map_iff. now exists r.
Qed.

Lemma delete_Forall (P : row -> Prop) w t :
  Forall P t -> Forall P (Sql.delete w t).
Proof.
  intros HP. unfold Sql.delete. apply Forall_forall. intros x Hx.
  apply filter_In in Hx. rewrite Forall_forall in HP. now apply HP.
Qed.

Lemma in_delete w t x : In x (Sql.delete w t) <-> In x t /\ w x = false.
Proof.
  unfold Sql.delete. rewrite filter_In, negb_true_iff. reflexivity.
Qed.

Lemma delete_NoDup {K} (k : row -> K) w t :
  NoDup (map k t) -> NoDup (map k (Sql.delete w t)).
Proof.
  unfold Sql.delete. induction t as [|a t IH]; simpl; intros Hn; auto.
  inversion Hn as [|? ? Hnotin Hrest]; subst.
  destruct (negb (w a)); simpl; auto.
  constructor; auto. intros Hin. apply Hnotin.
  apply in_map_iff in Hin. destruct Hin as [r [Hk Hr]].
  apply filter_In in Hr. apply in_map_iff. exists r. tauto.
Qed.

Lemma insert_some c (r : row) t t' :
  Sql.insert c r t = Some t' ->
  t' = t ++ [r] /\ (forall x, In x t -> c r x = false).
Proof.
  unfold Sql.insert. destruct (existsb (c r) t) eqn:He; [discriminate|].
  intros [= <-]. split; auto. intros x Hx.
  destruct (c r x) eqn:Hc; auto.
  assert (existsb (c r) t = true) by (apply existsb_exists; eauto).
  congruence.
Qed.

Lemma insert_none c (r : row) t :
  Sql.insert c r t = None -> exists x, In x t /\ c r x = true.
Proof.
  unfold Sql.insert. destruct (existsb (c r) t) eqn:He; [|discriminate].
  intros _. now apply existsb_exists.
Qed.

Lemma existsb_get w t : existsb w t = true <-> Sql.get w t <> None.
Proof.
  unfold Sql.get. induction t as [|a t IH]; simpl.
  - split; [discriminate | congruence].
  - destruct (w a); simpl; [split; [discriminate | auto] | exact IH].
Qed.

Lemma unique_by_key {K} (k : row -> K) t a b :
  NoDup (map k t) -> In a t -> In b t -> k a = k b -> a = b.
Proof.
  induction t as [|x t IH]; simpl; [tauto|].
  intros Hn Ha Hb Hk. inversion Hn as [|? ? Hnotin Hrest]; subst.
  destruct Ha as [<-|Ha], Hb as [<-|Hb]; auto.
  - exfalso. apply Hnotin. rewrite Hk. now apply in_map.
  - exfalso. apply Hnotin. rewrite <- Hk. now apply in_map.
Qed.
End SqlFacts.

(** ** Authentication *)

Lemma requireAuth_inr st tok p :
  requireAuth st tok = inr p ->
  In p (players st) /\ Player.token p = Some tok /\ Player.banned p = false
  /\ tok <> "".
Proof.
  unfold requireAuth, getPlayer, falsy.
  destruct (tok =? "")%string eqn:Ht; [discriminate|].
  destruct (Sql.get (by_token tok) (players st)) as [q|] eqn:Hg; [|discriminate].
  destruct (Player.banned q) eqn:Hb; [discriminate|].
  intros [= <-]. apply get_some in Hg. destruct Hg as [Hin Hw].
  unfold by_token in Hw. destruct (Player.token q) as [t|]; [|discriminate].
  apply String.eqb_eq in Hw. apply String.eqb_neq in Ht. subst. auto.
Qed.

Lemma requireAuth_inl st tok r :
  requireAuth st tok = inl r -> exists code e, r = status_json code e.
Proof.
  unfold requireAuth. destruct (falsy tok); [intros [= <-]; eauto|].
  destruct (getPlayer st tok) as [q|]; [|intros [= <-]; eauto].
  destruct (Player.banned q); [intros [= <-]; eauto | discriminate].
Qed.

Lemma by_id_true i p : by_id i p = true <-> Player.id p = i.
Proof. unfold by_id. apply String.eqb_eq. Qed.

Lemma read_back_state st i k : fst (read_back st i k) = st.
Proof. unfold read_back. destruct (Sql.get _ _); reflexivity. Qed.

Lemma read_back_found st i k p :
  In p (players st) -> Player.id p = i ->
  exists c, balance st i = Some c
            /\ read_back st i k = (st, json (k (dbl c))).
Proof.
  intros Hin Hid. unfold read_back, balance.
  destruct (Sql.get (by_id i) (players st)) as [q|] eqn:Hg.
  - exists (Player.credits q). auto.
  - exfalso. apply (get_is_some (by_id i) (players st) p); auto.
    now apply by_id_true.
Qed.

(** ** Preservation of the primary key of [players] *)

Lemma update_ids w s (t : list Player.row) :
  (forall r, Player.id (s r) = Player.id r) ->
  map Player.id (Sql.update w s t) = map Player.id t.
Proof. apply update_key. Qed.

Lemma fold_update_ids (w : string -> Player.row -> bool) s ids t :
  (forall r, Player.id (s r) = Player.id r) ->
  map Player.id (fold_left (fun t i => Sql.update (w i) s t) ids t)
  = map Player.id t.
Proof.
  intros Hs. revert t. induction ids as [|i ids IH]; intros t; simpl; auto.
  rewrite IH. now apply update_ids.
Qed.

Lemma insert_player_ids r t t' :
  Sql.insert Player.conflict r t = Some t' ->
  NoDup (map Player.id t) -> NoDup (map Player.id t').
Proof.
  intros Hi Hn. apply insert_some in Hi. destruct Hi as [-> Hc].
  rewrite map_app. simpl. apply NoDup_app; auto.
  - constructor; [intros [] | constructor].
  - intros x Hx. intros [Hy|[]]. subst x. apply in_map_iff in Hx. destruct Hx as [q [Hq Hin]].
    specialize (Hc q Hin). unfold Player.conflict in Hc.
    apply orb_false_iff in Hc. destruct Hc as [Hc _].
    apply String.eqb_neq in Hc. congruence.
Qed.

Lemma players_delete_player st i :
  players (delete_player st i) = Sql.delete (by_id i) (players st).
Proof. reflexivity. Qed.

Lemma fold_delete_player_ids ids st :
  unique_player_ids st -> unique_player_ids (fold_left delete_player ids st).
Proof.
  revert st. induction ids as [|i ids IH]; intros st Hn; simpl; auto.
  apply IH. unfold unique_player_ids. rewrite players_delete_player.
  now apply delete_NoDup.
Qed.

Lemma handle_unique_ids E st c :
  unique_player_ids st -> unique_player_ids (fst (handle E st c)).
Proof.
  intros Hn. unfold_handlers. destruct (call_request c);
    repeat break_match; db_simpl; rewrite ?read_back_state; auto;
    unfold unique_player_ids in *; db_simpl;
    try (rewrite update_ids by (intros []; reflexivity); assumption);
    try (rewrite fold_update_ids by (intros []; reflexivity); assumption);
    try (apply delete_NoDup; assumption);
    try (eapply insert_player_ids; eassumption).
  apply (fold_delete_player_ids (_ :: _)); assumption.
Qed.

(** ** Preservation of non-negative balances *)

Lemma update_one_Forall (P : Player.row -> Prop) t player s :
  NoDup (map Player.id t) -> In player t -> P (s player) -> Forall P t ->
  Forall P (Sql.update (by_id (Player.id player)) s t).
Proof.
  intros Hn Hin Hp Hall. apply update_Forall; auto.
  intros r Hr Hw. apply by_id_true in Hw.
  now rewrite (unique_by_key Player.id t r player Hn Hr Hin Hw).
Qed.

Lemma update_one_ext t player s s' :
  NoDup (map Player.id t) -> In player t -> s player = s' player ->
  Sql.update (by_id (Player.id player)) s t
  = Sql.update (by_id (Player.id player)) s' t.
Proof.
  intros Hn Hin Hs. unfold Sql.update. apply map_ext_in. intros r Hr.
  destruct (by_id (Player.id player) r) eqn:Hw; [|reflexivity].
  apply by_id_true in Hw.
  now rewrite (unique_by_key Player.id t r player Hn Hr Hin Hw).
Qed.

(** What the guards of the credits routes leave to reach the statement,
    when the amount is not a string. *)
Lemma spend_guards E amount a c :
  not_text (Some amount) ->
  js_not amount || js_le (to_number E amount) (finite 0) = false ->
  js_lt (finite (dbl c)) (to_number E amount) = false ->
  bind E amount = Some a ->
  exists z, a = sql_real z /\ 0 < z <= dbl c.
Proof.
  destruct amount as [z|x|b|x]; simpl; intros Ht Hg Hl Hb;
    try contradiction; try discriminate.
  injection Hb as <-. exists (dbl z). split; [reflexivity|].
  apply orb_false_iff in Hg. destruct Hg as [_ Hg].
  apply Z.leb_gt in Hg. apply Z.ltb_ge in Hl. lia.
Qed.

Lemma add_guards E amount a :
  not_text (Some amount) ->
  js_not amount || js_le (to_number E amount) (finite 0) = false ->
  bind E amount = Some a ->
  exists z, a = sql_real z /\ 0 < z.
Proof.
  destruct amount as [z|x|b|x]; simpl; intros Ht Hg Hb;
    try contradiction; try discriminate.
  injection Hb as <-. exists (dbl z). split; [reflexivity|].
  apply orb_false_iff in Hg. destruct Hg as [_ Hg].
  apply Z.leb_gt in Hg. exact Hg.
Qed.

Lemma give_guards E amount a :
  not_text (Some amount) ->
  match amount with js_number z => 0 <= z | _ => True end ->
  bind E amount = Some a ->
  exists z, a = sql_real z /\ 0 <= z.
Proof.
  destruct amount as [z|x|b|x]; simpl; intros Ht Hz Hb;
    try contradiction; try discriminate.
  injection Hb as <-. exists (dbl z). split; [reflexivity|].
  now apply dbl_nonneg.
Qed.

Lemma credit_nonneg w t z :
  0 <= z -> Forall nonneg t ->
  Forall nonneg
    (Sql.update w
       (fun p => Player.with_credits (sql_add (Player.credits p) (sql_real z)) p)
       t).
Proof.
  intros Hz Hall. apply update_Forall; auto. intros r Hr _.
  rewrite Forall_forall in Hall. specialize (Hall r Hr).
  unfold nonneg in *. cbn. apply dbl_nonneg.
  pose proof (dbl_nonneg _ Hall). lia.
Qed.

Lemma set_nonneg w t a :
  0 <= a -> Forall nonneg t ->
  Forall nonneg (Sql.update w (Player.with_credits a) t).
Proof.
  intros Ha Hall. apply update_Forall; auto.
Qed.

Lemma keep_credits_nonneg w s t :
  (forall r, Player.credits (s r) = Player.credits r) ->
  Forall nonneg t -> Forall nonneg (Sql.update w s t).
Proof.
  intros Hs Hall. apply update_Forall; auto. intros r Hr _.
  rewrite Forall_forall in Hall. unfold nonneg. rewrite Hs. now apply Hall.
Qed.

Lemma fold_update_Forall (P : Player.row -> Prop)
      (w : string -> Player.row -> bool) s ids t :
  (forall r, P r -> P (s r)) -> Forall P t ->
  Forall P (fold_left (fun t i => Sql.update (w i) s t) ids t).
Proof.
  intros Hs. revert t. induction ids as [|i ids IH]; intros t Ht; simpl; auto.
  apply IH. apply update_Forall; auto. intros r Hr _. apply Hs.
  rewrite Forall_forall in Ht. now apply Ht.
Qed.

Lemma fold_delete_player_Forall (P : Player.row -> Prop) ids st :
  Forall P (players st) -> Forall P (players (fold_left delete_player ids st)).
Proof.
  revert st. induction ids as [|i ids IH]; intros st Hall; simpl; auto.
  apply IH. rewrite players_delete_player. now apply delete_Forall.
Qed.

Lemma insert_Forall {row} (P : row -> Prop) c r (t t' : list row) :
  Sql.insert c r t = Some t' -> P r -> Forall P t -> Forall P t'.
Proof.
  intros Hi Hr Hall. apply insert_some in Hi. destruct Hi as [-> _].
  apply Forall_app. split; auto.
Qed.

Lemma spend_balances_nonneg E st tok amount :
  unique_player_ids st -> balances_nonneg st -> not_text amount ->
  balances_nonneg (fst (post_credits_spend E st tok amount)).
Proof.
  unfold unique_player_ids, balances_nonneg. intros Hn Hall Htxt.
  unfold post_credits_spend.
  destruct (requireAuth st tok) as [r|player] eqn:Hauth; [exact Hall|].
  destruct amount as [amount|]; [|exact Hall].
  destruct (js_not amount || _)%bool eqn:Hg; [exact Hall|].
  destruct (js_lt _ _) eqn:Hl; [exact Hall|].
  destruct (bind E amount) as [a|] eqn:Hb; [|exact Hall].
  rewrite read_back_state. db_simpl.
  destruct (spend_guards E amount a _ Htxt Hg Hl Hb) as (z & -> & Hz).
  apply requireAuth_inr in Hauth. destruct Hauth as (Hin & _).
  apply update_one_Forall; auto.
  unfold nonneg. cbn. apply dbl_nonneg. lia.
Qed.

Lemma add_balances_nonneg E st tok amount :
  balances_nonneg st -> not_text amount ->
  balances_nonneg (fst (post_credits_add E st tok amount)).
Proof.
  unfold balances_nonneg. intros Hall Htxt. unfold post_credits_add.
  destruct (requireAuth st tok) as [r|player] eqn:Hauth; [exact Hall|].
  destruct amount as [amount|]; [|exact Hall].
  destruct (js_not amount || _)%bool eqn:Hg; [exact Hall|].
  destruct (bind E amount) as [a|] eqn:Hb; [|exact Hall].
  rewrite read_back_state. db_simpl.
  destruct (add_guards E amount a Htxt Hg Hb) as (z & -> & Hz).
  apply credit_nonneg; [lia | exact Hall].
Qed.

Lemma buy_balances_nonneg st tok cid :
  unique_player_ids st -> balances_nonneg st ->
  balances_nonneg (fst (post_cosmetics_buy st tok cid)).
Proof.
  unfold unique_player_ids, balances_nonneg. intros Hn Hall.
  unfold post_cosmetics_buy.
  destruct (requireAuth st tok) as [r|player] eqn:Hauth; [exact Hall|].
  destruct (falsy cid); [exact Hall|].
  destruct (Sql.get _ (cosmetics_catalog st)) as [cosmetic|]; [|exact Hall].
  destruct (Sql.get _ (player_cosmetics st)); [exact Hall|].
  destruct (dbl (Player.credits player) <? _) eqn:Hlt; [exact Hall|].
  apply Z.ltb_ge in Hlt.
  apply requireAuth_inr in Hauth. destruct Hauth as (Hin & _).
  assert (Hup : Forall nonneg
                  (Sql.update (by_id (Player.id player))
                     (fun p => Player.with_credits
                                 (sql_sub (Player.credits p)
                                    (sql_real (dbl (Cosmetic.price cosmetic)))) p)
                     (players st))).
  { apply update_one_Forall; auto. unfold nonneg. cbn. apply dbl_nonneg. lia. }
  db_simpl. destruct (Sql.insert _ _ _); rewrite ?read_back_state; exact Hup.
Qed.

Lemma give_balances_nonneg E st key player_id amount :
  balances_nonneg st -> not_text amount ->
  match amount with Some (js_number z) => 0 <= z | _ => True end ->
  balances_nonneg (fst (post_owner_credits_give E st key player_id amount)).
Proof.
  unfold balances_nonneg. intros Hall Htxt Hamt.
  unfold post_owner_credits_give.
  destruct (negb (requireOwner E key)); [exact Hall|].
  destruct amount as [amount|]; [|exact Hall].
  destruct (falsy player_id || js_not amount)%bool; [exact Hall|].
  destruct (bind E amount) as [a|] eqn:Hb; [|exact Hall].
  destruct (give_guards E amount a Htxt Hamt Hb) as (z & -> & Hz).
  cbv zeta. destruct (_ =? _)%nat; rewrite ?read_back_state; db_simpl;
    now apply credit_nonneg.
Qed.

Lemma bulk_balances_nonneg E st key ids amount :
  balances_nonneg st -> not_text amount ->
  match amount with Some (js_number z) => 0 <= z | _ => True end ->
  balances_nonneg (fst (post_owner_bulk_credits E st key ids amount)).
Proof.
  unfold balances_nonneg. intros Hall Htxt Hamt.
  unfold post_owner_bulk_credits.
  destruct (negb (requireOwner E key)); [exact Hall|].
  destruct ids as [|i ids]; [exact Hall|].
  destruct amount as [amount|]; [|exact Hall].
  destruct (js_not amount); [exact Hall|].
  destruct (bind E amount) as [a|] eqn:Hb; [|exact Hall].
  destruct (give_guards E amount a Htxt Hamt Hb) as (z & -> & Hz).
  db_simpl. apply fold_update_Forall; [|exact Hall].
  intros r Hr. unfold nonneg in *. cbn. apply dbl_nonneg.
  pose proof (dbl_nonneg _ Hr). lia.
Qed.

Lemma handle_balances_nonneg E st c :
  unique_player_ids st -> balances_nonneg st ->
  owner_amount_nonneg c -> amount_not_text c ->
  balances_nonneg (fst (handle E st c)).
Proof.
  intros Hn Hall Hamt Htxt. unfold handle.
  unfold owner_amount_nonneg in Hamt. unfold amount_not_text in Htxt.
  destruct (call_request c);
    try (apply spend_balances_nonneg; assumption);
    try (apply add_balances_nonneg; assumption);
    try (apply buy_balances_nonneg; assumption);
    try (apply give_balances_nonneg; assumption);
    try (apply bulk_balances_nonneg; assumption);
    unfold unique_player_ids, balances_nonneg in *; unfold_handlers;
    repeat break_match; db_simpl; rewrite ?read_back_state; auto; db_simpl;
    try (apply set_nonneg; assumption);
    try (apply keep_credits_nonneg; [intros []; reflexivity | assumption]);
    try (apply delete_Forall; assumption);
    try (eapply insert_Forall; [eassumption | unfold nonneg; simpl; lia
                                | assumption]);
    try (apply fold_update_Forall;
         [ intros r; unfold nonneg; simpl; lia | assumption ]).
  apply (fold_delete_player_Forall nonneg (_ :: _)); assumption.
Qed.

(** ** The read-back after a write, and the insert after the ownership check *)

Lemma get_update_by_id t player s :
  NoDup (map Player.id t) -> In player t ->
  (forall r, Player.id (s r) = Player.id r) ->
  Sql.get (by_id (Player.id player)) (Sql.update (by_id (Player.id player)) s t)
  = Some (s player).
Proof.
  intros Hn Hin Hs.
  destruct (Sql.get _ _) as [x|] eqn:Hg.
  - apply get_some in Hg. destruct Hg as [Hx Hw].
    apply in_update in Hx. destruct Hx as [r [Hr ->]].
    assert (Hid : Player.id r = Player.id player).
    { destruct (by_id (Player.id player) r) eqn:Hwr.
      - now apply by_id_true.
      - congruence. }
    rewrite (unique_by_key Player.id t r player Hn Hr Hin Hid) in *.
    assert (Hp : by_id (Player.id player) player = true) by now apply by_id_true.
    now rewrite Hp.
  - exfalso. pose proof (update_in (by_id (Player.id player)) s t player Hin) as Hu.
    assert (Hp : by_id (Player.id player) player = true) by now apply by_id_true.
    rewrite Hp in Hu.
    apply (get_is_some (by_id (Player.id player)) _ _ Hu); auto.
    apply by_id_true. apply Hs.
Qed.

Lemma read_back_update st player s k :
  unique_player_ids st -> In player (players st) ->
  (forall r, Player.id (s r) = Player.id r) ->
  read_back
    (set_players (Sql.update (by_id (Player.id player)) s (players st)) st)
    (Player.id player) k
  = (set_players (Sql.update (by_id (Player.id player)) s (players st)) st,
     json (k (dbl (Player.credits (s player))))).
Proof.
  intros Hn Hin Hs. unfold read_back. db_simpl.
  now rewrite get_update_by_id.
Qed.

Lemma owned_conflict_key pid cid e x :
  Owned.conflict (Owned.mk pid cid e) x = owned_key pid cid x.
Proof.
  unfold Owned.conflict, owned_key. simpl.
  now rewrite (String.eqb_sym pid), (String.eqb_sym cid).
Qed.

Lemma insert_after_check pid cid t :
  Sql.get (owned_key pid cid) t = None ->
  Sql.insert Owned.conflict (Owned.mk pid cid false) t
  = Some (t ++ [Owned.mk pid cid false]).
Proof.
  intros Hg. unfold Sql.insert.
  destruct (existsb _ t) eqn:He; auto.
  apply existsb_exists in He. destruct He as [x [Hx Hc]].
  rewrite owned_conflict_key in Hc.
  now rewrite (get_none _ _ x Hg Hx) in Hc.
Qed.

(** ** The three ledger routes, case by case *)

Lemma number_passes_guards E z :
  0 < z ->
  js_not (js_number z) || js_le (to_number E (js_number z)) (finite 0) = false.
Proof.
  intros Hz. pose proof (dbl_pos z Hz). cbn.
  apply orb_false_iff. split; [apply Z.eqb_neq | apply Z.leb_gt]; lia.
Qed.


(** An accepted spend, as the statement computes it. *)
Lemma spend_runs E st tok a player :
  unique_player_ids st -> requireAuth st tok = inr player ->
  0 < a -> dbl a <= dbl (Player.credits player) ->
  post_credits_spend E st tok (Some (js_number a))
  = (set_players
       (Sql.update (by_id (Player.id player))
          (fun p => Player.with_credits
                      (sql_sub (Player.credits p) (sql_real (dbl a))) p)
          (players st))
       st,
     json (success_credits
             (dbl (sql_sub (Player.credits player) (sql_real (dbl a)))))).
Proof.
  intros Hn Hauth H0 Hle. unfold post_credits_spend. rewrite Hauth.
  apply requireAuth_inr in Hauth. destruct Hauth as (Hin & _).
  rewrite number_passes_guards by assumption.
  replace (js_lt _ _) with false by (symmetry; cbn; apply Z.ltb_ge; lia).
  cbn [bind]. rewrite read_back_update; auto.
Qed.

(** An accepted spend between safe integers debits the amount exactly. *)
Lemma spend_accepted E st tok a player :
  unique_player_ids st -> requireAuth st tok = inr player ->
  0 < a -> a <= Player.credits player -> safe (Player.credits player) ->
  post_credits_spend E st tok (Some (js_number a))
  = (set_players
       (Sql.update (by_id (Player.id player))
          (fun p => Player.with_credits (Player.credits p - a) p) (players st))
       st,
     json (success_credits (Player.credits player - a))).
Proof.
  intros Hn Hauth H0 Hle Hs. unfold safe in Hs.
  assert (Ea : dbl a = a) by (apply dbl_small; unfold safe; lia).
  assert (Ec : dbl (Player.credits player) = Player.credits player)
    by (apply dbl_small; exact Hs).
  assert (Ed : dbl (Player.credits player - a) = Player.credits player - a)
    by (apply dbl_small; unfold safe; lia).
  rewrite (spend_runs E st tok a player) by (auto; lia).
  pose proof (requireAuth_inr _ _ _ Hauth) as (Hin & _).
  rewrite (update_one_ext (players st) player _
             (fun p => Player.with_credits (Player.credits p - a) p))
    by (auto; cbn; now rewrite Ea, Ec, Ed).
  cbn [sql_sub]. now rewrite Ea, Ec, !Ed.
Qed.

Lemma add_runs E st tok a player :
  unique_player_ids st -> requireAuth st tok = inr player -> 0 < a ->
  post_credits_add E st tok (Some (js_number a))
  = (set_players
       (Sql.update (by_id (Player.id player))
          (fun p => Player.with_credits
                      (sql_add (Player.credits p) (sql_real (dbl a))) p)
          (players st))
       st,
     json (success_credits
             (dbl (sql_add (Player.credits player) (sql_real (dbl a)))))).
Proof.
  intros Hn Hauth H0. unfold post_credits_add. rewrite Hauth.
  apply requireAuth_inr in Hauth. destruct Hauth as (Hin & _).
  rewrite number_passes_guards by assumption.
  cbn [bind]. rewrite read_back_update; auto.
Qed.

(** An accepted add between safe integers credits the amount exactly. *)
Lemma add_accepted E st tok a player :
  unique_player_ids st -> requireAuth st tok = inr player -> 0 < a ->
  safe a -> safe (Player.credits player) -> safe (Player.credits player + a) ->
  post_credits_add E st tok (Some (js_number a))
  = (set_players
       (Sql.update (by_id (Player.id player))
          (fun p => Player.with_credits (Player.credits p + a) p) (players st))
       st,
     json (success_credits (Player.credits player + a))).
Proof.
  intros Hn Hauth H0 Ha Hc Hs.
  rewrite (add_runs E st tok a player) by auto.
  pose proof (requireAuth_inr _ _ _ Hauth) as (Hin & _).
  rewrite (update_one_ext (players st) player _
             (fun p => Player.with_credits (Player.credits p + a) p))
    by (auto; cbn;
        now rewrite (dbl_small a Ha), (dbl_small _ Hc), (dbl_small _ Hs)).
  cbn [sql_add].
  now rewrite (dbl_small a Ha), (dbl_small _ Hc), !(dbl_small _ Hs).
Qed.

(** An accepted purchase, as the statement computes the debit. *)
Lemma buy_accepted st tok cid player cosmetic :
  unique_player_ids st -> requireAuth st tok = inr player -> cid <> "" ->
  Sql.get (fun c => (Cosmetic.id c =? cid)%string) (cosmetics_catalog st)
  = Some cosmetic ->
  Sql.get (owned_key (Player.id player) cid) (player_cosmetics st) = None ->
  Cosmetic.price cosmetic <= Player.credits player ->
  post_cosmetics_buy st tok cid
  = (set_player_cosmetics
       (player_cosmetics st ++ [Owned.mk (Player.id player) cid false])
       (set_players
          (Sql.update (by_id (Player.id player))
             (fun p => Player.with_credits
                         (sql_sub (Player.credits p)
                            (sql_real (dbl (Cosmetic.price cosmetic)))) p)
             (players st)) st),
     json (success_credits
             (dbl (sql_sub (Player.credits player)
                     (sql_real (dbl (Cosmetic.price cosmetic))))))).
Proof.
  intros Hn Hauth Hcid Hcat Hown Hle. unfold post_cosmetics_buy.
  rewrite Hauth, Hcat, Hown.
  apply requireAuth_inr in Hauth. destruct Hauth as (Hin & _).
  replace (falsy cid) with false
    by (symmetry; now apply String.eqb_neq).
  replace (dbl (Player.credits player) <? dbl (Cosmetic.price cosmetic))
    with false by (symmetry; apply Z.ltb_ge; now apply dbl_mono).
  db_simpl. rewrite insert_after_check by assumption.
  unfold read_back. db_simpl. rewrite get_update_by_id; auto.
Qed.

(** A purchase between safe integers debits the price exactly. *)
Lemma buy_accepted_safe st tok cid player cosmetic :
  unique_player_ids st -> requireAuth st tok = inr player -> cid <> "" ->
  Sql.get (fun c => (Cosmetic.id c =? cid)%string) (cosmetics_catalog st)
  = Some cosmetic ->
  Sql.get (owned_key (Player.id player) cid) (player_cosmetics st) = None ->
  Cosmetic.price cosmetic <= Player.credits player ->
  safe (Cosmetic.price cosmetic) -> safe (Player.credits player) ->
  safe (Player.credits player - Cosmetic.price cosmetic) ->
  post_cosmetics_buy st tok cid
  = (set_player_cosmetics
       (player_cosmetics st ++ [Owned.mk (Player.id player) cid false])
       (set_players
          (Sql.update (by_id (Player.id player))
             (fun p => Player.with_credits
                         (Player.credits p - Cosmetic.price cosmetic) p)
             (players st)) st),
     json (success_credits (Player.credits player - Cosmetic.price cosmetic))).
Proof.
  intros Hn Hauth Hcid Hcat Hown Hle Hp Hc Hd.
  rewrite (buy_accepted st tok cid player cosmetic) by assumption.
  pose proof (requireAuth_inr _ _ _ Hauth) as (Hin & _).
  rewrite (update_one_ext (players st) player _
             (fun p => Player.with_credits
                         (Player.credits p - Cosmetic.price cosmetic) p))
    by (auto; cbn;
        now rewrite (dbl_small _ Hp), (dbl_small _ Hc), (dbl_small _ Hd)).
  cbn [sql_sub].
  now rewrite (dbl_small _ Hp), (dbl_small _ Hc), !(dbl_small _ Hd).
Qed.

(** ** Runs *)

Lemma run_app E st cs1 cs2 : run E st (cs1 ++ cs2) = run E (run E st cs1) cs2.
Proof. unfold run. apply fold_left_app. Qed.

Lemma run_cons E st c cs : run E st (c :: cs) = run E (fst (handle E st c)) cs.
Proof. reflexivity. Qed.

Lemma run_balances_nonneg E cs : forall st,
  unique_player_ids st -> balances_nonneg st ->
  Forall owner_amount_nonneg cs -> Forall amount_not_text cs ->
  unique_player_ids (run E st cs) /\ balances_nonneg (run E st cs).
Proof.
  induction cs as [|c cs IH]; intros st Hn Hb Hcs Htx; [now split|].
  inversion Hcs as [|? ? Hc Hrest]; subst.
  inversion Htx as [|? ? Ht Hrest']; subst. rewrite run_cons.
  apply IH; auto using handle_unique_ids, handle_balances_nonneg.
Qed.

(** From the empty database on, both hold as long as no amount is a string
    and the owner passes no negative amount. *)
Lemma reachable_balances_nonneg E cs :
  Forall owner_amount_nonneg cs -> Forall amount_not_text cs ->
  unique_player_ids (run E empty_db cs) /\ balances_nonneg (run E empty_db cs).
Proof.
  intros Hcs Htx. apply run_balances_nonneg; auto; constructor.
Qed.


Lemma nth_error_Forall {A} (P : A -> Prop) n (l : list A) x :
  Forall P l -> nth_error l n = Some x -> P x.
Proof.
  intros H Hn. rewrite Forall_forall in H. apply H.
  eapply nth_error_In; eauto.
Qed.

(** ** The balance invariant *)

(** C3 does not hold of the code.  Bob's balance is 0 and he spends the
    amount ["5abc"], a string: it is not falsy, ToNumber of it is NaN, so
    neither [amount <= 0] nor [credits < amount] holds and both guards let
    it through; SQLite computes [credits - '5abc'] as 0 - 5.  The call, one
    of the three ledger calls, is answered with success and leaves the
    stored balance at -5. *)
Theorem spend_text_amount_overdraws :
  let c := mkcall (CreditsSpend "t-bob" (Some (js_string "5abc"))) "" "" in
  unique_player_ids example_db /\ balances_nonneg example_db /\
  ledger_call c /\
  handle example_env example_db c
  = (set_players [alice; Player.with_credits (-5) bob] example_db,
     json (success_credits (-5))) /\
  balance (fst (handle example_env example_db c)) "p-bob" = Some (-5) /\
  ~ balances_nonneg (run example_env example_db [c]).
Proof.
  split; [unfold unique_player_ids; distinct_strings|].
  split; [unfold balances_nonneg; all_rows|].
  split; [exact I|].
  split; [reflexivity|].
  split; [reflexivity|].
  intros H. unfold balances_nonneg in H. cbn in H.
  inversion H as [|? ? _ Hrest]; subst.
  inversion Hrest as [|? ? Hneg _]; subst.
  unfold nonneg in Hneg. cbn in Hneg. lia.
Qed.





(** ** Buying a cosmetic *)

Lemma get_update_commute {row} (w' w : row -> bool) s t :
  (forall r, w' (s r) = w' r) ->
  Sql.get w' (Sql.update w s t)
  = option_map (fun r => if w r then s r else r) (Sql.get w' t).
Proof.
  intros Hs. unfold Sql.get, Sql.update.
  induction t as [|a t IH]; simpl; auto.
  destruct (w a) eqn:Hw.
  - rewrite Hs. destruct (w' a); simpl; [now rewrite Hw | exact IH].
  - destruct (w' a); simpl; [now rewrite Hw | exact IH].
Qed.

Lemma requireAuth_after_update st st' tok player w s :
  requireAuth st tok = inr player ->
  players st' = Sql.update w s (players st) ->
  (forall r, Player.token (s r) = Player.token r) ->
  (forall r, Player.banned (s r) = Player.banned r) ->
  requireAuth st' tok = inr (if w player then s player else player).
Proof.
  unfold requireAuth, getPlayer. intros Hauth Hp Ht Hb.
  destruct (falsy tok); [discriminate|].
  rewrite Hp, get_update_commute
    by (intros r; unfold by_token; now rewrite Ht).
  destruct (Sql.get (by_token tok) (players st)) as [q|]; [|discriminate].
  simpl. destruct (Player.banned q) eqn:Hq; [discriminate|].
  injection Hauth as <-.
  destruct (w q); [rewrite Hb|]; now rewrite Hq.
Qed.

Lemma not_in_catalog st cid :
  ~ in_catalog st cid ->
  Sql.get (fun c => (Cosmetic.id c =? cid)%string) (cosmetics_catalog st) = None.
Proof.
  intros Hno. destruct (Sql.get _ _) as [c|] eqn:Hg; auto.
  exfalso. apply Hno. apply get_some in Hg. destruct Hg as [Hin Hw].
  exists c. split; auto. now apply String.eqb_eq.
Qed.

Lemma owns_get st pid cid :
  owns st pid cid <->
  Sql.get (owned_key pid cid) (player_cosmetics st) <> None.
Proof.
  unfold owns, owned_key. split.
  - intros (r & Hin & Hp & Hc).
    apply (get_is_some _ _ r Hin).
    apply andb_true_iff. split; now apply String.eqb_eq.
  - destruct (Sql.get _ _) as [r|] eqn:Hg; [|congruence]. intros _.
    apply get_some in Hg. destruct Hg as [Hin Hw].
    apply andb_true_iff in Hw. destruct Hw as [Hp Hc].
    apply String.eqb_eq in Hp, Hc. eauto.
Qed.

Lemma not_owns_get st pid cid :
  ~ owns st pid cid ->
  Sql.get (owned_key pid cid) (player_cosmetics st) = None.
Proof.
  intros Hno. destruct (Sql.get _ _) eqn:Hg; auto.
  exfalso. apply Hno. apply owns_get. congruence.
Qed.

(** C2 does not hold as worded: beyond 2^53 the debit is not the price.
    The balance is 9007199254740994 and the cosmetic costs 1; the purchase
    succeeds, and the balance it stores and answers is 9007199254740992:
    the subtraction runs on doubles, and 9007199254740993 is not one. *)
Lemma buy_beyond_2_53_misses_the_price :
  let c := mkcall (CosmeticsBuy "t-whale" "c-pin") "" "" in
  requireAuth whale_db "t-whale" = inr whale /\
  catalog_price whale_db "c-pin" = Some 1 /\
  ~ owns whale_db "p-whale" "c-pin" /\
  balance whale_db "p-whale" = Some 9007199254740994 /\
  snd (handle example_env whale_db c) = json (success_credits 9007199254740992) /\
  balance (fst (handle example_env whale_db c)) "p-whale"
  = Some 9007199254740992 /\
  9007199254740992 <> 9007199254740994 - 1.
Proof.
  cbv zeta. repeat split; try reflexivity.
  - intros (r & [] & _).
  - lia.
Qed.

(** A stored balance that is not a double is read as the nearest one.
    9007199254740995 is read as 9007199254740996, so a cosmetic at that
    price, one more than the stored balance, is sold. *)
Lemma buy_beyond_2_53_accepts_a_higher_price :
  let st := set_cosmetics_catalog
              [Cosmetic.mk "c-pin" "g1" "Pin" "badge" None 9007199254740996
                           "common"]
              (set_players [Player.with_credits 9007199254740995 whale]
                           whale_db) in
  snd (handle example_env st (mkcall (CosmeticsBuy "t-whale" "c-pin") "" ""))
  = json (success_credits 0).
Proof. reflexivity. Qed.

(** C2, for values of at most 2^53 in magnitude.  For an authenticated
    player and a cosmetic id that is present in the request,
    [/cosmetics/buy] answers 404 "Cosmetic not found" when the catalog has
    no such id, 409 "Already owned" when the catalog has it and the player
    owns it, 400 "Not enough credits" when the player does not own it and
    its price exceeds the balance, both at most 2^53 in magnitude; in all
    three cases the state, and with it the balance, is unchanged.  When
    none of the three applies and balance, price and their difference are
    at most 2^53 in magnitude, the call succeeds and debits the price, and
    the same call issued again is answered 409 and changes nothing: the
    price is debited once. *)
Theorem buy_cosmetic_failures_and_repeat E st tok cid u1 u2 player :
  requireAuth st tok = inr player -> cid <> "" ->
  let c := mkcall (CosmeticsBuy tok cid) u1 u2 in
  (~ in_catalog st cid ->
   handle E st c = (st, status_json 404 "Cosmetic not found")) /\
  (in_catalog st cid -> owns st (Player.id player) cid ->
   handle E st c = (st, status_json 409 "Already owned")) /\
  (forall price,
      catalog_price st cid = Some price -> ~ owns st (Player.id player) cid ->
      safe (Player.credits player) -> safe price ->
      Player.credits player < price ->
      handle E st c = (st, status_json 400 "Not enough credits")) /\
  (forall price,
      unique_player_ids st ->
      catalog_price st cid = Some price -> ~ owns st (Player.id player) cid ->
      safe (Player.credits player) -> safe price ->
      safe (Player.credits player - price) ->
      price <= Player.credits player ->
      let st1 := fst (handle E st c) in
      snd (handle E st c) = json (success_credits (Player.credits player - price))
      /\ balance st1 (Player.id player) = Some (Player.credits player - price)
      /\ handle E st1 c = (st1, status_json 409 "Already owned")).
Proof.
  intros Hauth Hcid c.
  assert (Hf : falsy cid = false) by now apply String.eqb_neq.
  unfold handle, c. cbn [call_request call_uuid1 call_uuid2].
  split; [|split; [|split]].
  - intros Hno. unfold post_cosmetics_buy.
    now rewrite Hauth, Hf, (not_in_catalog _ _ Hno).
  - intros (cos & Hin & Hc) Hown. unfold post_cosmetics_buy.
    rewrite Hauth, Hf.
    destruct (Sql.get _ (cosmetics_catalog st)) eqn:Hg.
    + apply owns_get in Hown. destruct (Sql.get _ (player_cosmetics st));
        [reflexivity | congruence].
    + exfalso. apply (get_is_some _ _ cos Hin) in Hg; auto.
      now apply String.eqb_eq.
  - intros price Hprice Hnot Hsc Hsp Hlt.
    unfold post_cosmetics_buy, catalog_price in *.
    rewrite Hauth, Hf.
    destruct (Sql.get _ (cosmetics_catalog st)) as [cosmetic|]; [|discriminate].
    injection Hprice as <-. rewrite (not_owns_get _ _ _ Hnot).
    rewrite (dbl_small _ Hsc), (dbl_small _ Hsp).
    replace (Player.credits player <? Cosmetic.price cosmetic) with true
      by (symmetry; apply Z.ltb_lt; lia).
    reflexivity.
  - intros price Hn Hprice Hnot Hsc Hsp Hsd Hle. unfold catalog_price in Hprice.
    destruct (Sql.get _ (cosmetics_catalog st)) as [cosmetic|] eqn:Hcat;
      [|discriminate].
    injection Hprice as <-.
    rewrite (buy_accepted_safe st tok cid player cosmetic Hn Hauth Hcid Hcat
               (not_owns_get _ _ _ Hnot) Hle Hsp Hsc Hsd).
    cbn [fst snd]. split; [reflexivity|].
    pose proof (requireAuth_inr _ _ _ Hauth) as (Hin & _).
    split.
    + unfold balance. db_simpl. rewrite get_update_by_id; auto.
    + unfold post_cosmetics_buy.
      erewrite requireAuth_after_update;
        [ | exact Hauth | reflexivity | intros []; reflexivity
          | intros []; reflexivity ].
      assert (Hp : by_id (Player.id player) player = true)
        by now apply by_id_true.
      rewrite Hp, Hf. db_simpl. rewrite Hcat.
      cbn [Player.with_credits Player.id].
      destruct (Sql.get (owned_key (Player.id player) cid)
                  (player_cosmetics st ++ [Owned.mk (Player.id player) cid false]))
        eqn:Hg; [reflexivity|].
      exfalso.
      apply (get_is_some (owned_key (Player.id player) cid)
               (player_cosmetics st ++ [Owned.mk (Player.id player) cid false])
               (Owned.mk (Player.id player) cid false)); auto.
      * apply in_or_app. right. now left.
      * unfold owned_key. cbn. now rewrite !String.eqb_refl.
Qed.

Lemma buy_cosmetic_failures_and_repeat_witness :
  let c := mkcall (CosmeticsBuy "t-alice" "c-hat") "" "" in
  let st1 := fst (handle example_env example_db c) in
  snd (handle example_env example_db c) = json (success_credits (10 - 4))
  /\ balance st1 "p-alice" = Some (10 - 4)
  /\ handle example_env st1 c = (st1, status_json 409 "Already owned").
Proof.
  assert (Hauth : requireAuth example_db "t-alice" = inr alice) by reflexivity.
  assert (Hcid : "c-hat" <> "") by discriminate.
  refine (proj2 (proj2 (proj2
            (buy_cosmetic_failures_and_repeat example_env example_db
               "t-alice" "c-hat" "" "" alice Hauth Hcid))) 4 _ _ _ _ _ _ _).
  - unfold unique_player_ids. distinct_strings.
  - reflexivity.
  - intros (r & Hin & _). inversion Hin.
  - unfold safe. simpl. lia.
  - unfold safe. simpl. lia.
  - unfold safe. simpl. lia.
  - simpl. lia.
Defined.

(** ** Registration *)

Lemma insert_conflicting {row} c (r x : row) t :
  In x t -> c r x = true -> Sql.insert c r t = None.
Proof.
  intros Hin Hc. unfold Sql.insert.
  replace (existsb (c r) t) with true; auto.
  symmetry. apply existsb_exists. eauto.
Qed.

Lemma insert_free {row} c (r : row) t :
  (forall x, In x t -> c r x = false) -> Sql.insert c r t = Some (t ++ [r]).
Proof.
  intros Hc. unfold Sql.insert.
  destruct (existsb (c r) t) eqn:He; auto.
  apply existsb_exists in He. destruct He as [x [Hx Hcx]].
  rewrite (Hc x Hx) in Hcx. discriminate.
Qed.

Lemma get_appended {row} (w : row -> bool) t r :
  (forall x, In x t -> w x = false) -> w r = true ->
  Sql.get w (t ++ [r]) = Some r.
Proof.
  unfold Sql.get. induction t as [|a t IH]; simpl; intros Hno Hr.
  - now rewrite Hr.
  - rewrite (Hno a) by auto. apply IH; auto.
Qed.

(** C5. When a player with game id [g] and username [u] exists, a
    registration under [(g, u)] (all three fields present) is answered 409
    and leaves the state unchanged; a registration of the same username
    under another game id [g'] that has no such player, with an id that is
    not in use, succeeds and appends a player whose balance is 0. *)
Theorem register_unique_per_game E st g u pw u1 u2 p :
  In p (players st) -> Player.game_id p = g -> Player.username p = u ->
  g <> "" -> u <> "" -> pw <> "" ->
  handle E st (mkcall (Register g u pw) u1 u2)
  = (st, status_json 409 "Username already taken in this game")
  /\
  forall g' pw' i t,
    g' <> g -> g' <> "" -> pw' <> "" ->
    (forall q, In q (players st) ->
               ~ (Player.game_id q = g' /\ Player.username q = u)) ->
    (forall q, In q (players st) -> Player.id q <> i) ->
    let st' := fst (handle E st (mkcall (Register g' u pw') i t)) in
    handle E st (mkcall (Register g' u pw') i t)
    = (set_players
         (players st ++ [Player.mk i g' u (hashSync E pw') (Some t) 0 false]) st,
       json (success_register i t u 0))
    /\ balance st' i = Some 0.
Proof.
  intros Hin Hg Hu Hg0 Hu0 Hpw0.
  assert (Hfu : falsy u = false) by now apply String.eqb_neq.
  split.
  - unfold handle. cbn [call_request call_uuid1 call_uuid2].
    unfold post_register.
    replace (falsy g) with false by (symmetry; now apply String.eqb_neq).
    replace (falsy pw) with false by (symmetry; now apply String.eqb_neq).
    rewrite Hfu. cbn [orb].
    rewrite (insert_conflicting Player.conflict _ p); auto.
    unfold Player.conflict. cbn. subst g u.
    rewrite !String.eqb_refl. apply orb_true_r.
  - intros g' pw' i t Hne Hg'0 Hpw'0 Hfree Hid st'.
    assert (Heq :
      handle E st (mkcall (Register g' u pw') i t)
      = (set_players
           (players st ++ [Player.mk i g' u (hashSync E pw') (Some t) 0 false])
           st,
         json (success_register i t u 0))).
    { unfold handle. cbn [call_request call_uuid1 call_uuid2].
      unfold post_register.
      replace (falsy g') with false by (symmetry; now apply String.eqb_neq).
      replace (falsy pw') with false by (symmetry; now apply String.eqb_neq).
      rewrite Hfu. cbn [orb].
      rewrite insert_free; auto.
      intros x Hx. unfold Player.conflict. cbn.
      apply orb_false_iff. split.
      - apply String.eqb_neq. intros Heq. now apply (Hid x Hx).
      - apply andb_false_iff.
        destruct (String.eqb_spec g' (Player.game_id x)) as [Hgx|]; auto.
        right. apply String.eqb_neq. intros Hux.
        apply (Hfree x Hx). split; congruence. }
    split; [exact Heq|].
    unfold st'. rewrite Heq. unfold balance. db_simpl.
    rewrite get_appended; auto.
    + intros x Hx. unfold by_id. apply String.eqb_neq. now apply Hid.
    + unfold by_id. cbn. apply String.eqb_refl.
Qed.

Lemma register_unique_per_game_witness :
  handle example_env example_db (mkcall (Register "g1" "alice" "pw2") "i" "t")
  = (example_db, status_json 409 "Username already taken in this game")
  /\
  handle example_env example_db (mkcall (Register "g2" "alice" "pw") "i" "t")
  = (set_players
       (players example_db
        ++ [Player.mk "i" "g2" "alice" (hashSync example_env "pw") (Some "t")
                      0 false]) example_db,
     json (success_register "i" "t" "alice" 0)).
Proof.
  assert (Hin : In alice (players example_db)) by (simpl; auto).
  assert (H1 : "g1" <> "") by discriminate.
  assert (H2 : "alice" <> "") by discriminate.
  assert (H3 : "pw2" <> "") by discriminate.
  destruct (register_unique_per_game example_env example_db "g1" "alice" "pw2"
              "i" "t" alice Hin eq_refl eq_refl H1 H2 H3) as [Hconflict Hother].
  split; [exact Hconflict|].
  refine (proj1 (Hother "g2" "pw" "i" "t" _ _ _ _ _)); try discriminate.
  - intros q [<-|[<-|[]]] [Hg _]; discriminate.
  - intros q [<-|[<-|[]]]; discriminate.
Defined.

(** ** Inventory *)

Lemma item_conflict_key pid n q m x :
  Item.conflict (Item.mk pid n q m) x = item_key pid n x.
Proof.
  unfold Item.conflict, item_key. simpl.
  now rewrite (String.eqb_sym pid), (String.eqb_sym n).
Qed.

Lemma item_key_true pid n r : item_key pid n r = true <-> item_pk r = (pid, n).
Proof.
  unfold item_key, item_pk. rewrite andb_true_iff, !String.eqb_eq.
  split; [intros [-> ->]; reflexivity | intros [= -> ->]; auto].
Qed.

Lemma item_key_false pid n r : item_key pid n r = false <-> item_pk r <> (pid, n).
Proof.
  rewrite <- item_key_true. destruct (item_key pid n r); split; congruence.
Qed.

Lemma existsb_item_conflict pid n q m t :
  existsb (Item.conflict (Item.mk pid n q m)) t = existsb (item_key pid n) t.
Proof.
  induction t as [|a t IH]; simpl; auto.
  now rewrite item_conflict_key, IH.
Qed.

Lemma add_item_keys pid n q m t :
  NoDup (map item_pk t) ->
  NoDup (map item_pk
           (Sql.insert_on_conflict_update Item.conflict add_quantity
              (Item.mk pid n q m) t)).
Proof.
  intros Hn. unfold Sql.insert_on_conflict_update.
  rewrite existsb_item_conflict.
  destruct (existsb (item_key pid n) t) eqn:He.
  - rewrite (update_key item_pk) by (intros; reflexivity). exact Hn.
  - rewrite map_app. simpl. apply NoDup_app; auto.
    + constructor; [intros [] | constructor].
    + intros k Hk [<-|[]]. apply in_map_iff in Hk. destruct Hk as [x [Hx Hin]].
      assert (Ht : existsb (item_key pid n) t = true).
      { apply existsb_exists. exists x. split; auto.
        apply item_key_true. exact Hx. }
      congruence.
Qed.






Lemma inventory_delete_player st i :
  inventory (delete_player st i)
  = Sql.delete (fun r => (Item.player_id r =? i)%string) (inventory st).
Proof. reflexivity. Qed.

Lemma fold_delete_player_item_keys ids : forall st,
  unique_item_keys st -> unique_item_keys (fold_left delete_player ids st).
Proof.
  induction ids as [|i ids IH]; intros st Hn; simpl; auto.
  apply IH. unfold unique_item_keys. rewrite inventory_delete_player.
  now apply delete_NoDup.
Qed.

(** The PRIMARY KEY of [inventory] holds after every call of the API. *)
Lemma handle_unique_item_keys E st c :
  unique_item_keys st -> unique_item_keys (fst (handle E st c)).
Proof.
  intros Hn. unfold_handlers. destruct (call_request c);
    repeat break_match; db_simpl; rewrite ?read_back_state; auto;
    unfold unique_item_keys in *; db_simpl;
    try (apply add_item_keys; assumption);
    try (apply delete_NoDup; assumption);
    try (rewrite (update_key item_pk) by (intros; reflexivity); assumption).
  apply (fold_delete_player_item_keys (_ :: _)); assumption.
Qed.


(** A quantity that is a string can leave a negative row: the stored
    quantity is 3 and ["5abc"] is removed; ToNumber of it is NaN, so
    [item.quantity <= quantity] is false, and SQLite computes
    [quantity - '5abc'] as 3 - 5. *)
Lemma remove_text_quantity_stores_negative :
  let st := set_inventory [Item.mk "p-alice" "sword" 3 None] example_db in
  handle example_env st
    (mkcall (InventoryRemove "t-alice" "sword" (Some (js_string "5abc"))) "" "")
  = (set_inventory [Item.mk "p-alice" "sword" (-2) None] example_db,
     json success).
Proof. reflexivity. Qed.



Lemma delete_appended {row} (w : row -> bool) t r :
  (forall x, In x t -> w x = false) -> w r = true ->
  Sql.delete w (t ++ [r]) = t.
Proof.
  intros Hno Hr. unfold Sql.delete. rewrite filter_app. simpl.
  rewrite Hr. simpl. rewrite app_nil_r.
  induction t as [|a t IH]; simpl; auto.
  rewrite (Hno a) by (simpl; auto). simpl. f_equal. apply IH.
  intros x Hx. apply Hno. simpl. auto.
Qed.

Lemma requireAuth_same_players st st' tok :
  players st' = players st -> requireAuth st' tok = requireAuth st tok.
Proof. unfold requireAuth, getPlayer. now intros ->. Qed.

(** C8. When the authenticated player already has a row for the item, a
    later [/inventory/add] of that item succeeds, adds its quantity (1 when
    left out) to the stored one, creates no row, and leaves the stored
    metadata as it was, whatever metadata the call carries. *)
Theorem add_item_keeps_metadata E st tok n q m u1 u2 player old :
  requireAuth st tok = inr player -> n <> "" ->
  stack st (Player.id player) n = Some old ->
  let st' := fst (handle E st (mkcall (InventoryAdd tok n q m) u1 u2)) in
  let added := match q with Some z => z | None => 1 end in
  snd (handle E st (mkcall (InventoryAdd tok n q m) u1 u2)) = json success
  /\ stack st' (Player.id player) n
     = Some (Item.mk (Item.player_id old) (Item.item_name old)
                     (Item.quantity old + added) (Item.metadata old))
  /\ List.length (inventory st') = List.length (inventory st).
Proof.
  intros Hauth Hn Hold st' added. unfold st', handle.
  cbn [call_request]. unfold post_inventory_add, stack in *.
  rewrite Hauth.
  replace (falsy n) with false by (symmetry; now apply String.eqb_neq).
  db_simpl. split; [reflexivity|].
  unfold Sql.insert_on_conflict_update. rewrite existsb_item_conflict.
  assert (He : existsb (item_key (Player.id player) n) (inventory st) = true)
    by (apply existsb_get; congruence).
  rewrite He. split.
  - rewrite get_update_commute by (intros []; reflexivity).
    rewrite Hold. cbn [option_map]. rewrite item_conflict_key.
    apply get_some in Hold. destruct Hold as [_ ->]. reflexivity.
  - unfold Sql.update. apply length_map.
Qed.

Lemma add_item_keeps_metadata_witness :
  let st := set_inventory [Item.mk "p-alice" "sword" 2 (Some "{rare}")] example_db in
  stack (fst (handle example_env st
                (mkcall (InventoryAdd "t-alice" "sword" (Some 3) (Some "{dull}"))
                        "" "")))
        "p-alice" "sword"
  = Some (Item.mk "p-alice" "sword" (2 + 3) (Some "{rare}")).
Proof.
  intros st.
  assert (Hauth : requireAuth st "t-alice" = inr alice) by reflexivity.
  assert (Hn : "sword" <> "") by discriminate.
  assert (Hold : stack st (Player.id alice) "sword"
                 = Some (Item.mk "p-alice" "sword" 2 (Some "{rare}")))
    by reflexivity.
  exact (proj1 (proj2
           (add_item_keeps_metadata example_env st "t-alice" "sword" (Some 3)
              (Some "{dull}") "" "" alice _ Hauth Hn Hold))).
Defined.

(** C9. For an authenticated player with no row for "sword", adding 3
    "sword" and then removing 3 "sword" both succeed and leave no row for
    "sword" under the player; the state is the one before the two calls. *)
Theorem add_then_remove_sword E st tok m u1 u2 u3 u4 player :
  requireAuth st tok = inr player ->
  stack st (Player.id player) "sword" = None ->
  let add := mkcall (InventoryAdd tok "sword" (Some 3) m) u1 u2 in
  let remove := mkcall (InventoryRemove tok "sword" (Some (js_number 3))) u3 u4 in
  snd (handle E st add) = json success
  /\ snd (handle E (fst (handle E st add)) remove) = json success
  /\ stack (run E st [add; remove]) (Player.id player) "sword" = None
  /\ run E st [add; remove] = st.
Proof.
  intros Hauth Hnone add remove.
  assert (Hadd : handle E st add
                 = (set_inventory
                      (inventory st
                       ++ [Item.mk (Player.id player) "sword" 3 m]) st,
                    json success)).
  { unfold handle, add. cbn [call_request]. unfold post_inventory_add.
    rewrite Hauth. cbn [falsy String.eqb Ascii.eqb Bool.eqb].
    unfold Sql.insert_on_conflict_update. rewrite existsb_item_conflict.
    destruct (existsb _ (inventory st)) eqn:He; [|reflexivity].
    apply existsb_get in He. unfold stack in Hnone. congruence. }
  assert (Hkey : item_key (Player.id player) "sword"
                   (Item.mk (Player.id player) "sword" 3 m) = true).
  { unfold item_key. cbn. now rewrite String.eqb_refl. }
  assert (Hrem : handle E (fst (handle E st add)) remove = (st, json success)).
  { rewrite Hadd. cbn [fst]. unfold handle, remove. cbn [call_request].
    unfold post_inventory_remove.
    rewrite (requireAuth_same_players st) by reflexivity. rewrite Hauth.
    cbn [falsy String.eqb Ascii.eqb Bool.eqb]. db_simpl.
    rewrite get_appended;
      [ | intros x Hx; exact (get_none _ _ x Hnone Hx) | exact Hkey ].
    replace (js_le _ _) with true by reflexivity.
    rewrite delete_appended;
      [ | intros x Hx; exact (get_none _ _ x Hnone Hx) | exact Hkey ].
    destruct st; reflexivity. }
  split; [now rewrite Hadd|]. split; [now rewrite Hrem|].
  assert (Hrun : run E st [add; remove] = st).
  { unfold run. cbn [fold_left]. now rewrite Hrem. }
  rewrite Hrun. auto.
Qed.

Lemma add_then_remove_sword_witness :
  run example_env example_db
    [ mkcall (InventoryAdd "t-bob" "sword" (Some 3) None) "" "";
      mkcall (InventoryRemove "t-bob" "sword" (Some (js_number 3))) "" "" ]
  = example_db.
Proof.
  assert (Hauth : requireAuth example_db "t-bob" = inr bob) by reflexivity.
  assert (Hnone : stack example_db (Player.id bob) "sword" = None)
    by reflexivity.
  exact (proj2 (proj2 (proj2
           (add_then_remove_sword example_env example_db "t-bob" None
              "" "" "" "" bob Hauth Hnone)))).
Defined.

(** ** Friends *)

Lemma status_eqb_accepted s :
  Friend.status_eqb s Friend.accepted = true <-> s = Friend.accepted.
Proof. destruct s; simpl; split; congruence. Qed.

Lemma listed_friend_iff st pid f :
  listed_friend st pid f <-> accepted_edge st pid f /\ is_player st f.
Proof.
  unfold listed_friend, friends_of, accepted_edge, is_player, Sql.all.
  rewrite in_map_iff. split.
  - intros (x & Hx & Hin). apply in_flat_map in Hin.
    destruct Hin as (fr & Hfr & Hrow).
    apply filter_In in Hfr. destruct Hfr as [Hfr Hw].
    apply andb_true_iff in Hw. destruct Hw as [Hp Hs].
    apply String.eqb_eq in Hp. apply status_eqb_accepted in Hs.
    apply in_map_iff in Hrow. destruct Hrow as (p & <- & Hp').
    apply filter_In in Hp'. destruct Hp' as [Hp' Hid].
    apply by_id_true in Hid. cbn in Hx. subst f. split.
    + exists fr. auto.
    + exists p. auto.
  - intros [(fr & Hfr & Hp & Hf & Hs) (p & Hin & Hid)].
    exists (Player.id p, Player.username p, Player.credits p).
    split; [exact Hid|]. apply in_flat_map. exists fr. split.
    + apply filter_In. split; auto. apply andb_true_iff. split.
      * now apply String.eqb_eq.
      * now apply status_eqb_accepted.
    + apply in_map_iff. exists p. split; auto.
      apply filter_In. split; auto. apply by_id_true. congruence.
Qed.

(** C4 does not hold as worded: from a state without friend edges,
    alice accepts bob, who never sent a request.  Bob is listed among
    alice's friends although no edge from bob to alice exists. *)
Lemma friend_listed_without_reverse_edge :
  let st := run example_env example_db
              [mkcall (FriendsAccept "t-alice" "p-bob") "" ""] in
  handle example_env st (mkcall (FriendsGet "t-alice") "" "")
  = (st, json (success_friends [("p-bob", "bob", 0)]))
  /\ listed_friend st "p-alice" "p-bob"
  /\ ~ any_edge st "p-bob" "p-alice"
  /\ ~ (listed_friend st "p-alice" "p-bob"
        <-> accepted_edge st "p-alice" "p-bob"
            /\ accepted_edge st "p-bob" "p-alice").
Proof.
  cbn zeta.
  assert (Hno : ~ any_edge
                    (run example_env example_db
                       [mkcall (FriendsAccept "t-alice" "p-bob") "" ""])
                    "p-bob" "p-alice").
  { intros (r & Hin & Hp & _). cbn in Hin.
    destruct Hin as [<-|[]]. discriminate. }
  split; [reflexivity|]. split; [cbn; auto|]. split; [exact Hno|].
  intros [Hto _]. destruct Hto as [_ (r & Hin & Hp & Hf & _)]; [cbn; auto|].
  apply Hno. exists r. auto.
Qed.

(** C4, on the forward edge. A player id [f] is among the rows [GET /friends]
    returns for player [p] exactly when the directed edge [p -> f] exists
    with status accepted and [f] is the id of a player; the reverse edge is
    not consulted.  [GET /friends] answers an authenticated player with
    those rows and writes nothing. *)
Theorem list_friends_reads_forward_edge E st p f :
  (listed_friend st p f <-> accepted_edge st p f /\ is_player st f)
  /\ (forall tok u1 u2 player,
         requireAuth st tok = inr player ->
         handle E st (mkcall (FriendsGet tok) u1 u2)
         = (st, json (success_friends (friends_of st (Player.id player))))).
Proof.
  split; [apply listed_friend_iff|].
  intros tok u1 u2 player Hauth. unfold handle. cbn [call_request].
  unfold get_friends. now rewrite Hauth.
Qed.

Lemma list_friends_reads_forward_edge_witness :
  let st := set_friend_relationships
              [Friend.mk "p-alice" "p-bob" Friend.accepted] example_db in
  handle example_env st (mkcall (FriendsGet "t-alice") "" "")
  = (st, json (success_friends (friends_of st "p-alice"))).
Proof.
  intros st.
  assert (Hauth : requireAuth st "t-alice" = inr alice) by reflexivity.
  exact (proj2 (list_friends_reads_forward_edge example_env st "p-alice" "p-bob")
           "t-alice" "" "" alice Hauth).
Defined.

Lemma friend_conflict_edge a b s x :
  Friend.conflict (Friend.mk a b s) x = edge a b x.
Proof.
  unfold Friend.conflict, edge. simpl.
  now rewrite (String.eqb_sym a), (String.eqb_sym b).
Qed.

Lemma edge_true a b r :
  edge a b r = true <-> Friend.player_id r = a /\ Friend.friend_id r = b.
Proof. unfold edge. now rewrite andb_true_iff, !String.eqb_eq. Qed.

Lemma no_edge_false st a b r :
  ~ any_edge st a b -> In r (friend_relationships st) -> edge a b r = false.
Proof.
  intros Hno Hin. destruct (edge a b r) eqn:He; auto.
  exfalso. apply Hno. apply edge_true in He. exists r. tauto.
Qed.

(** C10 does not hold as worded: alice has requested bob, so the edge
    alice -> bob is pending, and bob has sent nothing.  Alice's accept
    succeeds, yet INSERT OR IGNORE leaves the pending edge, no accepted
    edge alice -> bob exists afterwards, and bob is not listed. *)
Lemma accept_leaves_own_pending_edge :
  let st := run example_env example_db
              [mkcall (FriendsRequest "t-alice" "bob") "" ""] in
  let st' := fst (handle example_env st
                    (mkcall (FriendsAccept "t-alice" "p-bob") "" "")) in
  friend_relationships st = [Friend.mk "p-alice" "p-bob" Friend.pending]
  /\ ~ any_edge st "p-bob" "p-alice"
  /\ handle example_env st (mkcall (FriendsAccept "t-alice" "p-bob") "" "")
     = (st, json success)
  /\ ~ accepted_edge st' "p-alice" "p-bob"
  /\ ~ listed_friend st' "p-alice" "p-bob".
Proof.
  cbn zeta. split; [reflexivity|]. split.
  { intros (r & Hin & Hp & _). cbn in Hin. destruct Hin as [<-|[]].
    discriminate. }
  split; [reflexivity|]. split.
  - intros (r & Hin & _ & _ & Hs). cbn in Hin. destruct Hin as [<-|[]].
    discriminate.
  - cbn. tauto.
Qed.

(** C10, when no forward edge is stored yet. For an authenticated player [p] and a friend id [f]
    present in the request, when no edge [p -> f] is stored yet,
    [/friends/accept] succeeds and stores the edge [p -> f] as accepted,
    whether or not an edge [f -> p] exists; when none exists the promotion
    matches no row and the new edge is the only change.  If [f] is the id
    of a player, [f] is then listed among [p]'s friends. *)
Theorem accept_without_request E st tok f u1 u2 player :
  requireAuth st tok = inr player -> f <> "" ->
  ~ any_edge st (Player.id player) f ->
  let st' := fst (handle E st (mkcall (FriendsAccept tok f) u1 u2)) in
  snd (handle E st (mkcall (FriendsAccept tok f) u1 u2)) = json success
  /\ accepted_edge st' (Player.id player) f
  /\ (is_player st f -> listed_friend st' (Player.id player) f)
  /\ (~ any_edge st f (Player.id player) ->
      st' = set_friend_relationships
              (friend_relationships st
               ++ [Friend.mk (Player.id player) f Friend.accepted]) st).
Proof.
  intros Hauth Hf Hno st'.
  set (new := Friend.mk (Player.id player) f Friend.accepted).
  set (t1 := Sql.update (edge f (Player.id player))
               (Friend.with_status Friend.accepted) (friend_relationships st)).
  assert (Hst' : handle E st (mkcall (FriendsAccept tok f) u1 u2)
                 = (set_friend_relationships (t1 ++ [new]) st, json success)).
  { unfold handle. cbn [call_request]. unfold post_friends_accept.
    rewrite Hauth.
    replace (falsy f) with false by (symmetry; now apply String.eqb_neq).
    fold t1 new. unfold Sql.insert_or_ignore.
    destruct (existsb (Friend.conflict new) t1) eqn:He; [|reflexivity].
    exfalso. apply existsb_exists in He. destruct He as (x & Hx & Hc).
    unfold new in Hc. rewrite friend_conflict_edge in Hc.
    apply in_update in Hx. destruct Hx as (r & Hr & ->).
    assert (Hr' : edge (Player.id player) f r = false)
      by (eapply no_edge_false; eauto).
    destruct (edge f (Player.id player) r); [|congruence].
    unfold edge in *. cbn in Hc. congruence. }
  unfold st'. rewrite Hst'. cbn [fst snd].
  assert (Hacc : accepted_edge (set_friend_relationships (t1 ++ [new]) st)
                   (Player.id player) f).
  { exists new. db_simpl. split; [apply in_or_app; right; now left|].
    now cbn. }
  split; [reflexivity|]. split; [exact Hacc|]. split.
  - intros Hp. apply listed_friend_iff. split; [exact Hacc|exact Hp].
  - intros Hrev. f_equal. f_equal. unfold t1. apply update_none.
    intros r Hr. eapply no_edge_false; eauto.
Qed.

Lemma accept_without_request_witness :
  listed_friend
    (fst (handle example_env example_db
            (mkcall (FriendsAccept "t-alice" "p-bob") "" "")))
    "p-alice" "p-bob".
Proof.
  assert (Hauth : requireAuth example_db "t-alice" = inr alice) by reflexivity.
  assert (Hf : "p-bob" <> "") by discriminate.
  assert (Hno : ~ any_edge example_db (Player.id alice) "p-bob")
    by (intros (r & [] & _)).
  refine (proj1 (proj2 (proj2
            (accept_without_request example_env example_db "t-alice" "p-bob"
               "" "" alice Hauth Hf Hno))) _).
  exists bob. simpl. auto.
Defined.

(** ** Sessions *)

Lemma handle_no_holder E t st c :
  never_draws t c -> no_holder t st -> no_holder t (fst (handle E st c)).
Proof.
  unfold never_draws, no_holder. intros [Hu1 Hu2] Hall. unfold_handlers.
  destruct (call_request c);
    repeat break_match; db_simpl; rewrite ?read_back_state; auto; db_simpl;
    try (apply update_Forall;
         [ assumption
         | let r := fresh "r" in
           let Hr := fresh "Hr" in
           intros r Hr _; rewrite Forall_forall in Hall;
           specialize (Hall r Hr); cbn; congruence ]);
    try (apply delete_Forall; assumption);
    try (eapply insert_Forall; [eassumption | cbn; congruence | assumption]);
    try (apply fold_update_Forall; [ intros r; cbn; congruence | assumption ]).
  apply (fold_delete_player_Forall _ (_ :: _)); assumption.
Qed.

Lemma run_no_holder E t cs : forall st,
  Forall (never_draws t) cs -> no_holder t st -> no_holder t (run E st cs).
Proof.
  induction cs as [|c cs IH]; intros st Hcs Hno; [exact Hno|].
  inversion Hcs as [|? ? Hc Hrest]; subst. rewrite run_cons.
  apply IH; auto using handle_no_holder.
Qed.

Lemma requireAuth_no_holder t st :
  no_holder t st -> exists e, requireAuth st t = inl (status_json 401 e).
Proof.
  unfold no_holder, requireAuth, getPlayer. intros Hno.
  destruct (falsy t); [eauto|].
  destruct (Sql.get (by_token t) (players st)) as [q|] eqn:Hg; [|eauto].
  exfalso. apply get_some in Hg. destruct Hg as [Hin Hw].
  rewrite Forall_forall in Hno. apply (Hno q Hin).
  unfold by_token in Hw. destruct (Player.token q); [|discriminate].
  apply String.eqb_eq in Hw. congruence.
Qed.

Lemma login_success E st g u pw u1 st' b :
  post_login E st u1 g u pw = (st', json b) ->
  exists player,
    Sql.get (by_name g u) (players st) = Some player
    /\ compareSync E pw (Player.password_hash player) = true
    /\ Player.banned player = false
    /\ st' = set_players
               (Sql.update (by_id (Player.id player))
                           (Player.with_token (Some u1)) (players st)) st
    /\ b = success_login (Player.id player) u1 (Player.username player)
                         (Player.credits player).
Proof.
  unfold post_login.
  destruct (falsy g || falsy u || falsy pw)%bool; [discriminate|].
  destruct (Sql.get (by_name g u) (players st)) as [player|]; [|discriminate].
  destruct (compareSync E pw (Player.password_hash player)) eqn:Hc;
    cbn [negb]; [|discriminate].
  destruct (Player.banned player) eqn:Hb; [discriminate|].
  intros [= <- <-]. exists player. auto.
Qed.

(** *** Tokens stay distinct while [uuidv4()] draws unused values *)

Lemma update_keeps_tokens w s (t : list Player.row) :
  (forall r, Player.token (s r) = Player.token r) ->
  (forall r, Player.id (s r) = Player.id r) ->
  distinct_tokens t -> distinct_tokens (Sql.update w s t).
Proof.
  intros Ht Hi Hd q1 q2 k H1 H2 Hk1 Hk2.
  apply in_update in H1, H2.
  destruct H1 as (r1 & Hr1 & ->), H2 as (r2 & Hr2 & ->).
  assert (E1 : Player.token r1 = Some k)
    by (destruct (w r1); [rewrite Ht in Hk1|]; exact Hk1).
  assert (E2 : Player.token r2 = Some k)
    by (destruct (w r2); [rewrite Ht in Hk2|]; exact Hk2).
  pose proof (Hd r1 r2 k Hr1 Hr2 E1 E2) as Hid.
  destruct (w r1), (w r2); rewrite ?Hi; exact Hid.
Qed.

Lemma update_rotates_token i u s (t : list Player.row) :
  (forall r, Player.token (s r) = Some u) ->
  (forall r, Player.id (s r) = Player.id r) ->
  Forall (fun q => Player.token q <> Some u) t ->
  distinct_tokens t -> distinct_tokens (Sql.update (by_id i) s t).
Proof.
  intros Ht Hi Hu Hd q1 q2 k H1 H2 Hk1 Hk2.
  rewrite Forall_forall in Hu.
  apply in_update in H1, H2.
  destruct H1 as (r1 & Hr1 & ->), H2 as (r2 & Hr2 & ->).
  destruct (by_id i r1) eqn:W1, (by_id i r2) eqn:W2.
  - apply by_id_true in W1, W2. rewrite !Hi. congruence.
  - rewrite Ht in Hk1. exfalso. apply (Hu r2 Hr2). congruence.
  - rewrite Ht in Hk2. exfalso. apply (Hu r1 Hr1). congruence.
  - eauto.
Qed.

Lemma delete_keeps_tokens w (t : list Player.row) :
  distinct_tokens t -> distinct_tokens (Sql.delete w t).
Proof.
  intros Hd q1 q2 k H1 H2. apply in_delete in H1, H2.
  apply Hd; tauto.
Qed.

Lemma insert_keeps_tokens r u (t t' : list Player.row) :
  Sql.insert Player.conflict r t = Some t' ->
  Player.token r = Some u ->
  Forall (fun q => Player.token q <> Some u) t ->
  distinct_tokens t -> distinct_tokens t'.
Proof.
  intros Hi Hr Hu Hd. apply insert_some in Hi. destruct Hi as [-> _].
  rewrite Forall_forall in Hu.
  intros q1 q2 k H1 H2 Hk1 Hk2. apply in_app_or in H1, H2.
  destruct H1 as [H1|[<-|[]]], H2 as [H2|[<-|[]]]; eauto.
  - exfalso. apply (Hu q1 H1). congruence.
  - exfalso. apply (Hu q2 H2). congruence.
Qed.

Lemma fold_update_keeps_tokens (w : string -> Player.row -> bool) s ids :
  (forall r, Player.token (s r) = Player.token r) ->
  (forall r, Player.id (s r) = Player.id r) ->
  forall t, distinct_tokens t ->
            distinct_tokens (fold_left (fun t i => Sql.update (w i) s t) ids t).
Proof.
  intros Ht Hi. induction ids as [|i ids IH]; intros t Hd; simpl; auto.
  apply IH. now apply update_keeps_tokens.
Qed.

Lemma fold_delete_player_tokens ids : forall st,
  tokens_distinct st -> tokens_distinct (fold_left delete_player ids st).
Proof.
  induction ids as [|i ids IH]; intros st Hd; simpl; auto.
  apply IH. unfold tokens_distinct. rewrite players_delete_player.
  now apply delete_keeps_tokens.
Qed.

Lemma handle_tokens_distinct E st c :
  draws_unused st c -> tokens_distinct st ->
  tokens_distinct (fst (handle E st c)).
Proof.
  unfold draws_unused, no_holder. intros [Hu1 Hu2] Hd. unfold_handlers.
  destruct (call_request c);
    repeat break_match; db_simpl; rewrite ?read_back_state; auto;
    unfold tokens_distinct in *; db_simpl;
    try (apply update_keeps_tokens;
         [intros []; reflexivity | intros []; reflexivity | assumption]);
    try (eapply update_rotates_token;
         [intros []; reflexivity | intros []; reflexivity
          | eassumption | assumption]);
    try (apply delete_keeps_tokens; assumption);
    try (eapply insert_keeps_tokens;
         [eassumption | reflexivity | eassumption | assumption]);
    try (apply fold_update_keeps_tokens;
         [intros []; reflexivity | intros []; reflexivity | assumption]).
  apply (fold_delete_player_tokens (_ :: _)); assumption.
Qed.

(** From the empty database on, player ids are distinct and no two
    players hold the same token, as long as every value [uuidv4()] returns
    is a token nobody holds at that moment. *)
Lemma run_tokens_distinct E cs : forall st,
  draws_unused_along E st cs -> unique_player_ids st -> tokens_distinct st ->
  unique_player_ids (run E st cs) /\ tokens_distinct (run E st cs).
Proof.
  induction cs as [|c cs IH]; intros st Hcs Hn Hd; [now split|].
  destruct Hcs as [Hc Hrest]. rewrite run_cons.
  apply IH; auto using handle_unique_ids, handle_tokens_distinct.
Qed.

Lemma reachable_tokens_distinct E cs :
  draws_unused_along E empty_db cs ->
  unique_player_ids (run E empty_db cs) /\ tokens_distinct (run E empty_db cs).
Proof.
  intros Hcs. apply run_tokens_distinct; auto.
  - constructor.
  - intros q1 q2 k [].
Qed.

Lemma only_holder st q pid k :
  tokens_distinct st -> In q (players st) ->
  Player.id q = pid -> Player.token q = Some k ->
  forall q', In q' (players st) -> Player.token q' = Some k ->
             Player.id q' = pid.
Proof.
  intros Hd Hq Hid Hk q' Hq' Hk'. rewrite <- Hid. now apply (Hd q' q k).
Qed.

(** C6 does not hold as worded: the login stores whatever [uuidv4()]
    returns and compares it with nothing.  When the draw is the token alice
    already holds, the login succeeds, the stored token is the one it was,
    and the token held before the login still authenticates. *)
Lemma login_may_redraw_the_held_token :
  let c := mkcall (Login "g1" "alice" "pw") "t-alice" "" in
  requireAuth example_db "t-alice" = inr alice /\
  handle example_env example_db c
  = (example_db, json (success_login "p-alice" "t-alice" "alice" 10)) /\
  requireAuth (fst (handle example_env example_db c)) "t-alice" = inr alice.
Proof. cbv zeta. repeat split. Qed.

(** C6, for a draw that differs from the token it replaces.  After a
    successful login of player [pid] the stored token of [pid] is the value
    just drawn from [uuidv4()].  Any other token that no other player holds
    (the token [pid] held before the login, or one replaced earlier) is
    answered 401 by [requireAuth] from then on, for as long as [uuidv4()]
    does not draw it again.  Two tokens that both authenticate as the same
    player are equal: a player has at most one live session. *)
Theorem login_rotates_session E st g u pw u1 u2 st' pid tok' name cr :
  unique_player_ids st ->
  handle E st (mkcall (Login g u pw) u1 u2)
  = (st', json (success_login pid tok' name cr)) ->
  tok' = u1
  /\ is_player st pid
  /\ (forall q, In q (players st') -> Player.id q = pid ->
                Player.token q = Some u1)
  /\ (forall old,
         old <> u1 ->
         (forall q, In q (players st) -> Player.token q = Some old ->
                    Player.id q = pid) ->
         forall cs, Forall (never_draws old) cs ->
                    exists e, requireAuth (run E st' cs) old
                              = inl (status_json 401 e))
  /\ (forall t1 t2 p1 p2,
         requireAuth st' t1 = inr p1 -> requireAuth st' t2 = inr p2 ->
         Player.id p1 = Player.id p2 -> t1 = t2).
Proof.
  intros Hn Hlogin. unfold handle in Hlogin. cbn [call_request call_uuid1] in Hlogin.
  apply login_success in Hlogin.
  destruct Hlogin as (player & Hget & _ & _ & -> & Hb).
  injection Hb as -> -> _ _. apply get_some in Hget. destruct Hget as [Hin _].
  split; [reflexivity|]. split; [exists player; auto|]. split; [|split].
  - intros q Hq Hid. db_simpl. apply in_update in Hq.
    destruct Hq as (r & Hr & ->).
    destruct (by_id (Player.id player) r) eqn:Hw; [reflexivity|].
    apply by_id_true in Hid. congruence.
  - intros old Hne Hothers cs Hcs. apply requireAuth_no_holder.
    apply run_no_holder; auto.
    unfold no_holder. db_simpl. apply Forall_forall. intros q Hq.
    apply in_update in Hq. destruct Hq as (r & Hr & ->).
    destruct (by_id (Player.id player) r) eqn:Hw.
    + cbn. congruence.
    + intros Ht. apply Hothers in Ht; auto.
      apply by_id_true in Ht. congruence.
  - intros t1 t2 p1 p2 H1 H2 Hid.
    apply requireAuth_inr in H1, H2.
    destruct H1 as (Hin1 & Ht1 & _), H2 as (Hin2 & Ht2 & _).
    assert (Hn' : NoDup (map Player.id
                           (Sql.update (by_id (Player.id player))
                              (Player.with_token (Some u1)) (players st))))
      by (rewrite update_ids by (intros []; reflexivity); exact Hn).
    db_simpl.
    assert (p1 = p2) by (eapply (unique_by_key Player.id); eauto).
    congruence.
Qed.

Lemma login_rotates_session_witness :
  let st' := fst (handle example_env example_db
                    (mkcall (Login "g1" "alice" "pw") "t-new" "")) in
  requireAuth st' "t-new" = inr (Player.with_token (Some "t-new") alice)
  /\ exists e, requireAuth st' "t-alice" = inl (status_json 401 e).
Proof.
  split; [reflexivity|].
  assert (Hn : unique_player_ids example_db)
    by (unfold unique_player_ids; distinct_strings).
  assert (Hne : "t-alice" <> "t-new") by discriminate.
  assert (Hothers : forall q, In q (players example_db) ->
                              Player.token q = Some "t-alice" ->
                              Player.id q = "p-alice").
  { intros q [<-|[<-|[]]]; [reflexivity | discriminate]. }
  exact (proj1 (proj2 (proj2 (proj2
           (login_rotates_session example_env example_db "g1" "alice" "pw"
              "t-new" "" _ "p-alice" "t-new" "alice" 10 Hn eq_refl))))
           "t-alice" Hne Hothers [] (Forall_nil _)).
Defined.

(** * Further properties of the routes *)

(** ** The gates *)

Lemma db_eta_players st : set_players (players st) st = st.
Proof. now destruct st. Qed.

Lemma requireAuth_banned st tok q :
  tok <> "" -> getPlayer st tok = Some q -> Player.banned q = true ->
  requireAuth st tok = inl (status_json 403 "Account banned").
Proof.
  intros Ht Hg Hb. unfold requireAuth.
  replace (falsy tok) with false by (symmetry; now apply String.eqb_neq).
  now rewrite Hg, Hb.
Qed.

Lemma requireAuth_unknown st tok :
  tok <> "" -> no_holder tok st ->
  requireAuth st tok = inl (status_json 401 "Invalid token").
Proof.
  intros Ht Hno. unfold requireAuth, getPlayer.
  replace (falsy tok) with false by (symmetry; now apply String.eqb_neq).
  destruct (Sql.get (by_token tok) (players st)) as [q|] eqn:Hg; auto.
  exfalso. apply get_some in Hg. destruct Hg as [Hin Hw].
  unfold no_holder in Hno. rewrite Forall_forall in Hno. apply (Hno q Hin).
  unfold by_token in Hw. destruct (Player.token q); [|discriminate].
  apply String.eqb_eq in Hw. congruence.
Qed.

Lemma gated_by_requireAuth E st c tok r :
  player_token (call_request c) = Some tok ->
  requireAuth st tok = inl r -> handle E st c = (st, r).
Proof.
  intros Ht Hr. unfold_handlers.
  destruct (call_request c); try discriminate; injection Ht as ->;
    now rewrite Hr.
Qed.

(** X1. [requireAuth] refuses a request without a token with 401 "Missing
    token", a token nobody holds with 401 "Invalid token", and the token of
    a banned player with 403 "Account banned".  Each of the sixteen routes
    registered with [requireAuth] then answers with that refusal and writes
    nothing: the twelve that [handle] dispatches, and [/save], [/load],
    [DELETE /save/:key] and [/cosmetics/owned]. *)
Theorem player_routes_stop_at_the_gate {J} (C : JSON J) E st tok :
  (tok = "" -> requireAuth st tok = inl (status_json 401 "Missing token"))
  /\ (tok <> "" -> no_holder tok st ->
      requireAuth st tok = inl (status_json 401 "Invalid token"))
  /\ (forall q, tok <> "" -> getPlayer st tok = Some q ->
                Player.banned q = true ->
                requireAuth st tok = inl (status_json 403 "Account banned"))
  /\ (forall r, requireAuth st tok = inl r ->
        (forall c, player_token (call_request c) = Some tok ->
                   handle E st c = (st, r))
        /\ (forall pd data, post_save C st pd tok data = (pd, r))
        /\ (forall pd, get_load C st pd tok = inl r)
        /\ (forall pd key, delete_save st pd tok key = (pd, r))
        /\ get_cosmetics_owned st tok = inl r).
Proof.
  split; [|split; [|split]].
  - intros ->. reflexivity.
  - apply requireAuth_unknown.
  - intros q. apply requireAuth_banned.
  - intros r Hr. split; [|split; [|split; [|split]]].
    + intros c Ht. now apply (gated_by_requireAuth E st c tok).
    + intros pd data. unfold post_save. now rewrite Hr.
    + intros pd. unfold get_load. now rewrite Hr.
    + intros pd key. unfold delete_save. now rewrite Hr.
    + unfold get_cosmetics_owned. now rewrite Hr.
Qed.

Lemma player_routes_stop_at_the_gate_witness :
  let st := set_players [Player.with_banned true alice; bob] example_db in
  handle example_env st
    (mkcall (CreditsSpend "t-alice" (Some (js_number 1))) "" "")
  = (st, status_json 403 "Account banned")
  /\ delete_save st [] "t-alice" "slot" = ([], status_json 403 "Account banned").
Proof.
  intros st.
  assert (Hne : "t-alice" <> "") by discriminate.
  pose proof (player_routes_stop_at_the_gate example_json example_env st
                "t-alice") as (_ & _ & Hbanned & Hroutes).
  specialize (Hbanned (Player.with_banned true alice) Hne eq_refl eq_refl).
  destruct (Hroutes _ Hbanned) as (Hhandle & _ & _ & Hdel & _).
  split.
  - exact (Hhandle (mkcall (CreditsSpend "t-alice" (Some (js_number 1))) "" "")
             eq_refl).
  - exact (Hdel [] "slot").
Defined.

(** X2. Sixteen routes registered with [requireOwner] answer 403 "Not
    authorized" and write nothing when the key differs from the owner
    password: the twelve that [handle] dispatches, and
    [/owner/save/:player_id], [/owner/stats], [/owner/config/set] and
    [DELETE /owner/config/:game_id/:key]. *)
Theorem owner_routes_need_the_password {J} (C : JSON J) E st k :
  k <> OWNER_PASSWORD E ->
  (forall c, owner_key (call_request c) = Some k ->
             handle E st c = (st, status_json 403 "Not authorized"))
  /\ (forall pd player_id,
        get_owner_save C E pd k player_id
        = inl (status_json 403 "Not authorized"))
  /\ get_owner_stats E st k = inl (status_json 403 "Not authorized")
  /\ (forall cfg game_id key value,
        post_owner_config_set C E cfg k game_id key value
        = (cfg, status_json 403 "Not authorized"))
  /\ (forall cfg game_id key,
        delete_owner_config E cfg k game_id key
        = (cfg, status_json 403 "Not authorized")).
Proof.
  intros Hne.
  assert (Hf : requireOwner E k = false)
    by (unfold requireOwner; now apply String.eqb_neq).
  split; [|split; [|split; [|split]]].
  - intros c Hk. unfold_handlers.
    destruct (call_request c); try discriminate; injection Hk as ->;
      now rewrite Hf.
  - intros pd player_id. unfold get_owner_save. now rewrite Hf.
  - unfold get_owner_stats. now rewrite Hf.
  - intros cfg game_id key value. unfold post_owner_config_set. now rewrite Hf.
  - intros cfg game_id key. unfold delete_owner_config. now rewrite Hf.
Qed.

Lemma owner_routes_need_the_password_witness :
  handle example_env example_db
    (mkcall (OwnerCreditsSet "guess" "p-alice" (Some 1000)) "" "")
  = (example_db, status_json 403 "Not authorized")
  /\ get_owner_stats example_env example_db "guess"
     = inl (status_json 403 "Not authorized").
Proof.
  assert (Hne : "guess" <> OWNER_PASSWORD example_env) by discriminate.
  pose proof (owner_routes_need_the_password example_json example_env
                example_db "guess" Hne) as (Hhandle & _ & Hstats & _).
  split.
  - exact (Hhandle (mkcall (OwnerCreditsSet "guess" "p-alice" (Some 1000)) "" "")
             eq_refl).
  - exact Hstats.
Defined.

(** ** Logging in and registering *)

Lemma by_name_true g u q :
  by_name g u q = true <-> Player.game_id q = g /\ Player.username q = u.
Proof. unfold by_name. now rewrite andb_true_iff, !String.eqb_eq. Qed.

Lemma present3 a b c :
  a <> "" -> b <> "" -> c <> "" -> (falsy a || falsy b || falsy c)%bool = false.
Proof.
  intros Ha Hb Hc. unfold falsy.
  apply String.eqb_neq in Ha, Hb, Hc. now rewrite Ha, Hb, Hc.
Qed.

(** X3. A login with a missing field is answered 400.  With all fields
    present, an unknown (game id, username) and a wrong password get the
    same 401 "Invalid credentials", and a banned player with the right
    password gets 403 "Account banned".  None of these writes anything, so
    the stored token stays as it was. *)
Theorem login_failures_write_nothing E st g u pw u1 u2 :
  let c := mkcall (Login g u pw) u1 u2 in
  ((g = "" \/ u = "" \/ pw = "") ->
   handle E st c
   = (st, status_json 400 "game_id, username, and password required"))
  /\ (g <> "" -> u <> "" -> pw <> "" ->
      ((forall q, In q (players st) ->
                  ~ (Player.game_id q = g /\ Player.username q = u)) ->
       handle E st c = (st, status_json 401 "Invalid credentials"))
      /\ (forall player,
             Sql.get (by_name g u) (players st) = Some player ->
             compareSync E pw (Player.password_hash player) = false ->
             handle E st c = (st, status_json 401 "Invalid credentials"))
      /\ (forall player,
             Sql.get (by_name g u) (players st) = Some player ->
             compareSync E pw (Player.password_hash player) = true ->
             Player.banned player = true ->
             handle E st c = (st, status_json 403 "Account banned"))).
Proof.
  intros c. unfold c, handle. cbn [call_request call_uuid1]. unfold post_login.
  split.
  - intros H.
    assert (Hf : (falsy g || falsy u || falsy pw)%bool = true).
    { unfold falsy. destruct H as [ -> | [ -> | -> ] ]; cbn;
        rewrite ?orb_true_r; reflexivity. }
    now rewrite Hf.
  - intros Hg Hu Hpw. rewrite (present3 g u pw Hg Hu Hpw).
    split; [|split].
    + intros Hno.
      destruct (Sql.get (by_name g u) (players st)) as [q|] eqn:Hq; auto.
      exfalso. apply get_some in Hq. destruct Hq as [Hin Hw].
      apply by_name_true in Hw. exact (Hno q Hin Hw).
    + intros player -> ->. reflexivity.
    + intros player -> -> ->. reflexivity.
Qed.

Lemma login_failures_write_nothing_witness :
  handle example_env example_db (mkcall (Login "g1" "alice" "guess") "t" "")
  = (example_db, status_json 401 "Invalid credentials")
  /\ handle example_env example_db (mkcall (Login "g1" "carol" "pw") "t" "")
     = (example_db, status_json 401 "Invalid credentials").
Proof.
  assert (H1 : "g1" <> "") by discriminate.
  assert (H2 : "alice" <> "") by discriminate.
  assert (H3 : "guess" <> "") by discriminate.
  assert (H4 : "carol" <> "") by discriminate.
  assert (H5 : "pw" <> "") by discriminate.
  split.
  - exact (proj1 (proj2 (proj2 (login_failures_write_nothing example_env
                                  example_db "g1" "alice" "guess" "t" "")
                           H1 H2 H3)) alice eq_refl eq_refl).
  - refine (proj1 (proj2 (login_failures_write_nothing example_env
                            example_db "g1" "carol" "pw" "t" "")
                     H1 H4 H5) _).
    intros q [<-|[<-|[]]] [_ Hu]; discriminate.
Defined.

Lemma getPlayer_after_rotation t player u s :
  NoDup (map Player.id t) -> In player t ->
  Forall (fun q => Player.token q <> Some u) t ->
  (forall r, Player.token (s r) = Some u) ->
  (forall r, Player.id (s r) = Player.id r) ->
  Sql.get (by_token u) (Sql.update (by_id (Player.id player)) s t)
  = Some (s player).
Proof.
  intros Hn Hin Hno Ht Hi. rewrite Forall_forall in Hno.
  assert (Hp : by_id (Player.id player) player = true) by now apply by_id_true.
  destruct (Sql.get _ _) as [x|] eqn:Hg.
  - apply get_some in Hg. destruct Hg as [Hx Hw].
    apply in_update in Hx. destruct Hx as (r & Hr & ->).
    destruct (by_id (Player.id player) r) eqn:Hwr.
    + apply by_id_true in Hwr.
      now rewrite (unique_by_key Player.id t r player Hn Hr Hin Hwr).
    + exfalso. apply (Hno r Hr). unfold by_token in Hw.
      destruct (Player.token r); [|discriminate].
      apply String.eqb_eq in Hw. congruence.
  - exfalso.
    pose proof (update_in (by_id (Player.id player)) s t player Hin) as Hu.
    rewrite Hp in Hu.
    apply (get_is_some (by_token u) _ _ Hu); auto.
    unfold by_token. rewrite Ht. apply String.eqb_refl.
Qed.

(** X4. The token a successful login returns authenticates as the player
    who logged in: when the drawn value is non-empty and held by nobody,
    [requireAuth] accepts it and yields that player's row, with the id,
    username and balance the login answered. *)
Theorem login_token_authenticates E st g u pw u1 u2 st' pid tok' name cr :
  unique_player_ids st -> u1 <> "" -> no_holder u1 st ->
  handle E st (mkcall (Login g u pw) u1 u2)
  = (st', json (success_login pid tok' name cr)) ->
  exists player,
    requireAuth st' tok' = inr player
    /\ Player.id player = pid /\ Player.username player = name
    /\ Player.credits player = cr /\ Player.token player = Some tok'.
Proof.
  intros Hn Hu1 Hno Hlogin. unfold handle in Hlogin.
  cbn [call_request call_uuid1] in Hlogin. apply login_success in Hlogin.
  destruct Hlogin as (player & Hget & _ & Hban & -> & Hb).
  injection Hb as -> -> -> ->. apply get_some in Hget. destruct Hget as [Hin _].
  exists (Player.with_token (Some u1) player).
  split; [|now cbn].
  unfold requireAuth, getPlayer. db_simpl.
  replace (falsy u1) with false by (symmetry; now apply String.eqb_neq).
  rewrite getPlayer_after_rotation; auto.
  cbn. now rewrite Hban.
Qed.

Lemma login_token_authenticates_witness :
  exists player,
    requireAuth
      (fst (handle example_env example_db
              (mkcall (Login "g1" "alice" "pw") "t-new" ""))) "t-new"
    = inr player
    /\ Player.id player = "p-alice" /\ Player.username player = "alice"
    /\ Player.credits player = 10 /\ Player.token player = Some "t-new".
Proof.
  refine (login_token_authenticates example_env example_db "g1" "alice" "pw"
            "t-new" "" _ "p-alice" "t-new" "alice" 10 _ _ _ eq_refl).
  - unfold unique_player_ids. distinct_strings.
  - discriminate.
  - unfold no_holder. repeat constructor; discriminate.
Defined.

Lemma register_success E st u1 u2 g u pw st' b :
  post_register E st u1 u2 g u pw = (st', json b) ->
  let new := Player.mk u1 g u (hashSync E pw) (Some u2) 0 false in
  st' = set_players (players st ++ [new]) st
  /\ b = success_register u1 u2 u 0
  /\ (forall q, In q (players st) -> Player.conflict new q = false).
Proof.
  unfold post_register.
  destruct (falsy g || falsy u || falsy pw)%bool; [discriminate|].
  destruct (Sql.insert _ _ _) as [t|] eqn:Hi; [|discriminate].
  intros [= <- <-]. apply insert_some in Hi. destruct Hi as [-> Hc].
  cbn zeta. auto.
Qed.

(** X5. A successful registration answers balance 0 with the id and token
    just drawn.  The token, when non-empty and held by nobody before,
    authenticates as the new player; and if [bcrypt] accepts a password
    against its own hash, a login with the registered game id, username
    and password succeeds for that player. *)
Theorem register_then_authenticate E st g u pw u1 u2 st' i t name cr :
  handle E st (mkcall (Register g u pw) u1 u2)
  = (st', json (success_register i t name cr)) ->
  let new := Player.mk u1 g u (hashSync E pw) (Some u2) 0 false in
  i = u1 /\ t = u2 /\ name = u /\ cr = 0
  /\ (u2 <> "" -> no_holder u2 st -> requireAuth st' u2 = inr new)
  /\ (compareSync E pw (hashSync E pw) = true ->
      forall v1 v2,
        snd (handle E st' (mkcall (Login g u pw) v1 v2))
        = json (success_login u1 v1 u 0)).
Proof.
  intros Hreg new. unfold handle in Hreg.
  cbn [call_request call_uuid1 call_uuid2] in Hreg.
  assert (Hfields : (falsy g || falsy u || falsy pw)%bool = false).
  { unfold post_register in Hreg.
    destruct (falsy g || falsy u || falsy pw)%bool; [discriminate | reflexivity]. }
  apply register_success in Hreg. destruct Hreg as (-> & Hb & Hfree).
  injection Hb as -> -> -> ->. subst new.
  set (new := Player.mk u1 g u (hashSync E pw) (Some u2) 0 false) in *.
  repeat (split; [reflexivity|]). split.
  - intros Hu2 Hno. unfold requireAuth, getPlayer. db_simpl.
    replace (falsy u2) with false by (symmetry; now apply String.eqb_neq).
    rewrite get_appended; [reflexivity| |].
    + intros x Hx. unfold no_holder in Hno. rewrite Forall_forall in Hno.
      specialize (Hno x Hx). unfold by_token.
      destruct (Player.token x) as [k|]; auto.
      apply String.eqb_neq. congruence.
    + unfold by_token, new. cbn. apply String.eqb_refl.
  - intros Hbcrypt v1 v2. unfold handle. cbn [call_request call_uuid1].
    unfold post_login. rewrite Hfields. db_simpl.
    rewrite (get_appended (by_name g u) (players st) new).
    + unfold new at 1 2. cbn [Player.password_hash Player.banned].
      rewrite Hbcrypt. reflexivity.
    + intros x Hx. specialize (Hfree x Hx). unfold Player.conflict in Hfree.
      apply orb_false_iff in Hfree. destruct Hfree as [_ Hfree].
      unfold by_name. unfold new in Hfree. cbn in Hfree.
      now rewrite (String.eqb_sym (Player.game_id x)),
        (String.eqb_sym (Player.username x)).
    + unfold by_name, new. cbn. now rewrite !String.eqb_refl.
Qed.

Lemma register_then_authenticate_witness :
  let st' := fst (handle example_env example_db
                    (mkcall (Register "g2" "alice" "pw") "p-new" "t-new")) in
  requireAuth st' "t-new"
  = inr (Player.mk "p-new" "g2" "alice" "$2a$10$pw" (Some "t-new") 0 false)
  /\ snd (handle example_env st' (mkcall (Login "g2" "alice" "pw") "t-2" ""))
     = json (success_login "p-new" "t-2" "alice" 0).
Proof.
  intros st'.
  destruct (register_then_authenticate example_env example_db "g2" "alice" "pw"
              "p-new" "t-new" st' "p-new" "t-new" "alice" 0 eq_refl)
    as (_ & _ & _ & _ & Hauth & Hlogin).
  split.
  - apply Hauth; [discriminate|].
    unfold no_holder. repeat constructor; discriminate.
  - exact (Hlogin eq_refl "t-2" "").
Defined.

(** X6. [/owner/reset-password] answers 404 and writes nothing for an id
    that is no player.  For a player it stores the hash of the new password
    and the token just drawn on that player's row and touches no other
    row; the replaced token, if it differs from the drawn one and nobody
    else holds it, is answered 401 afterwards. *)
Theorem reset_password_rotates_token E st pid pw u1 u2 :
  pid <> "" -> pw <> "" ->
  let c := mkcall (OwnerResetPassword (OWNER_PASSWORD E) pid pw) u1 u2 in
  (~ is_player st pid ->
   handle E st c = (st, status_json 404 "Player not found"))
  /\ (is_player st pid ->
      let st' := fst (handle E st c) in
      snd (handle E st c) = json success
      /\ (forall q, In q (players st') -> Player.id q = pid ->
                    Player.token q = Some u1
                    /\ Player.password_hash q = hashSync E pw)
      /\ (forall q, In q (players st) -> Player.id q <> pid ->
                    In q (players st'))
      /\ (forall old, old <> u1 ->
                      (forall q, In q (players st) ->
                                 Player.token q = Some old ->
                                 Player.id q = pid) ->
                      exists e, requireAuth st' old
                                = inl (status_json 401 e))).
Proof.
  intros Hpid Hpw c. unfold c, handle. cbn [call_request call_uuid1].
  unfold post_owner_reset_password, requireOwner.
  rewrite String.eqb_refl. cbn [negb].
  replace (falsy pid || falsy pw)%bool with false
    by (unfold falsy; apply String.eqb_neq in Hpid, Hpw;
        now rewrite Hpid, Hpw).
  split.
  - intros Hno.
    destruct (Sql.get (by_id pid) (players st)) as [q|] eqn:Hg; auto.
    exfalso. apply Hno. apply get_some in Hg. destruct Hg as [Hin Hw].
    exists q. split; auto. now apply by_id_true.
  - intros (p & Hin & Hid).
    destruct (Sql.get (by_id pid) (players st)) as [q|] eqn:Hg.
    2:{ exfalso. apply (get_is_some (by_id pid) _ p Hin); auto.
        now apply by_id_true. }
    cbn zeta. db_simpl. split; [reflexivity|]. split; [|split].
    + intros x Hx Hxid. apply in_update in Hx. destruct Hx as (r & Hr & ->).
      destruct (by_id pid r) eqn:Hw; [now cbn|].
      apply by_id_true in Hxid. congruence.
    + intros x Hx Hne.
      pose proof (update_in (by_id pid)
                    (Player.with_password (hashSync E pw) (Some u1))
                    (players st) x Hx) as Hu.
      destruct (by_id pid x) eqn:Hw; auto.
      apply by_id_true in Hw. contradiction.
    + intros old Hne Hothers. apply requireAuth_no_holder.
      unfold no_holder. db_simpl. apply Forall_forall. intros x Hx.
      apply in_update in Hx. destruct Hx as (r & Hr & ->).
      destruct (by_id pid r) eqn:Hw.
      * cbn. congruence.
      * intros Ht. apply Hothers in Ht; auto.
        apply by_id_true in Ht. congruence.
Qed.

Lemma reset_password_rotates_token_witness :
  exists e,
    requireAuth
      (fst (handle example_env example_db
              (mkcall (OwnerResetPassword "admin1234" "p-alice" "pw2")
                      "t-new" ""))) "t-alice"
    = inl (status_json 401 e).
Proof.
  assert (H1 : "p-alice" <> "") by discriminate.
  assert (H2 : "pw2" <> "") by discriminate.
  assert (Hp : is_player example_db "p-alice")
    by (exists alice; simpl; auto).
  refine (proj2 (proj2 (proj2
            (proj2 (reset_password_rotates_token example_env example_db
                      "p-alice" "pw2" "t-new" "" H1 H2) Hp)))
            "t-alice" _ _).
  - discriminate.
  - intros q [<-|[<-|[]]]; [reflexivity | discriminate].
Defined.

(** ** The ledger, exactly *)

Lemma get_other_id pid i s (t : list Player.row) :
  pid <> i -> (forall r, Player.id (s r) = Player.id r) ->
  Sql.get (by_id pid) (Sql.update (by_id i) s t) = Sql.get (by_id pid) t.
Proof.
  intros Hne Hs.
  rewrite get_update_commute by (intros r; unfold by_id; now rewrite Hs).
  destruct (Sql.get (by_id pid) t) as [r|] eqn:Hg; cbn; auto.
  apply get_some in Hg. destruct Hg as [_ Hw]. apply by_id_true in Hw.
  replace (by_id i r) with false; auto.
  symmetry. unfold by_id. apply String.eqb_neq. congruence.
Qed.

Lemma balance_other st pid i s :
  pid <> i -> (forall r, Player.id (s r) = Player.id r) ->
  balance (set_players (Sql.update (by_id i) s (players st)) st) pid
  = balance st pid.
Proof.
  intros Hne Hs. unfold balance. db_simpl. now rewrite get_other_id.
Qed.

Lemma balance_same st player s :
  unique_player_ids st -> In player (players st) ->
  (forall r, Player.id (s r) = Player.id r) ->
  balance
    (set_players (Sql.update (by_id (Player.id player)) s (players st)) st)
    (Player.id player)
  = Some (Player.credits (s player)).
Proof.
  intros Hn Hin Hs. unfold balance. db_simpl. now rewrite get_update_by_id.
Qed.

Lemma credit_after_debit i a (t : list Player.row) :
  Sql.update (by_id i) (fun p => Player.with_credits (Player.credits p + a) p)
    (Sql.update (by_id i)
       (fun p => Player.with_credits (Player.credits p - a) p) t)
  = t.
Proof.
  unfold Sql.update. rewrite map_map. rewrite <- (map_id t) at 2.
  apply map_ext. intros r. destruct (by_id i r) eqn:Hw.
  - destruct r as [j g u h k c b]. unfold by_id in *. cbn in *.
    rewrite Hw. unfold Player.with_credits. cbn. f_equal. lia.
  - now rewrite Hw.
Qed.

(** X7. When the caller's balance is at most 2^53, an accepted
    [/credits/spend] of an integer amount answers the balance minus the
    amount, stores exactly that as the caller's balance and leaves every
    other player's balance as it was; an [/credits/add] of the same amount
    right after it gives back the state before the two calls. *)
Theorem spend_debits_only_the_caller E st tok a player u1 u2 u3 u4 :
  unique_player_ids st -> requireAuth st tok = inr player ->
  0 < a -> a <= Player.credits player -> safe (Player.credits player) ->
  let spend := mkcall (CreditsSpend tok (Some (js_number a))) u1 u2 in
  let add := mkcall (CreditsAdd tok (Some (js_number a))) u3 u4 in
  let st' := fst (handle E st spend) in
  snd (handle E st spend) = json (success_credits (Player.credits player - a))
  /\ balance st' (Player.id player) = Some (Player.credits player - a)
  /\ (forall pid, pid <> Player.id player -> balance st' pid = balance st pid)
  /\ run E st [spend; add] = st.
Proof.
  intros Hn Hauth H0 Hle Hsafe spend add st'.
  pose proof (requireAuth_inr _ _ _ Hauth) as (Hin & _).
  assert (Hs : handle E st spend
               = (set_players
                    (Sql.update (by_id (Player.id player))
                       (fun p => Player.with_credits (Player.credits p - a) p)
                       (players st)) st,
                  json (success_credits (Player.credits player - a))))
    by (apply spend_accepted; auto).
  unfold st'. rewrite Hs. cbn [fst snd].
  split; [reflexivity|]. split; [|split].
  - rewrite balance_same; auto.
  - intros pid Hne. now apply balance_other.
  - unfold run. cbn [fold_left]. rewrite Hs. cbn [fst].
    unfold add, handle. cbn [call_request].
    assert (Hp : by_id (Player.id player) player = true)
      by now apply by_id_true.
    unfold safe in Hsafe.
    erewrite add_accepted;
      [ | unfold unique_player_ids; db_simpl;
          rewrite update_ids by (intros []; reflexivity); exact Hn
        | eapply requireAuth_after_update;
          [exact Hauth | reflexivity | intros []; reflexivity
           | intros []; reflexivity]
        | exact H0
        | unfold safe; lia
        | rewrite Hp; unfold safe; cbn; lia
        | rewrite Hp; unfold safe; cbn; lia ].
    cbn [fst]. db_simpl. rewrite Hp.
    cbn [Player.id Player.with_credits].
    rewrite credit_after_debit. now destruct st.
Qed.

Lemma spend_debits_only_the_caller_witness :
  run example_env example_db
    [ mkcall (CreditsSpend "t-alice" (Some (js_number 4))) "" "";
      mkcall (CreditsAdd "t-alice" (Some (js_number 4))) "" "" ]
  = example_db.
Proof.
  refine (proj2 (proj2 (proj2
            (spend_debits_only_the_caller example_env example_db "t-alice" 4
               alice "" "" "" "" _ eq_refl _ _ _)))).
  - unfold unique_player_ids. distinct_strings.
  - lia.
  - simpl. lia.
  - unfold safe. simpl. lia.
Defined.

Lemma changes_none {row} (w : row -> bool) t :
  (forall r, In r t -> w r = false) -> Sql.changes w t = 0%nat.
Proof.
  intros Hw. unfold Sql.changes. induction t as [|x t IH]; simpl; auto.
  rewrite (Hw x) by (simpl; auto). apply IH. intros r Hr. apply Hw. simpl; auto.
Qed.

Lemma changes_some {row} (w : row -> bool) t r :
  In r t -> w r = true -> (Sql.changes w t =? 0)%nat = false.
Proof.
  intros Hin Hw. unfold Sql.changes. apply Nat.eqb_neq.
  assert (Hf : In r (filter w t)) by (apply filter_In; auto).
  destruct (filter w t); [contradiction | discriminate].
Qed.

Lemma not_player_no_row st pid r :
  ~ is_player st pid -> In r (players st) -> by_id pid r = false.
Proof.
  intros Hno Hin. destruct (by_id pid r) eqn:Hw; auto.
  exfalso. apply Hno. exists r. split; auto. now apply by_id_true.
Qed.

(** Beyond 2^53 the sum is the nearest double: 3 plus 9007199254740992
    is stored and answered as 9007199254740996. *)
Lemma owner_give_beyond_2_53_rounds :
  let st := set_players [Player.with_credits 3 alice; bob] example_db in
  handle example_env st
    (mkcall (OwnerCreditsGive "admin1234" "p-alice"
               (Some (js_number 9007199254740992))) "" "")
  = (set_players [Player.with_credits 9007199254740996 alice; bob] example_db,
     json (success_new_credits 9007199254740996)).
Proof. reflexivity. Qed.

(** X8. [/owner/credits/give] treats the amount 0 like a missing amount
    (400), and answers 404 and writes nothing for an id that is no player.
    Otherwise, when the amount, the balance and their sum are at most 2^53
    in magnitude, it adds the amount, whatever its sign, to that player's
    balance only and answers the new balance. *)
Theorem owner_give_adds_to_one_player E st pid a u1 u2 :
  pid <> "" ->
  let c := mkcall (OwnerCreditsGive (OWNER_PASSWORD E) pid
                     (Some (js_number a))) u1 u2 in
  (a = 0 ->
   handle E st c = (st, status_json 400 "player_id and amount required"))
  /\ (a <> 0 -> ~ is_player st pid ->
      handle E st c = (st, status_json 404 "Player not found"))
  /\ (a <> 0 -> unique_player_ids st ->
      forall player, In player (players st) -> Player.id player = pid ->
        safe a -> safe (Player.credits player) ->
        safe (Player.credits player + a) ->
        let st' := fst (handle E st c) in
        snd (handle E st c)
        = json (success_new_credits (Player.credits player + a))
        /\ balance st' pid = Some (Player.credits player + a)
        /\ (forall other, other <> pid ->
                          balance st' other = balance st other)).
Proof.
  intros Hpid c. unfold c, handle. cbn [call_request].
  unfold post_owner_credits_give, requireOwner.
  rewrite String.eqb_refl. cbn [negb].
  replace (falsy pid) with false by (symmetry; now apply String.eqb_neq).
  cbn [orb js_not bind]. split; [|split].
  - intros ->. reflexivity.
  - intros Ha Hno. rewrite (dbl_eqb_0 a Ha).
    rewrite changes_none by (intros r Hr; now apply (not_player_no_row st)).
    cbn. rewrite update_none
      by (intros r Hr; now apply (not_player_no_row st)).
    now rewrite db_eta_players.
  - intros Ha Hn player Hin <- Hsa Hsc Hss. rewrite (dbl_eqb_0 a Ha).
    rewrite (changes_some _ _ player Hin) by now apply by_id_true.
    rewrite read_back_update by (auto; intros []; reflexivity).
    cbn [fst snd Player.credits Player.with_credits sql_add].
    rewrite (dbl_small a Hsa), (dbl_small _ Hsc), !(dbl_small _ Hss).
    split; [reflexivity|]. split.
    + rewrite balance_same; auto. cbn [Player.credits Player.with_credits sql_add].
      now rewrite (dbl_small _ Hsc), (dbl_small _ Hss).
    + intros other Hne. now apply balance_other.
Qed.

Lemma owner_give_adds_to_one_player_witness :
  balance
    (fst (handle example_env example_db
            (mkcall (OwnerCreditsGive "admin1234" "p-bob" (Some (js_number 25)))
                    "" "")))
    "p-bob"
  = Some (0 + 25).
Proof.
  assert (Hpid : "p-bob" <> "") by discriminate.
  refine (proj1 (proj2
            (proj2 (proj2 (owner_give_adds_to_one_player example_env example_db
                             "p-bob" 25 "" "" Hpid))
               _ _ bob _ eq_refl _ _ _))).
  - discriminate.
  - unfold unique_player_ids. distinct_strings.
  - simpl. auto.
  - unfold safe. simpl. lia.
  - unfold safe. simpl. lia.
  - unfold safe. simpl. lia.
Defined.

(** X9. [/owner/credits/set] answers 404 and writes nothing for an id that
    is no player; otherwise it stores the amount, zero included, as that
    player's balance, answers it, and leaves every other balance alone. *)
Theorem owner_set_overwrites_one_balance E st pid a u1 u2 :
  pid <> "" ->
  let c := mkcall (OwnerCreditsSet (OWNER_PASSWORD E) pid (Some a)) u1 u2 in
  (~ is_player st pid ->
   handle E st c = (st, status_json 404 "Player not found"))
  /\ (unique_player_ids st -> is_player st pid ->
      let st' := fst (handle E st c) in
      snd (handle E st c) = json (success_credits a)
      /\ balance st' pid = Some a
      /\ (forall other, other <> pid ->
                        balance st' other = balance st other)).
Proof.
  intros Hpid c. unfold c, handle. cbn [call_request].
  unfold post_owner_credits_set, requireOwner.
  rewrite String.eqb_refl. cbn [negb].
  replace (falsy pid) with false by (symmetry; now apply String.eqb_neq).
  split.
  - intros Hno.
    rewrite changes_none by (intros r Hr; now apply (not_player_no_row st)).
    cbn. rewrite update_none
      by (intros r Hr; now apply (not_player_no_row st)).
    now rewrite db_eta_players.
  - intros Hn (player & Hin & <-).
    rewrite (changes_some _ _ player Hin) by now apply by_id_true.
    cbn [fst snd]. split; [reflexivity|]. split.
    + rewrite balance_same; auto.
    + intros other Hne. now apply balance_other.
Qed.

Lemma owner_set_overwrites_one_balance_witness :
  balance
    (fst (handle example_env example_db
            (mkcall (OwnerCreditsSet "admin1234" "p-alice" (Some 0)) "" "")))
    "p-alice"
  = Some 0.
Proof.
  assert (Hpid : "p-alice" <> "") by discriminate.
  refine (proj1 (proj2
            (proj2 (owner_set_overwrites_one_balance example_env example_db
                      "p-alice" 0 "" "" Hpid) _ _))).
  - unfold unique_player_ids. distinct_strings.
  - exists alice. simpl. auto.
Defined.

(** ** Banning *)

Lemma ban_then_unban i (t : list Player.row) :
  (forall r, In r t -> by_id i r = true -> Player.banned r = false) ->
  Sql.update (by_id i) (Player.with_banned false)
    (Sql.update (by_id i) (Player.with_banned true) t)
  = t.
Proof.
  intros Hb. unfold Sql.update. rewrite map_map. rewrite <- (map_id t) at 2.
  apply map_ext_in. intros r Hr. destruct (by_id i r) eqn:Hw.
  - specialize (Hb r Hr Hw). destruct r as [j g u h k c b].
    unfold by_id in *. cbn in *. rewrite Hw. now subst b.
  - now rewrite Hw.
Qed.

(** X10. [/owner/ban] without a [banned] field bans: a player who was
    authenticated is answered 403 "Account banned" afterwards; a second
    call with [banned] false lets the same token in again and gives back
    the state before the ban. *)
Theorem ban_locks_out_and_unban_restores E st tok player u1 u2 u3 u4 :
  unique_player_ids st -> requireAuth st tok = inr player ->
  Player.id player <> "" ->
  let ban :=
    mkcall (OwnerBan (OWNER_PASSWORD E) (Player.id player) None) u1 u2 in
  let unban :=
    mkcall (OwnerBan (OWNER_PASSWORD E) (Player.id player) (Some false)) u3 u4 in
  let st1 := fst (handle E st ban) in
  snd (handle E st ban) = json (success_banned true)
  /\ requireAuth st1 tok = inl (status_json 403 "Account banned")
  /\ run E st [ban; unban] = st.
Proof.
  intros Hn Hauth Hid ban unban st1.
  pose proof (requireAuth_inr _ _ _ Hauth) as (Hin & Htok & Hban & Hne).
  assert (Hh : handle E st ban
               = (set_players
                    (Sql.update (by_id (Player.id player))
                       (Player.with_banned true) (players st)) st,
                  json (success_banned true))).
  { unfold ban, handle. cbn [call_request]. unfold post_owner_ban, requireOwner.
    rewrite String.eqb_refl. cbn [negb].
    replace (falsy (Player.id player)) with false
      by (symmetry; now apply String.eqb_neq).
    reflexivity. }
  unfold st1. rewrite Hh. cbn [fst snd]. split; [reflexivity|]. split.
  - unfold requireAuth, getPlayer in *. db_simpl.
    destruct (falsy tok); [discriminate|].
    rewrite get_update_commute by (intros []; reflexivity).
    destruct (Sql.get (by_token tok) (players st)) as [q|]; [|discriminate].
    destruct (Player.banned q); [discriminate|]. injection Hauth as ->.
    cbn [option_map].
    replace (by_id (Player.id player) player) with true
      by (symmetry; now apply by_id_true).
    reflexivity.
  - unfold run. cbn [fold_left]. rewrite Hh. cbn [fst].
    unfold unban, handle. cbn [call_request].
    unfold post_owner_ban, requireOwner.
    rewrite String.eqb_refl. cbn [negb].
    replace (falsy (Player.id player)) with false
      by (symmetry; now apply String.eqb_neq).
    cbn [fst truthy_default]. db_simpl. rewrite ban_then_unban.
    + now destruct st.
    + intros r Hr Hw. apply by_id_true in Hw.
      now rewrite (unique_by_key Player.id _ r player Hn Hr Hin Hw).
Qed.

Lemma ban_locks_out_and_unban_restores_witness :
  requireAuth
    (fst (handle example_env example_db
            (mkcall (OwnerBan "admin1234" "p-alice" None) "" ""))) "t-alice"
  = inl (status_json 403 "Account banned").
Proof.
  refine (proj1 (proj2
            (ban_locks_out_and_unban_restores example_env example_db
               "t-alice" alice "" "" "" "" _ eq_refl _))).
  - unfold unique_player_ids. distinct_strings.
  - discriminate.
Defined.

(** ** Deleting a player *)

Lemma delete_idem {row} (w : row -> bool) t :
  Sql.delete w (Sql.delete w t) = Sql.delete w t.
Proof.
  unfold Sql.delete. induction t as [|x t IH]; simpl; auto.
  destruct (negb (w x)) eqn:Hw; simpl; [rewrite Hw|]; now rewrite ?IH.
Qed.

Lemma delete_player_idem st i :
  delete_player (delete_player st i) i = delete_player st i.
Proof.
  unfold delete_player. db_simpl. now rewrite !delete_idem.
Qed.

(** X11. [DELETE /owner/player/:id] always answers success.  Afterwards
    no player, inventory row or owned cosmetic with that id is left, the
    rows of every other player are still there, and the catalog and the
    friend relation are exactly as before: edges from and to the deleted
    id are not removed.  Deleting again changes nothing. *)
Theorem delete_player_clears_owned_rows E st i u1 u2 :
  let c := mkcall (OwnerPlayerDelete (OWNER_PASSWORD E) i) u1 u2 in
  let st' := fst (handle E st c) in
  snd (handle E st c) = json success
  /\ ~ is_player st' i
  /\ (forall r, In r (inventory st') -> Item.player_id r <> i)
  /\ (forall r, In r (player_cosmetics st') -> Owned.player_id r <> i)
  /\ (forall q, In q (players st) -> Player.id q <> i -> In q (players st'))
  /\ (forall r, In r (inventory st) -> Item.player_id r <> i ->
                In r (inventory st'))
  /\ (forall r, In r (player_cosmetics st) -> Owned.player_id r <> i ->
                In r (player_cosmetics st'))
  /\ cosmetics_catalog st' = cosmetics_catalog st
  /\ friend_relationships st' = friend_relationships st
  /\ handle E st' c = (st', json success).
Proof.
  intros c st'. unfold st', c, handle. cbn [call_request].
  unfold delete_owner_player, requireOwner.
  rewrite String.eqb_refl. cbn [negb fst snd].
  split; [reflexivity|]. split; [|split; [|split; [|split; [|split; [|split]]]]].
  - intros (q & Hq & Hid). rewrite players_delete_player in Hq.
    apply in_delete in Hq. destruct Hq as [_ Hw].
    apply by_id_true in Hid. congruence.
  - intros r Hr. cbn in Hr. apply in_delete in Hr. destruct Hr as [_ Hw].
    now apply String.eqb_neq.
  - intros r Hr. cbn in Hr. apply in_delete in Hr. destruct Hr as [_ Hw].
    now apply String.eqb_neq.
  - intros q Hq Hne. rewrite players_delete_player. apply in_delete.
    split; auto. unfold by_id. now apply String.eqb_neq.
  - intros r Hr Hne. cbn. apply in_delete. split; auto.
    now apply String.eqb_neq.
  - intros r Hr Hne. cbn. apply in_delete. split; auto.
    now apply String.eqb_neq.
  - now rewrite delete_player_idem.
Qed.

(** ** Bulk operations *)

Lemma run_deletes E (k : string) ids : forall st,
  k = OWNER_PASSWORD E ->
  run E st (map (fun i => mkcall (OwnerPlayerDelete k i) "" "") ids)
  = fold_left delete_player ids st.
Proof.
  induction ids as [|i ids IH]; intros st Hk; [reflexivity|].
  cbn [map fold_left]. rewrite run_cons, <- IH by exact Hk. f_equal.
  unfold handle. cbn [call_request]. unfold delete_owner_player, requireOwner.
  subst k. now rewrite String.eqb_refl.
Qed.

(** X12. [/owner/bulk/delete] rejects an empty batch with 400; for any
    other batch it answers the number of ids it was given and leaves the
    state that deleting the ids one by one, in order, through
    [DELETE /owner/player/:id] leaves. *)
Theorem bulk_delete_is_repeated_delete E st ids u1 u2 :
  let c := mkcall (OwnerBulkDelete (OWNER_PASSWORD E) ids) u1 u2 in
  (ids = [] ->
   handle E st c = (st, status_json 400 "player_ids array required"))
  /\ (ids <> [] ->
      handle E st c
      = (run E st
           (map (fun i => mkcall (OwnerPlayerDelete (OWNER_PASSWORD E) i) "" "")
                ids),
         json (success_deleted (List.length ids)))).
Proof.
  intros c. unfold c, handle. cbn [call_request].
  unfold post_owner_bulk_delete, requireOwner.
  rewrite String.eqb_refl. cbn [negb]. split.
  - intros ->. reflexivity.
  - intros Hne. rewrite run_deletes by reflexivity.
    destruct ids; [contradiction | reflexivity].
Qed.

Lemma bulk_delete_is_repeated_delete_witness :
  handle example_env example_db
    (mkcall (OwnerBulkDelete "admin1234" ["p-alice"; "p-bob"]) "" "")
  = (run example_env example_db
       [ mkcall (OwnerPlayerDelete "admin1234" "p-alice") "" "";
         mkcall (OwnerPlayerDelete "admin1234" "p-bob") "" "" ],
     json (success_deleted 2)).
Proof.
  apply (proj2 (bulk_delete_is_repeated_delete example_env example_db
                  ["p-alice"; "p-bob"] "" "")).
  discriminate.
Defined.

Lemma delete_player_clears_owned_rows_witness :
  ~ is_player
      (fst (handle example_env example_db
              (mkcall (OwnerPlayerDelete "admin1234" "p-alice") "" "")))
      "p-alice"
  /\ In bob
        (players
           (fst (handle example_env example_db
                   (mkcall (OwnerPlayerDelete "admin1234" "p-alice") "" "")))).
Proof.
  pose proof (delete_player_clears_owned_rows example_env example_db
                "p-alice" "" "") as (_ & Hgone & _ & _ & Hkeep & _).
  split; [exact Hgone|].
  apply Hkeep; [simpl; auto | discriminate].
Defined.

Lemma get_by_id_unique (t : list Player.row) player :
  NoDup (map Player.id t) -> In player t ->
  Sql.get (by_id (Player.id player)) t = Some player.
Proof.
  intros Hn Hin.
  destruct (Sql.get _ t) as [x|] eqn:Hg.
  - apply get_some in Hg. destruct Hg as [Hx Hw]. apply by_id_true in Hw.
    now rewrite (unique_by_key Player.id t x player Hn Hx Hin Hw).
  - exfalso. apply (get_is_some (by_id (Player.id player)) t player); auto.
    now apply by_id_true.
Qed.

Lemma safe_between x y m : safe x -> safe y -> x <= m <= y -> safe m.
Proof. unfold safe. intros Hx Hy Hm. lia. Qed.

Lemma safe_step c a n :
  safe c -> safe (c + a * Z.of_nat (S n)) -> safe (c + a).
Proof.
  intros Hc Hs.
  destruct (Z.le_ge_cases 0 a) as [Ha | Ha].
  - apply (safe_between c (c + a * Z.of_nat (S n))); auto. nia.
  - apply (safe_between (c + a * Z.of_nat (S n)) c); auto. nia.
Qed.

Lemma fold_credits_get a ids : forall t player,
  NoDup (map Player.id t) -> In player t ->
  safe (Player.credits player) ->
  safe (Player.credits player
        + a * Z.of_nat (count_occ string_dec ids (Player.id player))) ->
  Sql.get (by_id (Player.id player))
    (fold_left
       (fun t i => Sql.update (by_id i)
                     (fun p => Player.with_credits
                                 (sql_add (Player.credits p) (sql_real a)) p) t)
       ids t)
  = Some (Player.with_credits
            (Player.credits player
             + a * Z.of_nat (count_occ string_dec ids (Player.id player)))
            player).
Proof.
  induction ids as [|i ids IH]; intros t player Hn Hin Hc Hs.
  - cbn [fold_left count_occ]. rewrite get_by_id_unique by assumption.
    replace (Player.credits player + a * Z.of_nat 0)
      with (Player.credits player) by lia.
    now destruct player.
  - cbn [fold_left]. cbn [count_occ] in Hs |- *.
    set (s := fun p => Player.with_credits
                         (sql_add (Player.credits p) (sql_real a)) p).
    set (t1 := Sql.update (by_id i) s t).
    assert (Hn1 : NoDup (map Player.id t1))
      by (unfold t1; rewrite update_ids by (intros []; reflexivity); exact Hn).
    pose proof (update_in (by_id i) s t player Hin) as Hin1.
    fold t1 in Hin1.
    destruct (string_dec i (Player.id player)) as [->|Hne].
    + replace (by_id (Player.id player) player) with true in Hin1
        by (symmetry; now apply by_id_true).
      pose proof (safe_step _ _ _ Hc Hs) as Hc1.
      assert (Es : s player
                   = Player.with_credits (Player.credits player + a) player).
      { unfold s. cbn [sql_add].
        now rewrite (dbl_small _ Hc), (dbl_small _ Hc1). }
      rewrite Es in Hin1.
      assert (Hs1 : safe (Player.credits player + a
                          + a * Z.of_nat (count_occ string_dec ids
                                            (Player.id player)))).
      { replace (Player.credits player + a
                 + a * Z.of_nat (count_occ string_dec ids (Player.id player)))
          with (Player.credits player
                + a * Z.of_nat (S (count_occ string_dec ids (Player.id player))))
          by lia.
        exact Hs. }
      specialize (IH t1 _ Hn1 Hin1 Hc1 Hs1).
      cbn [Player.id Player.with_credits Player.credits] in IH.
      unfold s. rewrite IH.
      unfold Player.with_credits. cbn. do 2 f_equal. lia.
    + replace (by_id i player) with false in Hin1
        by (symmetry; unfold by_id; apply String.eqb_neq; congruence).
      exact (IH t1 player Hn1 Hin1 Hc Hs).
Qed.

(** X13. [/owner/bulk/credits] rejects an empty batch, a missing amount
    and the amount 0 with 400.  Otherwise it answers the number of ids it
    was given, and the balance of a player grows by the amount once for
    each time the player's id occurs in the batch, as long as the amount,
    the balance before and the balance after are at most 2^53 in
    magnitude: an id listed twice is credited twice, and ids of no player
    are skipped. *)
Theorem bulk_credits_counts_repeats E st ids a u1 u2 :
  let c := mkcall (OwnerBulkCredits (OWNER_PASSWORD E) ids
                     (Some (js_number a))) u1 u2 in
  ((ids = [] \/ a = 0) ->
   handle E st c
   = (st, status_json 400 "player_ids array and amount required"))
  /\ (ids <> [] -> a <> 0 -> unique_player_ids st ->
      snd (handle E st c) = json (success_updated (List.length ids))
      /\ forall player,
          In player (players st) ->
          let total :=
            Player.credits player
            + a * Z.of_nat (count_occ string_dec ids (Player.id player)) in
          safe a -> safe (Player.credits player) -> safe total ->
          balance (fst (handle E st c)) (Player.id player) = Some total).
Proof.
  intros c. unfold c, handle. cbn [call_request].
  unfold post_owner_bulk_credits, requireOwner.
  rewrite String.eqb_refl. cbn [negb js_not bind]. split.
  - intros [->| ->]; [reflexivity|]. destruct ids; reflexivity.
  - intros Hne Ha Hn. destruct ids as [|i ids]; [contradiction|].
    rewrite (dbl_eqb_0 a Ha).
    cbn [fst snd]. split; [reflexivity|].
    intros player Hin Hsa Hsc Hst. unfold balance. db_simpl.
    rewrite (dbl_small a Hsa).
    now rewrite (fold_credits_get a (i :: ids) (players st) player Hn Hin Hsc Hst).
Qed.

Lemma bulk_credits_counts_repeats_witness :
  balance
    (fst (handle example_env example_db
            (mkcall (OwnerBulkCredits "admin1234"
                       ["p-bob"; "p-nobody"; "p-bob"] (Some (js_number 5)))
                    "" "")))
    "p-bob"
  = Some (0 + 5 * 2).
Proof.
  refine (proj2 (proj2 (bulk_credits_counts_repeats example_env example_db
                          ["p-bob"; "p-nobody"; "p-bob"] 5 "" "") _ _ _)
            bob _ _ _ _).
  - discriminate.
  - discriminate.
  - unfold unique_player_ids. distinct_strings.
  - simpl. auto.
  - unfold safe. simpl. lia.
  - unfold safe. simpl. lia.
  - unfold safe. simpl. lia.
Defined.

(** ** Cosmetics: equipping, granting, the catalog *)

Lemma owned_key_true pid cid r :
  owned_key pid cid r = true
  <-> Owned.player_id r = pid /\ Owned.cosmetic_id r = cid.
Proof. unfold owned_key. now rewrite andb_true_iff, !String.eqb_eq. Qed.

Lemma existsb_owned_conflict pid cid e t :
  existsb (Owned.conflict (Owned.mk pid cid e)) t
  = existsb (owned_key pid cid) t.
Proof.
  induction t as [|a t IH]; simpl; auto.
  now rewrite owned_conflict_key, IH.
Qed.

Lemma existsb_owns st pid cid :
  existsb (owned_key pid cid) (player_cosmetics st) = true <-> owns st pid cid.
Proof. rewrite existsb_get. symmetry. apply owns_get. Qed.

(** X14. [/cosmetics/equip] answers 403 "Cosmetic not owned" and writes
    nothing when the caller has no ownership row for the cosmetic.
    Otherwise it sets the equipped flag of that row to the value asked for
    and leaves every other ownership row, of this and of any other player,
    as it is: equipping one cosmetic unequips none. *)
Theorem equip_flips_one_flag E st tok cid e u1 u2 player :
  requireAuth st tok = inr player -> cid <> "" ->
  let c := mkcall (CosmeticsEquip tok cid e) u1 u2 in
  (~ owns st (Player.id player) cid ->
   handle E st c = (st, status_json 403 "Cosmetic not owned"))
  /\ (owns st (Player.id player) cid ->
      let st' := fst (handle E st c) in
      snd (handle E st c) = json success
      /\ players st' = players st
      /\ (forall r, In r (player_cosmetics st) ->
                    owned_key (Player.id player) cid r = true ->
                    In (Owned.mk (Owned.player_id r) (Owned.cosmetic_id r) e)
                       (player_cosmetics st'))
      /\ (forall r, In r (player_cosmetics st) ->
                    owned_key (Player.id player) cid r = false ->
                    In r (player_cosmetics st'))
      /\ List.length (player_cosmetics st')
         = List.length (player_cosmetics st)).
Proof.
  intros Hauth Hcid c. unfold c, handle. cbn [call_request].
  unfold post_cosmetics_equip. rewrite Hauth.
  replace (falsy cid) with false by (symmetry; now apply String.eqb_neq).
  split.
  - intros Hno. now rewrite (not_owns_get _ _ _ Hno).
  - intros Hown. apply owns_get in Hown.
    destruct (Sql.get _ (player_cosmetics st)) as [found|]; [|congruence].
    cbn zeta. db_simpl. split; [reflexivity|]. split; [reflexivity|].
    split; [|split].
    + intros r Hr Hw.
      pose proof (update_in (owned_key (Player.id player) cid)
                    (Owned.with_equipped e) _ r Hr) as Hu.
      now rewrite Hw in Hu.
    + intros r Hr Hw.
      pose proof (update_in (owned_key (Player.id player) cid)
                    (Owned.with_equipped e) _ r Hr) as Hu.
      now rewrite Hw in Hu.
    + unfold Sql.update. apply length_map.
Qed.

Lemma equip_flips_one_flag_witness :
  handle example_env example_db
    (mkcall (CosmeticsEquip "t-alice" "c-hat" true) "" "")
  = (example_db, status_json 403 "Cosmetic not owned").
Proof.
  assert (Hcid : "c-hat" <> "") by discriminate.
  refine (proj1 (equip_flips_one_flag example_env example_db "t-alice" "c-hat"
                   true "" "" alice eq_refl Hcid) _).
  intros (r & [] & _).
Defined.

(** X15. [/owner/cosmetics/grant] gives the player an ownership row
    without touching any balance and without consulting the catalog or the
    players; when the row is already there it changes nothing, so a second
    grant is a no-op. *)
Theorem grant_is_free_and_idempotent E st pid cid u1 u2 :
  pid <> "" -> cid <> "" ->
  let c := mkcall (OwnerCosmeticsGrant (OWNER_PASSWORD E) pid cid) u1 u2 in
  let st' := fst (handle E st c) in
  snd (handle E st c) = json success
  /\ owns st' pid cid
  /\ players st' = players st
  /\ (owns st pid cid -> st' = st)
  /\ (~ owns st pid cid ->
      player_cosmetics st' = player_cosmetics st ++ [Owned.mk pid cid false])
  /\ handle E st' c = (st', json success).
Proof.
  intros Hpid Hcid c st'.
  assert (Hh : forall s,
             handle E s c
             = (set_player_cosmetics
                  (Sql.insert_or_ignore Owned.conflict (Owned.mk pid cid false)
                     (player_cosmetics s)) s, json success)).
  { intros s. unfold c, handle. cbn [call_request].
    unfold post_owner_cosmetics_grant, requireOwner.
    rewrite String.eqb_refl. cbn [negb].
    replace (falsy pid || falsy cid)%bool with false; [reflexivity|].
    unfold falsy. apply String.eqb_neq in Hpid, Hcid. now rewrite Hpid, Hcid. }
  assert (Hkeep : forall s, owns s pid cid ->
                            Sql.insert_or_ignore Owned.conflict
                              (Owned.mk pid cid false) (player_cosmetics s)
                            = player_cosmetics s).
  { intros s Hs. unfold Sql.insert_or_ignore. rewrite existsb_owned_conflict.
    apply existsb_owns in Hs. now rewrite Hs. }
  assert (Hnew : ~ owns st pid cid ->
                 Sql.insert_or_ignore Owned.conflict
                   (Owned.mk pid cid false) (player_cosmetics st)
                 = player_cosmetics st ++ [Owned.mk pid cid false]).
  { intros Hs. unfold Sql.insert_or_ignore. rewrite existsb_owned_conflict.
    destruct (existsb _ _) eqn:He; auto.
    apply existsb_owns in He. contradiction. }
  assert (Hown' : owns st' pid cid).
  { unfold st'. rewrite Hh. cbn [fst]. unfold owns. db_simpl.
    unfold Sql.insert_or_ignore. rewrite existsb_owned_conflict.
    destruct (existsb _ _) eqn:He.
    - now apply existsb_owns.
    - exists (Owned.mk pid cid false). split; [|now cbn].
      apply in_or_app. right. now left. }
  split; [now rewrite Hh|]. split; [exact Hown'|].
  split; [unfold st'; now rewrite Hh|].
  split; [|split].
  - intros Hs. unfold st'. rewrite Hh. cbn [fst]. rewrite (Hkeep st Hs).
    now destruct st.
  - intros Hs. unfold st'. rewrite Hh. cbn [fst]. db_simpl. now apply Hnew.
  - rewrite Hh. rewrite (Hkeep st' Hown'). now destruct st'.
Qed.

Lemma grant_is_free_and_idempotent_witness :
  owns (fst (handle example_env example_db
               (mkcall (OwnerCosmeticsGrant "admin1234" "p-bob" "c-hat") "" "")))
       "p-bob" "c-hat".
Proof.
  assert (H1 : "p-bob" <> "") by discriminate.
  assert (H2 : "c-hat" <> "") by discriminate.
  exact (proj1 (proj2 (grant_is_free_and_idempotent example_env example_db
                         "p-bob" "c-hat" "" "" H1 H2))).
Defined.

(** X16. [DELETE /owner/cosmetics/:id] removes the catalog entry and every
    ownership row of that cosmetic and keeps all other entries and rows;
    no balance changes, so what players paid for it is not given back. *)
Theorem delete_cosmetic_removes_ownership E st cid u1 u2 :
  let c := mkcall (OwnerCosmeticsDelete (OWNER_PASSWORD E) cid) u1 u2 in
  let st' := fst (handle E st c) in
  snd (handle E st c) = json success
  /\ ~ in_catalog st' cid
  /\ (forall pid, ~ owns st' pid cid)
  /\ players st' = players st
  /\ (forall x, In x (cosmetics_catalog st) -> Cosmetic.id x <> cid ->
                In x (cosmetics_catalog st'))
  /\ (forall r, In r (player_cosmetics st) -> Owned.cosmetic_id r <> cid ->
                In r (player_cosmetics st')).
Proof.
  intros c st'. unfold st', c, handle. cbn [call_request].
  unfold delete_owner_cosmetics, requireOwner.
  rewrite String.eqb_refl. cbn [negb fst snd]. db_simpl.
  split; [reflexivity|]. split; [|split; [|split; [|split]]].
  - intros (x & Hx & Hid). apply in_delete in Hx. destruct Hx as [_ Hw].
    apply String.eqb_neq in Hw. contradiction.
  - intros pid (r & Hr & _ & Hc). apply in_delete in Hr.
    destruct Hr as [_ Hw]. apply String.eqb_neq in Hw. contradiction.
  - reflexivity.
  - intros x Hx Hne. apply in_delete. split; auto. now apply String.eqb_neq.
  - intros r Hr Hne. apply in_delete. split; auto. now apply String.eqb_neq.
Qed.

Lemma delete_cosmetic_removes_ownership_witness :
  ~ in_catalog
      (fst (handle example_env example_db
              (mkcall (OwnerCosmeticsDelete "admin1234" "c-hat") "" "")))
      "c-hat".
Proof.
  exact (proj1 (proj2 (delete_cosmetic_removes_ownership example_env
                         example_db "c-hat" "" ""))).
Defined.

Lemma get_app_left {row} (w : row -> bool) t r :
  w r = false -> Sql.get w (t ++ [r]) = Sql.get w t.
Proof.
  intros Hr. unfold Sql.get. induction t as [|a t IH]; simpl.
  - now rewrite Hr.
  - destruct (w a); auto.
Qed.

(** X17. [/owner/cosmetics/create] answers 400 when the game id, name or
    type is missing.  Otherwise, with an id not yet in the catalog, it
    appends an entry under the drawn id whose price is the one given, or 0
    when none is given, and changes no other entry's price; an
    authenticated player who does not own it and whose balance covers the
    price can buy it at once, at exactly that price when the price, the
    balance and their difference are at most 2^53 in magnitude. *)
Theorem created_cosmetic_can_be_bought E st g n t d price rarity u1 u2 :
  let c := mkcall (OwnerCosmeticsCreate (OWNER_PASSWORD E) g n t d price rarity)
                  u1 u2 in
  let p := match price with Some z => z | None => 0 end in
  ((g = "" \/ n = "" \/ t = "") ->
   handle E st c = (st, status_json 400 "game_id, name, and type required"))
  /\ (g <> "" -> n <> "" -> t <> "" -> ~ in_catalog st u1 ->
      let st' := fst (handle E st c) in
      snd (handle E st c) = json (success_cosmetic_id u1)
      /\ catalog_price st' u1 = Some p
      /\ (forall other, other <> u1 ->
                        catalog_price st' other = catalog_price st other)
      /\ (forall tok player v1 v2,
             unique_player_ids st -> u1 <> "" ->
             requireAuth st tok = inr player ->
             ~ owns st (Player.id player) u1 ->
             p <= Player.credits player ->
             safe p -> safe (Player.credits player) ->
             safe (Player.credits player - p) ->
             snd (handle E st' (mkcall (CosmeticsBuy tok u1) v1 v2))
             = json (success_credits (Player.credits player - p)))).
Proof.
  intros c p. unfold c, handle. cbn [call_request call_uuid1].
  unfold post_owner_cosmetics_create, requireOwner.
  rewrite String.eqb_refl. cbn [negb]. split.
  - intros H.
    assert (Hf : (falsy g || falsy n || falsy t)%bool = true).
    { unfold falsy. destruct H as [ -> | [ -> | -> ] ]; cbn;
        rewrite ?orb_true_r; reflexivity. }
    now rewrite Hf.
  - intros Hg Hn Ht Hfree. rewrite (present3 g n t Hg Hn Ht).
    set (new := Cosmetic.mk u1 g n t d
                  match price with Some z => z | None => 0 end
                  match rarity with Some r => r | None => "common" end).
    assert (Hnew : forall x, In x (cosmetics_catalog st) ->
                             (Cosmetic.id x =? u1)%string = false).
    { intros x Hx. apply String.eqb_neq. intros Hid. apply Hfree.
      exists x. auto. }
    rewrite insert_free.
    2:{ intros x Hx. unfold Cosmetic.conflict, new. cbn.
        rewrite String.eqb_sym. now apply Hnew. }
    cbn zeta. cbn [fst snd]. split; [reflexivity|].
    assert (Hprice : catalog_price
                       (set_cosmetics_catalog (cosmetics_catalog st ++ [new]) st)
                       u1 = Some p).
    { unfold catalog_price. db_simpl. rewrite get_appended; auto.
      unfold new. cbn. apply String.eqb_refl. }
    split; [exact Hprice|]. split.
    + intros other Hne. unfold catalog_price. db_simpl.
      rewrite get_app_left; auto. unfold new. cbn.
      apply String.eqb_neq. congruence.
    + intros tok player v1 v2 Hu Hu1 Hauth Hnot Hle Hsp Hsc Hsd.
      cbn [call_request].
      unfold catalog_price in Hprice. db_simpl.
      destruct (Sql.get _ (cosmetics_catalog st ++ [new])) as [cos|] eqn:Hcat;
        [|discriminate].
      injection Hprice as Hp.
      erewrite buy_accepted_safe with (cosmetic := cos); eauto;
        try (now rewrite Hp).
      now apply not_owns_get.
Qed.

Lemma created_cosmetic_can_be_bought_witness :
  let st' :=
    fst (handle example_env example_db
           (mkcall (OwnerCosmeticsCreate "admin1234" "g1" "Cape" "back" None
                      (Some 7) None) "c-cape" "")) in
  catalog_price st' "c-cape" = Some 7
  /\ snd (handle example_env st' (mkcall (CosmeticsBuy "t-alice" "c-cape") "" ""))
     = json (success_credits (10 - 7)).
Proof.
  intros st'.
  assert (H1 : "g1" <> "") by discriminate.
  assert (H2 : "Cape" <> "") by discriminate.
  assert (H3 : "back" <> "") by discriminate.
  assert (Hfree : ~ in_catalog example_db "c-cape").
  { intros (x & [<-|[]] & Hid). discriminate. }
  destruct (proj2 (created_cosmetic_can_be_bought example_env example_db
                     "g1" "Cape" "back" None (Some 7) None "c-cape" "")
              H1 H2 H3 Hfree) as (_ & Hprice & _ & Hbuy).
  split; [exact Hprice|].
  apply (Hbuy "t-alice" alice "" "").
  - unfold unique_player_ids. distinct_strings.
  - discriminate.
  - reflexivity.
  - intros (r & [] & _).
  - simpl. lia.
  - unfold safe. simpl. lia.
  - unfold safe. simpl. lia.
  - unfold safe. simpl. lia.
Defined.

(** ** Friend requests *)

Lemma existsb_friend_conflict a b s t :
  existsb (Friend.conflict (Friend.mk a b s)) t = existsb (edge a b) t.
Proof.
  induction t as [|x t IH]; simpl; auto.
  now rewrite friend_conflict_edge, IH.
Qed.

Lemma existsb_any_edge st a b :
  existsb (edge a b) (friend_relationships st) = true <-> any_edge st a b.
Proof.
  rewrite existsb_exists. unfold any_edge. split.
  - intros (r & Hr & He). apply edge_true in He. exists r. tauto.
  - intros (r & Hr & Ha & Hb). exists r. split; auto. now apply edge_true.
Qed.

Lemma request_inserts st a b s :
  ~ any_edge st a b ->
  Sql.insert_or_ignore Friend.conflict (Friend.mk a b s)
    (friend_relationships st)
  = friend_relationships st ++ [Friend.mk a b s].
Proof.
  intros Hno. unfold Sql.insert_or_ignore. rewrite existsb_friend_conflict.
  destruct (existsb _ _) eqn:He; auto.
  apply existsb_any_edge in He. contradiction.
Qed.

Lemma request_ignored st a b s :
  any_edge st a b ->
  Sql.insert_or_ignore Friend.conflict (Friend.mk a b s)
    (friend_relationships st)
  = friend_relationships st.
Proof.
  intros Hedge. unfold Sql.insert_or_ignore. rewrite existsb_friend_conflict.
  apply existsb_any_edge in Hedge. now rewrite Hedge.
Qed.

Lemma db_eta_friends st :
  set_friend_relationships (friend_relationships st) st = st.
Proof. now destruct st. Qed.

(** X18. [/friends/request] looks the username up in the caller's own
    game only: when that game has no such player it answers 404, even if
    the name exists in another game.  A request to oneself is answered
    400.  A request for which an edge already exists, pending or
    accepted, succeeds and changes nothing; otherwise one pending edge is
    appended, and a pending edge does not make the friend listed. *)
Theorem friend_request_cases E st tok name u1 u2 player :
  requireAuth st tok = inr player -> name <> "" ->
  let c := mkcall (FriendsRequest tok name) u1 u2 in
  ((forall q, In q (players st) ->
              ~ (Player.game_id q = Player.game_id player
                 /\ Player.username q = name)) ->
   handle E st c = (st, status_json 404 "Player not found in this game"))
  /\ (forall friend,
         Sql.get (by_name (Player.game_id player) name) (players st)
         = Some friend ->
         (Player.id friend = Player.id player ->
          handle E st c = (st, status_json 400 "Cannot add yourself"))
         /\ (Player.id friend <> Player.id player ->
             any_edge st (Player.id player) (Player.id friend) ->
             handle E st c = (st, json success))
         /\ (Player.id friend <> Player.id player ->
             ~ any_edge st (Player.id player) (Player.id friend) ->
             handle E st c
             = (set_friend_relationships
                  (friend_relationships st
                   ++ [Friend.mk (Player.id player) (Player.id friend)
                                 Friend.pending]) st,
                json success)
             /\ ~ listed_friend (fst (handle E st c))
                    (Player.id player) (Player.id friend))).
Proof.
  intros Hauth Hname c. unfold c, handle. cbn [call_request].
  unfold post_friends_request. rewrite Hauth.
  replace (falsy name) with false by (symmetry; now apply String.eqb_neq).
  split.
  - intros Hno.
    destruct (Sql.get _ (players st)) as [q|] eqn:Hq; auto.
    exfalso. apply get_some in Hq. destruct Hq as [Hin Hw].
    apply by_name_true in Hw. exact (Hno q Hin Hw).
  - intros friend ->. split; [|split].
    + intros ->. now rewrite String.eqb_refl.
    + intros Hne Hedge.
      replace (Player.id friend =? Player.id player)%string with false
        by (symmetry; now apply String.eqb_neq).
      rewrite request_ignored by assumption. now rewrite db_eta_friends.
    + intros Hne Hno.
      replace (Player.id friend =? Player.id player)%string with false
        by (symmetry; now apply String.eqb_neq).
      rewrite request_inserts by assumption. split; [reflexivity|].
      cbn [fst]. intros Hl. apply listed_friend_iff in Hl.
      destruct Hl as [(r & Hr & Ha & Hb & Hs) _]. db_simpl.
      apply in_app_or in Hr. destruct Hr as [Hr|[<-|[]]].
      * apply Hno. exists r. auto.
      * discriminate.
Qed.

Lemma friend_request_cases_witness :
  handle example_env example_db (mkcall (FriendsRequest "t-alice" "bob") "" "")
  = (set_friend_relationships
       [Friend.mk "p-alice" "p-bob" Friend.pending] example_db,
     json success).
Proof.
  assert (Hname : "bob" <> "") by discriminate.
  refine (proj1 (proj2 (proj2
            (proj2 (friend_request_cases example_env example_db "t-alice" "bob"
                      "" "" alice eq_refl Hname) bob eq_refl)) _ _)).
  - discriminate.
  - intros (r & [] & _).
Defined.

Lemma request_appends E st tok name u1 u2 player friend :
  requireAuth st tok = inr player -> name <> "" ->
  Sql.get (by_name (Player.game_id player) name) (players st) = Some friend ->
  Player.id friend <> Player.id player ->
  ~ any_edge st (Player.id player) (Player.id friend) ->
  handle E st (mkcall (FriendsRequest tok name) u1 u2)
  = (set_friend_relationships
       (friend_relationships st
        ++ [Friend.mk (Player.id player) (Player.id friend) Friend.pending]) st,
     json success).
Proof.
  intros Hauth Hname Hget Hne Hno. unfold handle. cbn [call_request].
  unfold post_friends_request. rewrite Hauth, Hget.
  replace (falsy name) with false by (symmetry; now apply String.eqb_neq).
  replace (Player.id friend =? Player.id player)%string with false
    by (symmetry; now apply String.eqb_neq).
  now rewrite request_inserts.
Qed.

(** X19. The usual way to friendship: the caller requests a player of the
    same game and that player accepts.  With no edge between the two
    before, the two calls leave both directed edges accepted, and each of
    the two players is listed among the other's friends. *)
Theorem request_then_accept_links_both E st tokp tokf p f u1 u2 u3 u4 :
  requireAuth st tokp = inr p -> requireAuth st tokf = inr f ->
  Player.username f <> "" -> Player.id p <> "" ->
  Player.id f <> Player.id p ->
  Sql.get (by_name (Player.game_id p) (Player.username f)) (players st)
  = Some f ->
  ~ any_edge st (Player.id p) (Player.id f) ->
  ~ any_edge st (Player.id f) (Player.id p) ->
  let st2 :=
    run E st [ mkcall (FriendsRequest tokp (Player.username f)) u1 u2;
               mkcall (FriendsAccept tokf (Player.id p)) u3 u4 ] in
  accepted_edge st2 (Player.id p) (Player.id f)
  /\ accepted_edge st2 (Player.id f) (Player.id p)
  /\ listed_friend st2 (Player.id p) (Player.id f)
  /\ listed_friend st2 (Player.id f) (Player.id p).
Proof.
  intros Hp Hf Hname Hpid Hne Hget Hpf Hfp st2.
  pose proof (requireAuth_inr _ _ _ Hp) as (Hinp & _).
  pose proof (requireAuth_inr _ _ _ Hf) as (Hinf & _).
  set (pf := Friend.mk (Player.id p) (Player.id f) Friend.pending).
  set (t1 := Sql.update (edge (Player.id p) (Player.id f))
               (Friend.with_status Friend.accepted)
               (friend_relationships st ++ [pf])).
  set (fp := Friend.mk (Player.id f) (Player.id p) Friend.accepted).
  assert (Hst2 : st2 = set_friend_relationships (t1 ++ [fp]) st).
  { unfold st2, run. cbn [fold_left].
    rewrite (request_appends E st tokp (Player.username f) u1 u2 p f)
      by assumption.
    cbn [fst]. fold pf. unfold handle. cbn [call_request].
    unfold post_friends_accept.
    rewrite (requireAuth_same_players st) by reflexivity. rewrite Hf.
    replace (falsy (Player.id p)) with false
      by (symmetry; now apply String.eqb_neq).
    db_simpl. fold t1 fp. cbn [fst].
    unfold Sql.insert_or_ignore. unfold fp at 1.
    rewrite existsb_friend_conflict.
    destruct (existsb _ t1) eqn:He; [|now destruct st].
    exfalso. apply existsb_exists in He. destruct He as (x & Hx & Hw).
    unfold t1 in Hx. apply in_update in Hx. destruct Hx as (r & Hr & ->).
    assert (Hr' : edge (Player.id f) (Player.id p) r = true).
    { destruct (edge (Player.id p) (Player.id f) r); [|exact Hw].
      unfold edge in *. cbn in Hw. exact Hw. }
    apply edge_true in Hr'. destruct Hr' as [Ha Hb].
    apply in_app_or in Hr. destruct Hr as [Hr|[<-|[]]].
    - apply Hfp. exists r. auto.
    - cbn in Ha. congruence. }
  assert (Hpf2 : accepted_edge st2 (Player.id p) (Player.id f)).
  { rewrite Hst2. exists (Friend.with_status Friend.accepted pf). db_simpl.
    split; [|now cbn]. apply in_or_app. left. unfold t1.
    assert (Hin : In pf (friend_relationships st ++ [pf]))
      by (apply in_or_app; right; now left).
    pose proof (update_in (edge (Player.id p) (Player.id f))
                  (Friend.with_status Friend.accepted) _ pf Hin) as Hu.
    replace (edge (Player.id p) (Player.id f) pf) with true in Hu; auto.
    symmetry. apply edge_true. now cbn. }
  assert (Hfp2 : accepted_edge st2 (Player.id f) (Player.id p)).
  { rewrite Hst2. exists fp. db_simpl. split; [|now cbn].
    apply in_or_app. right. now left. }
  assert (Hplayers : players st2 = players st) by now rewrite Hst2.
  split; [exact Hpf2|]. split; [exact Hfp2|]. split.
  - apply listed_friend_iff. split; auto. exists f. now rewrite Hplayers.
  - apply listed_friend_iff. split; auto. exists p. now rewrite Hplayers.
Qed.

Lemma request_then_accept_links_both_witness :
  let st2 :=
    run example_env example_db
      [ mkcall (FriendsRequest "t-alice" "bob") "" "";
        mkcall (FriendsAccept "t-bob" "p-alice") "" "" ] in
  listed_friend st2 "p-alice" "p-bob" /\ listed_friend st2 "p-bob" "p-alice".
Proof.
  intros st2.
  assert (H1 : Player.username bob <> "") by discriminate.
  assert (H2 : Player.id alice <> "") by discriminate.
  assert (H3 : Player.id bob <> Player.id alice) by discriminate.
  assert (H4 : ~ any_edge example_db (Player.id alice) (Player.id bob))
    by (intros (r & [] & _)).
  assert (H5 : ~ any_edge example_db (Player.id bob) (Player.id alice))
    by (intros (r & [] & _)).
  destruct (request_then_accept_links_both example_env example_db
              "t-alice" "t-bob" alice bob "" "" "" ""
              eq_refl eq_refl H1 H2 H3 eq_refl H4 H5) as (_ & _ & Ha & Hb).
  split; assumption.
Defined.

(** ** Inventory, further *)

(** X20. [/inventory/remove] answers 404 "Item not found" and writes
    nothing when the caller has no row for the item.  When the quantity to
    remove, an integer (1 if left out), is below the stored one, and both
    and their difference are at most 2^53 in magnitude, the stored
    quantity drops by exactly that much, the metadata stays, and no row of
    another item or player is touched. *)
Theorem remove_item_decrements E st tok n q u1 u2 player :
  requireAuth st tok = inr player -> n <> "" ->
  let c := mkcall (InventoryRemove tok n (option_map js_number q)) u1 u2 in
  let removed := match q with Some z => z | None => 1 end in
  (stack st (Player.id player) n = None ->
   handle E st c = (st, status_json 404 "Item not found"))
  /\ (forall item,
         stack st (Player.id player) n = Some item ->
         removed < Item.quantity item ->
         safe removed -> safe (Item.quantity item) ->
         safe (Item.quantity item - removed) ->
         let st' := fst (handle E st c) in
         snd (handle E st c) = json success
         /\ stack st' (Player.id player) n
            = Some (Item.mk (Item.player_id item) (Item.item_name item)
                            (Item.quantity item - removed) (Item.metadata item))
         /\ (forall r, In r (inventory st) ->
                       item_key (Player.id player) n r = false ->
                       In r (inventory st'))
         /\ List.length (inventory st') = List.length (inventory st)).
Proof.
  intros Hauth Hn c removed. unfold c, handle. cbn [call_request].
  unfold post_inventory_remove, stack. rewrite Hauth.
  replace (falsy n) with false by (symmetry; now apply String.eqb_neq).
  replace (match option_map js_number q with
           | Some v => v
           | None => js_number 1
           end) with (js_number removed) by (destruct q; reflexivity).
  split.
  - intros ->. reflexivity.
  - intros item Hitem Hlt Hsr Hsq Hsd. rewrite Hitem.
    cbn [to_number js_le bind].
    rewrite (dbl_small _ Hsr), (dbl_small _ Hsq).
    replace (Item.quantity item <=? removed) with false
      by (symmetry; apply Z.leb_gt; lia).
    cbn zeta. db_simpl. split; [reflexivity|]. split; [|split].
    + rewrite get_update_commute by (intros []; reflexivity).
      rewrite Hitem. cbn [option_map].
      apply get_some in Hitem. destruct Hitem as [_ ->].
      unfold Item.with_quantity. cbn [sql_sub].
      now rewrite (dbl_small _ Hsq), (dbl_small _ Hsd).
    + intros r Hr Hw.
      pose proof (update_in (item_key (Player.id player) n)
                    (fun r => Item.with_quantity
                                (sql_sub (Item.quantity r) (sql_real removed)) r)
                    _ r Hr) as Hu.
      now rewrite Hw in Hu.
    + unfold Sql.update. apply length_map.
Qed.

Lemma remove_item_decrements_witness :
  let st := set_inventory [Item.mk "p-alice" "sword" 5 (Some "{rare}")]
                          example_db in
  stack (fst (handle example_env st
                (mkcall (InventoryRemove "t-alice" "sword" (Some (js_number 2)))
                        "" "")))
        "p-alice" "sword"
  = Some (Item.mk "p-alice" "sword" (5 - 2) (Some "{rare}")).
Proof.
  intros st.
  assert (Hauth : requireAuth st "t-alice" = inr alice) by reflexivity.
  assert (Hn : "sword" <> "") by discriminate.
  refine (proj1 (proj2
            (proj2 (remove_item_decrements example_env st "t-alice" "sword"
                      (Some 2) "" "" alice Hauth Hn)
               (Item.mk "p-alice" "sword" 5 (Some "{rare}")) eq_refl _ _ _ _))).
  - simpl. lia.
  - unfold safe. simpl. lia.
  - unfold safe. simpl. lia.
  - unfold safe. simpl. lia.
Defined.




(** ** The schema's keys in every reachable state *)

Lemma insert_NoDup {row K} (k : row -> K) c (r : row) t t' :
  (forall x, c r x = false -> k x <> k r) ->
  Sql.insert c r t = Some t' -> NoDup (map k t) -> NoDup (map k t').
Proof.
  intros Hk Hi Hn. apply insert_some in Hi. destruct Hi as [-> Hc].
  rewrite map_app. simpl. apply NoDup_app; auto.
  - constructor; [intros [] | constructor].
  - intros y Hy [<-|[]]. apply in_map_iff in Hy. destruct Hy as (x & Hx & Hin).
    exact (Hk x (Hc x Hin) Hx).
Qed.

Lemma insert_or_ignore_NoDup {row K} (k : row -> K) c (r : row) t :
  (forall x, c r x = false -> k x <> k r) ->
  NoDup (map k t) -> NoDup (map k (Sql.insert_or_ignore c r t)).
Proof.
  intros Hk Hn. unfold Sql.insert_or_ignore.
  destruct (existsb (c r) t) eqn:He; auto.
  apply (insert_NoDup k c r t); auto.
  unfold Sql.insert. now rewrite He.
Qed.

Lemma fold_update_key {row K} (k : row -> K) (w : string -> row -> bool) s ids :
  (forall r, k (s r) = k r) ->
  forall t, map k (fold_left (fun t i => Sql.update (w i) s t) ids t) = map k t.
Proof.
  intros Hs. induction ids as [|i ids IH]; intros t; simpl; auto.
  rewrite IH. now apply update_key.
Qed.

Lemma fold_delete_player_inv (P : db -> Prop) :
  (forall st i, P st -> P (delete_player st i)) ->
  forall ids st, P st -> P (fold_left delete_player ids st).
Proof.
  intros Hstep. induction ids as [|i ids IH]; intros st HP; simpl; auto.
Qed.

Lemma player_conflict_names r x :
  Player.conflict r x = false -> name_key x <> name_key r.
Proof.
  unfold Player.conflict, name_key. intros Hc.
  apply orb_false_iff in Hc. destruct Hc as [_ Hc].
  intros [= Hg Hu]. rewrite Hg, Hu, !String.eqb_refl in Hc. discriminate.
Qed.

Lemma cosmetic_conflict_ids r x :
  Cosmetic.conflict r x = false -> Cosmetic.id x <> Cosmetic.id r.
Proof.
  unfold Cosmetic.conflict. intros Hc Heq.
  rewrite Heq, String.eqb_refl in Hc. discriminate.
Qed.

Lemma owned_conflict_pk r x :
  Owned.conflict r x = false -> owned_pk x <> owned_pk r.
Proof.
  unfold Owned.conflict, owned_pk. intros Hc [= Hp Hcid].
  rewrite Hp, Hcid, !String.eqb_refl in Hc. discriminate.
Qed.

Lemma friend_conflict_pk r x :
  Friend.conflict r x = false -> friend_pk x <> friend_pk r.
Proof.
  unfold Friend.conflict, friend_pk. intros Hc [= Hp Hf].
  rewrite Hp, Hf, !String.eqb_refl in Hc. discriminate.
Qed.

Ltac keys_step :=
  unfold_handlers;
  match goal with
  | |- context [call_request ?c] => destruct (call_request c)
  end;
  repeat break_match; db_simpl; rewrite ?read_back_state; auto;
  unfold delete_player; db_simpl;
  try (match goal with
       | |- context [fold_left delete_player _ _] => fail 1
       | |- _ => idtac
       end;
       repeat first
         [ assumption
         | rewrite update_key by (intros []; reflexivity)
         | rewrite fold_update_key by (intros []; reflexivity)
         | apply delete_NoDup
         | eapply insert_NoDup;
           [ first [ apply player_conflict_names | apply cosmetic_conflict_ids
                   | apply owned_conflict_pk | apply friend_conflict_pk ]
           | eassumption | ]
         | apply insert_or_ignore_NoDup;
           [ first [ apply owned_conflict_pk | apply friend_conflict_pk ] | ] ]).

Lemma handle_unique_names E st c :
  NoDup (map name_key (players st)) ->
  NoDup (map name_key (players (fst (handle E st c)))).
Proof.
  intros Hn. keys_step.
  apply (fold_delete_player_inv
           (fun d => NoDup (map name_key (players  d)))); auto.
  intros d j Hd. rewrite players_delete_player. now apply delete_NoDup.
Qed.

Lemma handle_unique_catalog E st c :
  NoDup (map Cosmetic.id (cosmetics_catalog st)) ->
  NoDup (map Cosmetic.id (cosmetics_catalog (fst (handle E st c)))).
Proof.
  intros Hn. keys_step.
  apply (fold_delete_player_inv
           (fun d => NoDup (map Cosmetic.id (cosmetics_catalog  d)))); auto.
Qed.

Lemma handle_unique_owned E st c :
  NoDup (map owned_pk (player_cosmetics st)) ->
  NoDup (map owned_pk (player_cosmetics (fst (handle E st c)))).
Proof.
  intros Hn. keys_step.
  apply (fold_delete_player_inv
           (fun d => NoDup (map owned_pk (player_cosmetics  d)))); auto.
  intros d j Hd. unfold delete_player. db_simpl. now apply delete_NoDup.
Qed.

Lemma handle_unique_friends E st c :
  NoDup (map friend_pk (friend_relationships st)) ->
  NoDup (map friend_pk (friend_relationships (fst (handle E st c)))).
Proof.
  intros Hn. keys_step.
  apply (fold_delete_player_inv
           (fun d => NoDup (map friend_pk (friend_relationships  d)))); auto.
Qed.

Lemma handle_primary_keys E st c :
  primary_keys st -> primary_keys (fst (handle E st c)).
Proof.
  intros (H1 & H2 & H3 & H4 & H5 & H6). repeat split.
  - now apply handle_unique_ids.
  - now apply handle_unique_names.
  - now apply handle_unique_catalog.
  - now apply handle_unique_owned.
  - now apply handle_unique_item_keys.
  - now apply handle_unique_friends.
Qed.

(** X22. Whatever calls arrive, in whatever order and with whatever
    arguments and drawn uuids, starting from the empty database every
    table keeps its keys: player ids, (game id, username) pairs, catalog
    ids, (player, cosmetic) ownership rows, (player, item name) inventory
    rows and (player, friend) edges are each unique. *)
Theorem keys_hold_in_every_reachable_state E cs :
  primary_keys (run E empty_db cs).
Proof.
  assert (H : forall st, primary_keys st -> primary_keys (run E st cs)).
  { induction cs as [|c cs IH]; intros st Hst; [exact Hst|].
    rewrite run_cons. apply IH. now apply handle_primary_keys. }
  apply H. repeat split; constructor.
Qed.

(** ** The credits leaderboard *)

Lemma insert_desc_perm p l : Permutation (insert_desc p l) (p :: l).
Proof.
  induction l as [|q l IH]; simpl; auto.
  destruct (Player.credits q <=? Player.credits p); auto.
  rewrite IH. apply perm_swap.
Qed.

Lemma order_by_credits_perm t : Permutation (order_by_credits_desc t) t.
Proof.
  unfold order_by_credits_desc. induction t as [|p t IH]; simpl; auto.
  rewrite insert_desc_perm. now constructor.
Qed.

Lemma insert_desc_sorted p l :
  Sorted richer_first l -> Sorted richer_first (insert_desc p l).
Proof.
  induction l as [|q l IH]; simpl; intros Hs.
  - repeat constructor.
  - destruct (Player.credits q <=? Player.credits p) eqn:Hle.
    + apply Z.leb_le in Hle. constructor; auto.
    + apply Z.leb_gt in Hle. inversion Hs as [|? ? Hs' Hhd]; subst.
      constructor; auto.
      destruct l as [|r l]; simpl.
      * constructor. unfold richer_first. lia.
      * destruct (Player.credits r <=? Player.credits p).
        -- constructor. unfold richer_first. lia.
        -- inversion Hhd; subst. now constructor.
Qed.

Lemma order_by_credits_sorted t :
  StronglySorted richer_first (order_by_credits_desc t).
Proof.
  apply Sorted_StronglySorted.
  - intros a b c Hab Hbc. unfold richer_first in *. lia.
  - unfold order_by_credits_desc. induction t as [|p t IH]; simpl.
    + constructor.
    + now apply insert_desc_sorted.
Qed.

Lemma sorted_app_split {A} (R : A -> A -> Prop) l1 l2 :
  StronglySorted R (l1 ++ l2) ->
  StronglySorted R l1 /\ forall a b, In a l1 -> In b l2 -> R a b.
Proof.
  induction l1 as [|x l1 IH]; simpl; intros Hs.
  - split; [constructor | intros a b []].
  - inversion Hs as [|? ? Hs' Hall]; subst.
    destruct (IH Hs') as [H1 H2]. rewrite Forall_forall in Hall. split.
    + constructor; auto. apply Forall_forall. intros y Hy.
      apply Hall. apply in_or_app. now left.
    + intros a b [<-|Ha] Hb; auto. apply Hall. apply in_or_app. now right.
Qed.

Lemma nth_error_numbered {A} (rows : list A) : forall start i r,
  nth_error rows i = Some r ->
  nth_error (combine (seq start (List.length rows)) rows) i
  = Some ((start + i)%nat, r).
Proof.
  induction rows as [|x rows IH]; intros start i r Hi.
  - destruct i; discriminate.
  - destruct i as [|i]; simpl in *.
    + injection Hi as ->. now rewrite Nat.add_0_r.
    + rewrite (IH (S start) i r Hi). f_equal. f_equal. lia.
Qed.

(** X23. [/leaderboard/credits] answers 400 without a game id.  With one,
    the board holds only players of that game who are not banned, in order
    of non-increasing credits, ranked 1, 2, 3, ... by position.  It has
    min(limit, eligible players) rows, all eligible players when the limit
    is negative, and 10 is the limit when none is given.  No eligible
    player left off the board has more credits than a player on it. *)
Theorem leaderboard_is_the_top_by_credits st g limit :
  (g = "" ->
   get_leaderboard_credits st g limit = inl (status_json 400 "game_id required"))
  /\ (g <> "" ->
      let rows := leaderboard_rows st g limit in
      let n := match limit with Some z => z | None => 10 end in
      let eligible := Sql.all (on_board g) (players st) in
      get_leaderboard_credits st g limit = inr (ranked rows)
      /\ (forall p, In p rows ->
                    In p (players st) /\ Player.game_id p = g
                    /\ Player.banned p = false)
      /\ StronglySorted richer_first rows
      /\ List.length rows
         = (if n <? 0 then List.length eligible
            else Nat.min (Z.to_nat n) (List.length eligible))
      /\ (forall p r, In p eligible -> ~ In p rows -> In r rows ->
                      Player.credits p <= Player.credits r)
      /\ (forall i r, nth_error rows i = Some r ->
                      nth_error (ranked rows) i
                      = Some (S i, Player.id r, Player.username r,
                              Player.credits r))).
Proof.
  split.
  - intros ->. reflexivity.
  - intros Hg rows n eligible.
    pose proof (order_by_credits_perm eligible) as Hperm.
    pose proof (order_by_credits_sorted eligible) as Hsorted.
    set (sorted := order_by_credits_desc eligible) in *.
    assert (Hrows : rows = sql_limit n sorted) by reflexivity.
    assert (Hsub : forall p, In p rows -> In p sorted).
    { intros p Hp. rewrite Hrows in Hp. unfold sql_limit in Hp.
      destruct (n <? 0); auto. rewrite <- (firstn_skipn (Z.to_nat n) sorted).
      apply in_or_app. now left. }
    split; [|split; [|split; [|split; [|split]]]].
    + unfold get_leaderboard_credits.
      replace (falsy g) with false by (symmetry; now apply String.eqb_neq).
      reflexivity.
    + intros p Hp. apply Hsub in Hp.
      apply (Permutation_in _ Hperm) in Hp. unfold eligible, Sql.all in Hp.
      apply filter_In in Hp. destruct Hp as [Hin Hw]. unfold on_board in Hw.
      apply andb_true_iff in Hw. destruct Hw as [Hgame Hban].
      apply String.eqb_eq in Hgame. apply negb_true_iff in Hban. auto.
    + rewrite Hrows. unfold sql_limit. destruct (n <? 0); auto.
      rewrite <- (firstn_skipn (Z.to_nat n) sorted) in Hsorted.
      now apply sorted_app_split in Hsorted.
    + rewrite Hrows. unfold sql_limit.
      rewrite <- (Permutation_length Hperm).
      destruct (n <? 0); auto. apply length_firstn.
    + intros p r Hp Hnot Hr. rewrite Hrows in Hnot, Hr. unfold sql_limit in *.
      apply (Permutation_in _ (Permutation_sym Hperm)) in Hp.
      destruct (n <? 0); [contradiction|].
      rewrite <- (firstn_skipn (Z.to_nat n) sorted) in Hsorted, Hp.
      apply sorted_app_split in Hsorted. destruct Hsorted as [_ Hcross].
      apply in_app_or in Hp. destruct Hp as [Hp|Hp]; [contradiction|].
      exact (Hcross r p Hr Hp).
    + intros i r Hi. unfold ranked.
      rewrite nth_error_map, (nth_error_numbered rows 0 i r Hi). reflexivity.
Qed.

Lemma leaderboard_is_the_top_by_credits_witness :
  get_leaderboard_credits board_db "g1" (Some 2)
  = inr [ (1%nat, "p-carol", "carol", 30); (2%nat, "p-dave", "dave", 20) ].
Proof.
  assert (Hg : "g1" <> "") by discriminate.
  exact (proj1 (proj2 (leaderboard_is_the_top_by_credits board_db "g1" (Some 2))
                  Hg)).
Defined.

(** ** Save data *)


Lemma data_key_true pid k r :
  data_key pid k r = true <-> data_pk r = (pid, k).
Proof.
  unfold data_key, data_pk. rewrite andb_true_iff, !String.eqb_eq.
  split; [intros [-> ->]; reflexivity | intros [= -> ->]; auto].
Qed.

Lemma get_delete_other {row} (w w0 : row -> bool) t :
  (forall x, w x = true -> w0 x = false) ->
  Sql.get w (Sql.delete w0 t) = Sql.get w t.
Proof.
  intros Hw. unfold Sql.get, Sql.delete.
  induction t as [|a t IH]; simpl; auto.
  destruct (w a) eqn:Ha.
  - rewrite (Hw a Ha). simpl. now rewrite Ha.
  - destruct (negb (w0 a)); simpl; [rewrite Ha|]; exact IH.
Qed.

Lemma get_delete_same {row} (w : row -> bool) t : Sql.get w (Sql.delete w t) = None.
Proof.
  destruct (Sql.get w (Sql.delete w t)) as [x|] eqn:Hg; auto.
  apply get_some in Hg. destruct Hg as [Hin Hw].
  apply in_delete in Hin. destruct Hin as [_ Hw']. congruence.
Qed.

Lemma delete_nothing {row} (w : row -> bool) t :
  (forall x, In x t -> w x = false) -> Sql.delete w t = t.
Proof.
  intros Hw. unfold Sql.delete. induction t as [|a t IH]; simpl; auto.
  rewrite (Hw a) by (simpl; auto). simpl. f_equal. apply IH.
  intros x Hx. apply Hw. simpl; auto.
Qed.










(** X25. [DELETE /save/:key] always answers an authenticated player with
    success.  Afterwards the caller has nothing stored under the key,
    every other key of the caller and all data of other players is as
    before, and when the key held nothing the table is unchanged. *)
Theorem delete_save_removes_one_key st pd tok k player :
  requireAuth st tok = inr player ->
  let pid := Player.id player in
  let pd' := fst (delete_save st pd tok k) in
  snd (delete_save st pd tok k) = json success
  /\ saved pd' pid k = None
  /\ (forall pid' k', (pid', k') <> (pid, k) ->
                      saved pd' pid' k' = saved pd pid' k')
  /\ (NoDup (map data_pk pd) -> NoDup (map data_pk pd'))
  /\ (saved pd pid k = None -> pd' = pd).
Proof.
  intros Hauth pid pd'. unfold pd', delete_save. rewrite Hauth. fold pid.
  cbn [fst snd]. split; [reflexivity|]. split; [|split; [|split]].
  - unfold saved. now rewrite get_delete_same.
  - intros pid' k' Hne. unfold saved. rewrite get_delete_other; auto.
    intros x Hx. apply data_key_true in Hx.
    destruct (data_key pid k x) eqn:Hk; auto.
    apply data_key_true in Hk. congruence.
  - apply delete_NoDup.
  - unfold saved. intros Hnone. apply delete_nothing. intros x Hx.
    destruct (Sql.get (data_key pid k) pd) eqn:Hg; [discriminate|].
    exact (get_none _ _ x Hg Hx).
Qed.

Lemma delete_save_removes_one_key_witness :
  fst (delete_save example_db
         [Data.mk "p-alice" "level" "3"; Data.mk "p-bob" "level" "8"]
         "t-alice" "level")
  = [Data.mk "p-bob" "level" "8"]
  /\ saved (fst (delete_save example_db
                   [Data.mk "p-alice" "level" "3"; Data.mk "p-bob" "level" "8"]
                   "t-alice" "level")) "p-alice" "level" = None.
Proof.
  split; [reflexivity|].
  exact (proj1 (proj2 (delete_save_removes_one_key example_db
                         [Data.mk "p-alice" "level" "3";
                          Data.mk "p-bob" "level" "8"]
                         "t-alice" "level" alice eq_refl))).
Defined.

(** ** Game configuration *)

Lemma config_conflict_key g k v x :
  Config.conflict (Config.mk g k v) x = config_key g k x.
Proof.
  unfold Config.conflict, config_key. simpl.
  now rewrite (String.eqb_sym g), (String.eqb_sym k).
Qed.

Lemma config_key_true g k r :
  config_key g k r = true <-> config_pk r = (g, k).
Proof.
  unfold config_key, config_pk. rewrite andb_true_iff, !String.eqb_eq.
  split; [intros [-> ->]; reflexivity | intros [= -> ->]; auto].
Qed.

Lemma existsb_config_conflict g k v t :
  existsb (Config.conflict (Config.mk g k v)) t = existsb (config_key g k) t.
Proof.
  induction t as [|a t IH]; simpl; auto.
  now rewrite config_conflict_key, IH.
Qed.

Lemma config_upsert_get g k v cfg :
  Sql.get (config_key g k)
    (Sql.insert_on_conflict_update Config.conflict
       (fun excluded old => Config.with_value (Config.value excluded) old)
       (Config.mk g k v) cfg)
  = Some (Config.mk g k v).
Proof.
  unfold Sql.insert_on_conflict_update. rewrite existsb_config_conflict.
  destruct (existsb (config_key g k) cfg) eqn:He.
  - rewrite get_update_commute by (intros []; reflexivity).
    apply existsb_get in He.
    destruct (Sql.get (config_key g k) cfg) as [r|] eqn:Hg; [|congruence].
    cbn [option_map]. rewrite config_conflict_key.
    apply get_some in Hg. destruct Hg as [_ Hk]. rewrite Hk.
    apply config_key_true in Hk. destruct r as [g0 k0 v0].
    unfold config_pk in Hk. cbn in *. now injection Hk as -> ->.
  - apply get_appended.
    + intros x Hx. destruct (config_key g k x) eqn:Hk; auto.
      assert (existsb (config_key g k) cfg = true)
        by (apply existsb_exists; eauto).
      congruence.
    + unfold config_key. cbn. now rewrite !String.eqb_refl.
Qed.

Lemma config_upsert_other g k v cfg g' k' :
  (g', k') <> (g, k) ->
  Sql.get (config_key g' k')
    (Sql.insert_on_conflict_update Config.conflict
       (fun excluded old => Config.with_value (Config.value excluded) old)
       (Config.mk g k v) cfg)
  = Sql.get (config_key g' k') cfg.
Proof.
  intros Hne. unfold Sql.insert_on_conflict_update.
  destruct (existsb _ cfg).
  - rewrite get_update_commute by (intros []; reflexivity).
    destruct (Sql.get (config_key g' k') cfg) as [r|] eqn:Hg; auto.
    cbn [option_map]. rewrite config_conflict_key.
    apply get_some in Hg. destruct Hg as [_ Hk]. apply config_key_true in Hk.
    destruct (config_key g k r) eqn:Hk'; auto.
    apply config_key_true in Hk'. congruence.
  - apply get_app_left.
    destruct (config_key g' k' (Config.mk g k v)) eqn:Hk; auto.
    apply config_key_true in Hk. unfold config_pk in Hk. cbn in Hk. congruence.
Qed.

Lemma config_upsert_pk g k v cfg :
  NoDup (map config_pk cfg) ->
  NoDup (map config_pk
           (Sql.insert_on_conflict_update Config.conflict
              (fun excluded old => Config.with_value (Config.value excluded) old)
              (Config.mk g k v) cfg)).
Proof.
  intros Hn. unfold Sql.insert_on_conflict_update.
  rewrite existsb_config_conflict.
  destruct (existsb (config_key g k) cfg) eqn:He.
  - rewrite (update_key config_pk) by (intros; reflexivity). exact Hn.
  - rewrite map_app. simpl. apply NoDup_app; auto.
    + constructor; [intros [] | constructor].
    + intros y Hy [<-|[]]. apply in_map_iff in Hy.
      destruct Hy as (x & Hx & Hin).
      assert (Ht : existsb (config_key g k) cfg = true).
      { apply existsb_exists. exists x. split; auto.
        apply config_key_true. exact Hx. }
      congruence.
Qed.

(** X26. [POST /owner/config/set] answers 400 when the game id, the key
    or the value is missing.  Otherwise it stores the value under (game
    id, key), a string as it is and anything else as its JSON text, and
    changes no other key; the table keeps one row per (game id, key).
    [GET /config/:key] then answers what the stored text parses to, or
    the text itself when it does not parse: a value that is not a string
    comes back as it went in, while a string that happens to be JSON text
    comes back as the value it denotes, not as the string. *)
Theorem config_set_then_get {J} (C : JSON J) E cfg g k v :
  g <> "" -> k <> "" ->
  let set value := post_owner_config_set C E cfg (OWNER_PASSWORD E) g k value in
  let cfg' := fst (set (Some v)) in
  set None = (cfg, status_json 400 "game_id, key, and value required")
  /\ snd (set (Some v)) = json success
  /\ (NoDup (map config_pk cfg) -> NoDup (map config_pk cfg'))
  /\ get_config_key C cfg' g k = inr (decode C (serialized C v))
  /\ (as_string C v = None -> parse C (stringify C v) = Some v ->
      get_config_key C cfg' g k = inr (parsed v))
  /\ (forall s j, as_string C v = Some s -> parse C s = Some j ->
                  get_config_key C cfg' g k = inr (parsed j))
  /\ (forall s, as_string C v = Some s -> parse C s = None ->
                get_config_key C cfg' g k = inr (raw s))
  /\ (forall g' k', (g', k') <> (g, k) ->
                    get_config_key C cfg' g' k' = get_config_key C cfg g' k').
Proof.
  intros Hg Hk set cfg'.
  assert (Hfields : (falsy g || falsy k)%bool = false)
    by (unfold falsy; apply String.eqb_neq in Hg, Hk; now rewrite Hg, Hk).
  assert (Hgf : falsy g = false) by now apply String.eqb_neq.
  assert (Hset : set (Some v)
                 = (Sql.insert_on_conflict_update Config.conflict
                      (fun excluded old =>
                         Config.with_value (Config.value excluded) old)
                      (Config.mk g k (serialized C v)) cfg, json success)).
  { unfold set, post_owner_config_set, requireOwner.
    now rewrite String.eqb_refl, Hfields. }
  assert (Hget : get_config_key C cfg' g k = inr (decode C (serialized C v))).
  { unfold cfg'. rewrite Hset. cbn [fst]. unfold get_config_key.
    now rewrite Hgf, config_upsert_get. }
  split.
  { unfold set, post_owner_config_set, requireOwner.
    now rewrite String.eqb_refl. }
  split; [now rewrite Hset|]. split.
  { intros Hn. unfold cfg'. rewrite Hset. cbn [fst].
    now apply config_upsert_pk. }
  split; [exact Hget|]. split; [|split; [|split]].
  - intros Hs Hround. rewrite Hget. unfold serialized, decode.
    now rewrite Hs, Hround.
  - intros s j Hs Hp. rewrite Hget. unfold serialized, decode.
    now rewrite Hs, Hp.
  - intros s Hs Hp. rewrite Hget. unfold serialized, decode.
    now rewrite Hs, Hp.
  - intros g' k' Hne. unfold cfg'. rewrite Hset. cbn [fst].
    unfold get_config_key. destruct (falsy g'); auto.
    now rewrite config_upsert_other.
Qed.

Lemma config_set_then_get_witness :
  get_config_key example_json
    (fst (post_owner_config_set example_json example_env
            [Config.mk "g1" "max_lives" "3"] "admin1234" "g1" "max_lives"
            (Some (jstr "5"))))
    "g1" "max_lives"
  = inr (parsed (jnum 5)).
Proof.
  assert (Hg : "g1" <> "") by discriminate.
  assert (Hk : "max_lives" <> "") by discriminate.
  exact (proj1 (proj2 (proj2 (proj2 (proj2 (proj2
           (config_set_then_get example_json example_env
              [Config.mk "g1" "max_lives" "3"] "g1" "max_lives" (jstr "5")
              Hg Hk))))))
           "5" (jnum 5) eq_refl eq_refl).
Defined.

(** X27. [GET /config/:key] answers 400 without a game id and 404 "Key not
    found" for a key the game does not have.  [DELETE
    /owner/config/:game_id/:key] always answers the owner with success;
    afterwards the key is answered 404 and every other key as before. *)
Theorem config_missing_and_deleted_keys {J} (C : JSON J) E cfg g k :
  get_config_key C cfg "" k = inl (status_json 400 "game_id required")
  /\ (g <> "" -> Sql.get (config_key g k) cfg = None ->
      get_config_key C cfg g k = inl (status_json 404 "Key not found"))
  /\ (g <> "" ->
      let cfg' := fst (delete_owner_config E cfg (OWNER_PASSWORD E) g k) in
      snd (delete_owner_config E cfg (OWNER_PASSWORD E) g k) = json success
      /\ get_config_key C cfg' g k = inl (status_json 404 "Key not found")
      /\ (forall g' k', (g', k') <> (g, k) ->
                        get_config_key C cfg' g' k'
                        = get_config_key C cfg g' k')
      /\ (NoDup (map config_pk cfg) -> NoDup (map config_pk cfg'))).
Proof.
  split; [reflexivity|]. split.
  - intros Hg Hnone. unfold get_config_key.
    replace (falsy g) with false by (symmetry; now apply String.eqb_neq).
    now rewrite Hnone.
  - intros Hg cfg'. unfold cfg', delete_owner_config, requireOwner.
    rewrite String.eqb_refl. cbn [negb fst snd].
    split; [reflexivity|]. split; [|split].
    + unfold get_config_key.
      replace (falsy g) with false by (symmetry; now apply String.eqb_neq).
      now rewrite get_delete_same.
    + intros g' k' Hne. unfold get_config_key. destruct (falsy g'); auto.
      rewrite get_delete_other; auto. intros x Hx.
      apply config_key_true in Hx.
      destruct (config_key g k x) eqn:Hk; auto.
      apply config_key_true in Hk. congruence.
    + apply delete_NoDup.
Qed.

Lemma config_missing_and_deleted_keys_witness :
  get_config_key example_json
    (fst (delete_owner_config example_env
            [Config.mk "g1" "max_lives" "3"; Config.mk "g1" "speed" "2"]
            "admin1234" "g1" "max_lives"))
    "g1" "max_lives"
  = inl (status_json 404 "Key not found").
Proof.
  assert (Hg : "g1" <> "") by discriminate.
  exact (proj1 (proj2
           (proj2 (proj2 (config_missing_and_deleted_keys example_json
                            example_env
                            [Config.mk "g1" "max_lives" "3";
                             Config.mk "g1" "speed" "2"]
                            "g1" "max_lives")) Hg))).
Defined.

(** ** Bulk ban *)

Lemma fold_ban_map b ids : forall t,
  fold_left (fun t i => Sql.update (by_id i) (Player.with_banned b) t) ids t
  = map (fun r => if existsb (String.eqb (Player.id r)) ids
                  then Player.with_banned b r else r) t.
Proof.
  induction ids as [|i ids IH]; intros t.
  - cbn [fold_left existsb]. now rewrite map_id.
  - cbn [fold_left]. rewrite IH. unfold Sql.update. rewrite map_map.
    apply map_ext. intros r. cbn [existsb]. unfold by_id.
    destruct (Player.id r =? i)%string eqn:Hi; cbn [orb].
    + cbn [Player.with_banned Player.id].
      destruct (existsb _ ids); now destruct r.
    + reflexivity.
Qed.

(** X28. [/owner/bulk/ban] rejects an empty batch with 400.  Otherwise it
    answers the number of ids given and, with no [banned] field, bans:
    every authenticated player whose id is in the batch is answered 403
    afterwards, and the rows of players not in the batch are unchanged. *)
Theorem bulk_ban_locks_out_the_batch E st ids u1 u2 :
  let c := mkcall (OwnerBulkBan (OWNER_PASSWORD E) ids None) u1 u2 in
  (ids = [] ->
   handle E st c = (st, status_json 400 "player_ids array required"))
  /\ (ids <> [] ->
      let st' := fst (handle E st c) in
      snd (handle E st c) = json (success_updated (List.length ids))
      /\ (forall tok player,
             requireAuth st tok = inr player -> In (Player.id player) ids ->
             requireAuth st' tok = inl (status_json 403 "Account banned"))
      /\ (forall q, In q (players st) -> ~ In (Player.id q) ids ->
                    In q (players st'))).
Proof.
  intros c. unfold c, handle. cbn [call_request].
  unfold post_owner_bulk_ban, requireOwner.
  rewrite String.eqb_refl. cbn [negb]. split.
  - intros ->. reflexivity.
  - intros Hne. destruct ids as [|i ids]; [contradiction|].
    cbn zeta. cbn [fst snd truthy_default]. split; [reflexivity|].
    rewrite fold_ban_map. split.
    + intros tok player Hauth Hin.
      assert (Hex : existsb (String.eqb (Player.id player)) (i :: ids) = true).
      { apply existsb_exists. exists (Player.id player). split; auto.
        apply String.eqb_refl. }
      unfold requireAuth, getPlayer in *. db_simpl.
      destruct (falsy tok); [discriminate|].
      change (map (fun r => if existsb (String.eqb (Player.id r)) (i :: ids)
                            then Player.with_banned true r else r) (players st))
        with (Sql.update (fun r => existsb (String.eqb (Player.id r)) (i :: ids))
                (Player.with_banned true) (players st)).
      rewrite get_update_commute by (intros []; reflexivity).
      destruct (Sql.get (by_token tok) (players st)) as [q|]; [|discriminate].
      destruct (Player.banned q); [discriminate|]. injection Hauth as ->.
      cbn [option_map]. now rewrite Hex.
    + intros q Hq Hnot. db_simpl. apply in_map_iff. exists q. split; auto.
      destruct (existsb _ (i :: ids)) eqn:Hex; auto.
      apply existsb_exists in Hex. destruct Hex as (x & Hx & Heq).
      apply String.eqb_eq in Heq. subst x. contradiction.
Qed.

Lemma bulk_ban_locks_out_the_batch_witness :
  requireAuth
    (fst (handle example_env example_db
            (mkcall (OwnerBulkBan "admin1234" ["p-bob"; "p-alice"] None) "" "")))
    "t-alice"
  = inl (status_json 403 "Account banned").
Proof.
  refine (proj1 (proj2
            (proj2 (bulk_ban_locks_out_the_batch example_env example_db
                      ["p-bob"; "p-alice"] "" "") _))
            "t-alice" alice eq_refl _).
  - discriminate.
  - simpl. auto.
Defined.

(** ** Credits in circulation *)

Lemma sum_credits_shift d i (t : list Player.row) player :
  NoDup (map Player.id t) -> In player t -> Player.id player = i ->
  sum_credits
    (Sql.update (by_id i)
       (fun p => Player.with_credits (Player.credits p + d) p) t)
  = sum_credits t + d.
Proof.
  intros Hn Hin Hid. induction t as [|a t IH]; [contradiction|].
  inversion Hn as [|? ? Hnotin Hrest]; subst.
  unfold Sql.update in *. cbn [map sum_credits fold_right].
  fold (sum_credits t).
  fold (sum_credits (map (fun r => if by_id (Player.id player) r
                                   then Player.with_credits
                                          (Player.credits r + d) r
                                   else r) t)).
  destruct Hin as [->|Hin].
  - replace (by_id (Player.id player) player) with true
      by (symmetry; now apply by_id_true).
    fold (Sql.update (by_id (Player.id player))
            (fun p => Player.with_credits (Player.credits p + d) p) t).
    rewrite update_none.
    + cbn. lia.
    + intros r Hr. unfold by_id. apply String.eqb_neq. intros Heq.
      apply Hnotin. rewrite <- Heq. now apply in_map.
  - replace (by_id (Player.id player) a) with false.
    + rewrite IH by assumption. lia.
    + symmetry. unfold by_id. apply String.eqb_neq. intros Heq.
      apply Hnotin. rewrite Heq. now apply in_map.
Qed.

(** X29. [GET /owner/stats] needs the owner password, and reports the sum
    of all balances as JavaScript reads it.  That sum moves with the
    ledger: an accepted spend of an integer amount from a balance of at
    most 2^53 lowers it by the amount spent; an accepted add raises it by
    the amount added when the amount, the balance and the new balance are
    at most 2^53 in magnitude; and a registration adds a player without
    changing it. *)
Theorem total_credits_follow_the_ledger E st tok a u1 u2 player :
  unique_player_ids st -> requireAuth st tok = inr player -> 0 < a ->
  (forall k, k <> OWNER_PASSWORD E ->
             get_owner_stats E st k = inl (status_json 403 "Not authorized"))
  /\ (exists players_ games banned cosmetics,
         get_owner_stats E st (OWNER_PASSWORD E)
         = inr (players_, games, dbl (total_credits st), banned, cosmetics))
  /\ (a <= Player.credits player -> safe (Player.credits player) ->
      total_credits
        (fst (handle E st (mkcall (CreditsSpend tok (Some (js_number a))) u1 u2)))
      = total_credits st - a)
  /\ (safe a -> safe (Player.credits player) ->
      safe (Player.credits player + a) ->
      total_credits
        (fst (handle E st (mkcall (CreditsAdd tok (Some (js_number a))) u1 u2)))
      = total_credits st + a)
  /\ (forall g u pw st' b,
         handle E st (mkcall (Register g u pw) u1 u2) = (st', json b) ->
         total_credits st' = total_credits st
         /\ List.length (players st') = S (List.length (players st))).
Proof.
  intros Hn Hauth Ha.
  pose proof (requireAuth_inr _ _ _ Hauth) as (Hin & _).
  split; [|split; [|split; [|split]]].
  - intros k Hk. unfold get_owner_stats, requireOwner.
    apply String.eqb_neq in Hk. now rewrite Hk.
  - unfold get_owner_stats, requireOwner. rewrite String.eqb_refl. cbn [negb].
    eauto.
  - intros Hle Hsc. unfold handle. cbn [call_request].
    rewrite (spend_accepted E st tok a player Hn Hauth Ha Hle Hsc). cbn [fst].
    unfold total_credits. db_simpl.
    change (fun p => Player.with_credits (Player.credits p - a) p)
      with (fun p => Player.with_credits (Player.credits p + - a) p).
    rewrite (sum_credits_shift (- a) _ _ player) by auto. reflexivity.
  - intros Hsa Hsc Hss. unfold handle. cbn [call_request].
    rewrite (add_accepted E st tok a player Hn Hauth Ha Hsa Hsc Hss). cbn [fst].
    unfold total_credits. db_simpl.
    rewrite (sum_credits_shift a _ _ player) by auto. reflexivity.
  - intros g u pw st' b Hreg. unfold handle in Hreg.
    cbn [call_request call_uuid1 call_uuid2] in Hreg.
    apply register_success in Hreg. destruct Hreg as (-> & _ & _).
    unfold total_credits. db_simpl. split.
    + unfold sum_credits. rewrite fold_right_app. reflexivity.
    + rewrite length_app. cbn. lia.
Qed.

Lemma total_credits_follow_the_ledger_witness :
  total_credits
    (fst (handle example_env example_db
            (mkcall (CreditsSpend "t-alice" (Some (js_number 4))) "" "")))
  = total_credits example_db - 4.
Proof.
  refine (proj1 (proj2 (proj2
            (total_credits_follow_the_ledger example_env example_db "t-alice" 4
               "" "" alice _ eq_refl _))) _ _).
  - unfold unique_player_ids. distinct_strings.
  - lia.
  - simpl. lia.
  - unfold safe. simpl. lia.
Defined.

(** ** The owned-cosmetics listing *)

Lemma cosmetics_owned_iff st pid c e :
  In (c, e) (cosmetics_owned st pid)
  <-> In c (cosmetics_catalog st)
      /\ exists r, In r (player_cosmetics st)
                   /\ Owned.player_id r = pid
                   /\ Owned.cosmetic_id r = Cosmetic.id c
                   /\ Owned.equipped r = e.
Proof.
  unfold cosmetics_owned, Sql.all. rewrite in_flat_map. split.
  - intros (pc & Hpc & Hrow). apply filter_In in Hpc. destruct Hpc as [Hpc Hp].
    apply String.eqb_eq in Hp. apply in_map_iff in Hrow.
    destruct Hrow as (x & [= -> <-] & Hx). apply filter_In in Hx.
    destruct Hx as [Hx Hid]. apply String.eqb_eq in Hid.
    split; auto. exists pc. auto.
  - intros (Hc & r & Hr & Hp & Hid & He). exists r. split.
    + apply filter_In. split; auto. now apply String.eqb_eq.
    + apply in_map_iff. exists c. split; [now rewrite He|].
      apply filter_In. split; auto. apply String.eqb_eq. now symmetry.
Qed.

(** X30. [GET /cosmetics/owned] lists, for the caller, exactly the catalog
    entries the caller has an ownership row for, each with that row's
    equipped flag; an ownership row whose cosmetic is not in the catalog
    is not listed.  A cosmetic just bought is listed, not equipped. *)
Theorem owned_listing_joins_the_catalog E st tok player :
  requireAuth st tok = inr player ->
  get_cosmetics_owned st tok = inr (cosmetics_owned st (Player.id player))
  /\ (forall c e,
         In (c, e) (cosmetics_owned st (Player.id player))
         <-> In c (cosmetics_catalog st)
             /\ exists r, In r (player_cosmetics st)
                          /\ Owned.player_id r = Player.id player
                          /\ Owned.cosmetic_id r = Cosmetic.id c
                          /\ Owned.equipped r = e)
  /\ (forall cid, ~ in_catalog st cid ->
                  forall c e, In (c, e) (cosmetics_owned st (Player.id player)) ->
                              Cosmetic.id c <> cid)
  /\ (forall cid cosmetic u1 u2,
         unique_player_ids st -> cid <> "" ->
         Sql.get (fun c => (Cosmetic.id c =? cid)%string) (cosmetics_catalog st)
         = Some cosmetic ->
         ~ owns st (Player.id player) cid ->
         Cosmetic.price cosmetic <= Player.credits player ->
         In (cosmetic, false)
            (cosmetics_owned
               (fst (handle E st (mkcall (CosmeticsBuy tok cid) u1 u2)))
               (Player.id player))).
Proof.
  intros Hauth. split; [unfold get_cosmetics_owned; now rewrite Hauth|].
  split; [intros c e; apply cosmetics_owned_iff|]. split.
  - intros cid Hno c e Hin Hid. apply cosmetics_owned_iff in Hin.
    destruct Hin as [Hc _]. apply Hno. exists c. auto.
  - intros cid cosmetic u1 u2 Hn Hcid Hcat Hnot Hle.
    unfold handle. cbn [call_request].
    rewrite (buy_accepted st tok cid player cosmetic Hn Hauth Hcid Hcat
               (not_owns_get _ _ _ Hnot) Hle).
    cbn [fst]. apply cosmetics_owned_iff. db_simpl.
    apply get_some in Hcat. destruct Hcat as [Hin Hid].
    apply String.eqb_eq in Hid. split; auto.
    exists (Owned.mk (Player.id player) cid false). split.
    + apply in_or_app. right. now left.
    + cbn. auto.
Qed.

Lemma owned_listing_joins_the_catalog_witness :
  In (hat, false)
     (cosmetics_owned
        (fst (handle example_env example_db
                (mkcall (CosmeticsBuy "t-alice" "c-hat") "" "")))
        "p-alice").
Proof.
  refine (proj2 (proj2 (proj2
            (owned_listing_joins_the_catalog example_env example_db "t-alice"
               alice eq_refl))) "c-hat" hat "" "" _ _ eq_refl _ _).
  - unfold unique_player_ids. distinct_strings.
  - discriminate.
  - intros (r & [] & _).
  - simpl. lia.
Defined.
